(** * Parsr: pdfminer input stage and table reconstruction

    A shallow embedding of the pdfminer extractor of Parsr
    ([server/src/input/pdfminer], [server/src/input/extractImagesFonts.ts])
    and of the table reconstruction stage described in the specification,
    together with their properties. *)

From Stdlib Require Import String Ascii DecimalString ZArith QArith Qabs Qminmax.
From Stdlib Require Import Lia Lqa Bool Arith List Permutation Sorted.
Import ListNotations.

Local Close Scope Q_scope.
Local Open Scope string_scope.
Local Open Scope nat_scope.
Local Open Scope list_scope.

(** ** JavaScript numbers

    A JavaScript [number] is modelled as an exact rational, with [None] for
    [NaN] (the value of a failed [parseFloat] and of arithmetic on
    [undefined]).  Rounding and overflow of IEEE doubles are not modelled. *)

Definition number := option Q.

Definition lift2 (f : Q -> Q -> Q) (a b : number) : number :=
  match a, b with
  | Some x, Some y => Some (f x y)
  | _, _ => None
  end.

Definition nmul : number -> number -> number := lift2 Qmult.
Definition nsub : number -> number -> number := lift2 Qminus.
Definition nabs (a : number) : number := option_map Qabs a.
Definition nmin : number -> number -> number := lift2 Qmin.
Definition nmax : number -> number -> number := lift2 Qmax.

(** ** Strings: [split] and [parseFloat] *)

(** [s.split(sep)] for a one-character separator: the pieces between the
    occurrences of [sep]; a string without separator is a single piece. *)
Fixpoint split (sep : ascii) (s : string) : list string :=
  match s with
  | EmptyString => [EmptyString]
  | String c r =>
      if Ascii.eqb c sep then EmptyString :: split sep r
      else match split sep r with
           | [] => [String c EmptyString]
           | w :: ws => String c w :: ws
           end
  end.

Definition digit_of (c : ascii) : option Z :=
  let n := Z.of_nat (nat_of_ascii c) in
  if ((48 <=? n) && (n <=? 57))%Z then Some (n - 48)%Z else None.

Definition isWhite (c : ascii) : bool :=
  let n := nat_of_ascii c in
  (n =? 32)%nat || (n =? 9)%nat || (n =? 10)%nat || (n =? 13)%nat.

Fixpoint skipWhite (s : string) : string :=
  match s with
  | String c r => if isWhite c then skipWhite r else s
  | EmptyString => s
  end.

(** Longest prefix of decimal digits: value read so far, number of digits
    read, and the rest of the string. *)
Fixpoint readDigits (s : string) (acc : Z) (cnt : nat) : Z * nat * string :=
  match s with
  | String c r =>
      match digit_of c with
      | Some d => readDigits r (10 * acc + d)%Z (S cnt)
      | None => (acc, cnt, s)
      end
  | EmptyString => (acc, cnt, s)
  end.

Definition readSign (s : string) : bool * string :=
  match s with
  | String "-" r => (true, r)
  | String "+" r => (false, r)
  | _ => (false, s)
  end.

Fixpoint pow10 (n : nat) : positive :=
  match n with
  | O => 1%positive
  | S k => (10 * pow10 k)%positive
  end.

(** [parseFloat] on the decimal literals pdfminer prints ([%.3f]): leading
    white space, an optional sign, digits, an optional fraction; what follows
    is ignored.  No digit at all gives [NaN].  Exponents and [Infinity] are
    not modelled. *)
Definition parseFloat (s : string) : number :=
  let '(neg, s1) := readSign (skipWhite s) in
  let '(ip, ni, s2) := readDigits s1 0%Z 0%nat in
  let '(fp, nf) :=
    match s2 with
    | String "." r => let '(v, n, _) := readDigits r ip 0%nat in (v, n)
    | _ => (ip, 0%nat)
    end in
  match (ni + nf)%nat with
  | O => None
  | _ =>
      let m := if neg then (- fp)%Z else fp in
      Some (Qmake m (pow10 nf))
  end.

(** Does [s] start with [p]? *)
Fixpoint startsWith (p s : string) : bool :=
  match p, s with
  | EmptyString, _ => true
  | String a p', String b s' => Ascii.eqb a b && startsWith p' s'
  | String _ _, EmptyString => false
  end.

(** Does [p] occur in [s]? *)
Fixpoint contains (p s : string) : bool :=
  startsWith p s ||
  match s with
  | EmptyString => false
  | String _ s' => contains p s'
  end.

Definition lowerAscii (c : ascii) : ascii :=
  let n := nat_of_ascii c in
  if ((65 <=? n) && (n <=? 90))%nat then ascii_of_nat (n + 32) else c.

Fixpoint lowerCase (s : string) : string :=
  match s with
  | EmptyString => EmptyString
  | String c r => String (lowerAscii c) (lowerCase r)
  end.

(** [RegExp(/p/gim).test(s)] for a lower-case literal pattern [p]. *)
Definition testIgnoreCase (p s : string) : bool := contains p (lowerCase s).

(** ** Exceptions *)

Inductive Error :=
| TypeError          (* a property of [undefined] was read *)
| MergeOfEmptyList   (* [BoundingBox.merge] of no box at all *)
| ToolError (message : string).  (* an external tool or parser failed *)

Inductive result (A : Type) :=
| Ok (a : A)
| Throw (e : Error).
Arguments Ok {A} a.
Arguments Throw {A} e.

Definition bind {A B} (r : result A) (k : A -> result B) : result B :=
  match r with
  | Ok a => k a
  | Throw e => Throw e
  end.

Declare Scope result_scope.
Delimit Scope result_scope with result.
Notation "'do' x <- r ; k" := (bind r (fun x => k))
  (at level 10, x name, r at level 100, k at level 200)
  : result_scope.

Local Open Scope result_scope.

Fixpoint mapM {A B} (f : A -> result B) (l : list A) : result (list B) :=
  match l with
  | [] => Ok []
  | a :: r => do b <- f a; do bs <- mapM f r; Ok (b :: bs)
  end.

(** [l.map((x, i) => f(x, i))], starting at index [i]. *)
Fixpoint mapi {A B} (f : A -> nat -> B) (i : nat) (l : list A) : list B :=
  match l with
  | [] => []
  | a :: r => f a i :: mapi f (S i) r
  end.

(** [l.filter(x => x !== undefined)] *)
Fixpoint defined {A} (l : list (option A)) : list A :=
  match l with
  | [] => []
  | Some a :: r => a :: defined r
  | None :: r => defined r
  end.

(** [l.slice(from, to)] for non-negative bounds. *)
Definition slice {A} (from to : nat) (l : list A) : list A :=
  firstn (to - from) (skipn from l).

Definition isNone {A} (o : option A) : bool :=
  match o with None => true | Some _ => false end.

(** [l.sort(cmp)]: stable, an element moves in front of those it does not
    compare greater than. *)
Fixpoint insertSorted {A} (cmp : A -> A -> Z) (x : A) (l : list A) : list A :=
  match l with
  | [] => [x]
  | y :: r => if (cmp x y <=? 0)%Z then x :: l else y :: insertSorted cmp x r
  end.

Definition sort {A} (cmp : A -> A -> Z) (l : list A) : list A :=
  fold_right (insertSorted cmp) [] l.

Module Pdfminer.

(** *** Geometry, fonts and text elements

    The classes of [types/DocumentRepresentation] are not among the sources;
    the records below have the fields that the constructor calls of the
    extractor give them. *)

Record BoundingBox := mkBoundingBox {
  left : number;
  top : number;
  width : number;
  height : number
}.

Definition right (b : BoundingBox) : number := lift2 Qplus (left b) (width b).
Definition bottom (b : BoundingBox) : number := lift2 Qplus (top b) (height b).

(** Modelled from the spec: [BoundingBox.merge], of the class [BoundingBox]
    that is not among the sources: the smallest box containing all inputs;
    it reports an error when given no box. *)
Definition merge (boxes : list BoundingBox) : result BoundingBox :=
  match boxes with
  | [] => Throw MergeOfEmptyList
  | b :: bs =>
      let l := fold_left nmin (map left bs) (left b) in
      let t := fold_left nmin (map top bs) (top b) in
      let r := fold_left nmax (map right bs) (right b) in
      let bo := fold_left nmax (map bottom bs) (bottom b) in
      Ok (mkBoundingBox l t (nsub r l) (nsub bo t))
  end.

Record Font := mkFont {
  name : option string;   (* [undefined] when the record has no [font] *)
  size : number;
  weight : string;
  isItalic : bool;
  isUnderline : bool;
  color : string
}.

Record Character := mkCharacter {
  box : BoundingBox;
  content : string;
  font : Font
}.

Record Word := mkWord {
  wordBox : BoundingBox;
  characters : list Character;
  wordFont : Font
}.

(** A [<text>] record of pdfminer's XML output as [xml2js] hands it over:
    [text] is the property [_], [attr] the property [_attr].  An attribute
    that the tag does not have is [undefined]. *)
Record TextAttr := mkTextAttr {
  attrFont : option string;
  attrBbox : option string;
  attrSize : option string;
  attrNcolour : option string
}.

Record PdfminerText := mkText {
  text : option string;
  attr : option TextAttr
}.

(** [values[i]]: reading past the end of the array gives [undefined], which
    arithmetic turns into [NaN]. *)
Definition at_index (values : list number) (i : nat) : number :=
  nth i values None.

(** Pdfminer's bboxes are of the format x0, y0, x1, y1; a [BoundingBox] is
    left, top, width, height. *)
Definition getBoundingBox (bbox : string) (splitter : ascii)
    (pageHeight scalingFactor : number) : BoundingBox :=
  let values := map (fun v => nmul (parseFloat v) scalingFactor) (split splitter bbox) in
  let width := nabs (nsub (at_index values 2) (at_index values 0)) in
  let height := nabs (nsub (at_index values 1) (at_index values 3)) in
  let left := at_index values 0 in
  let top := nsub (nabs (nsub pageHeight (at_index values 1))) height in
  mkBoundingBox left top width height.

Definition getValidCharacter (character : string) : string :=
  if contains "(cid:" character then "?" else character.

Section Fonts.

(** [Font.isEqual], [Font.undefinedFont] and the colour conversion are taken
    as given: the class [Font] is not among the sources, and no property
    below depends on the colour string. *)
Variable isEqual : Font -> Font -> bool.
Variable undefinedFont : Font.
Variable ncolourToHex : string -> string.

(** One round of the [forEach] over the fonts: [font] is pushed on every
    basket whose first font it equals, and opens a basket of its own when
    there is none. *)
Definition headEquals (font : Font) (basket : list Font) : bool :=
  match basket with
  | f0 :: _ => isEqual f0 font
  | [] => false
  end.

Definition addToBaskets (baskets : list (list Font)) (font : Font) : list (list Font) :=
  let basketFound := existsb (headEquals font) baskets in
  let baskets' :=
    map (fun basket => if headEquals font basket then basket ++ [font] else basket) baskets in
  if basketFound then baskets' else baskets' ++ [[font]].

Definition fillBaskets (fonts : list Font) : list (list Font) :=
  fold_left addToBaskets fonts [].

Definition byLengthDesc (a b : list Font) : Z :=
  (Z.of_nat (length b) - Z.of_nat (length a))%Z.

Definition getMostCommonFont (theFonts : list Font) : Font :=
  let fonts := fold_left (fun a b => a ++ [b]) theFonts [] in
  let baskets := sort byLengthDesc (fillBaskets fonts) in
  match baskets with
  | (f :: _) :: _ => f
  | _ => undefinedFont
  end.

(** *** Breaking a text line into words *)

(** U+200B, zero width space, in UTF-8. *)
Definition zeroWidthSpace : string :=
  String (ascii_of_nat 226) (String (ascii_of_nat 128) (String (ascii_of_nat 139) EmptyString)).

Definition thereAreFakeSpaces (texts : list PdfminerText) : bool :=
  let indexed := mapi (fun word index => (word, index)) 0 texts in
  let emptyWithAttr :=
    map snd (filter (fun w => isNone (text (fst w)) && negb (isNone (attr (fst w)))) indexed) in
  let emptyWithNoAttr :=
    map snd (filter (fun w => isNone (text (fst w)) && isNone (attr (fst w))) indexed) in
  existsb (fun pos => existsb (Nat.eqb (pos + 1)) emptyWithAttr) emptyWithNoAttr.

Definition isFakeChar (word : PdfminerText) (fakeSpacesInLine : bool) : bool :=
  fakeSpacesInLine && isNone (text word) && isNone (attr word).

Definition notAllowed (char : PdfminerText) : bool :=
  match text char with
  | Some t => String.eqb t zeroWidthSpace
  | None => false
  end.

(** A method of a string is called on [s]: a [TypeError] when [s] is
    [undefined]. *)
Definition called {A} (f : string -> A) (s : option string) : result A :=
  match s with
  | Some v => Ok (f v)
  | None => Throw TypeError
  end.

(** The string that [RegExp.test] makes of its argument. *)
Definition toText (s : option string) : string :=
  match s with
  | Some v => v
  | None => "undefined"
  end.

(** [parseFloat] of a value that may be [undefined], which gives [NaN]. *)
Definition parseFloatOf (s : option string) : number :=
  match s with
  | Some v => parseFloat v
  | None => None
  end.

(** The body of the [map] that builds the characters: a record without text
    becomes [undefined]; reading the attributes of a record that has none
    throws, and so do [ncolourToHex] and [getBoundingBox], which call
    [replace] and [split] on their argument, for a record without [ncolour]
    or without [bbox].  A missing [font] or [size] is read as [undefined]
    and throws nothing. *)
Definition toCharacter (pageHeight scalingFactor : number) (char : PdfminerText)
    : result (option Character) :=
  match text char with
  | None => Ok None
  | Some t =>
      match attr char with
      | None => Throw TypeError
      | Some a =>
          do colour <- called ncolourToHex (attrNcolour a);
          let font := mkFont (attrFont a) (parseFloatOf (attrSize a))
                        (if testIgnoreCase "bold" (toText (attrFont a))
                         then "bold" else "medium")
                        (testIgnoreCase "italic" (toText (attrFont a)))
                        (testIgnoreCase "underline" (toText (attrFont a)))
                        colour in
          let charContent := getValidCharacter t in
          do bbox <- called (fun bbox => getBoundingBox bbox "," pageHeight scalingFactor)
                       (attrBbox a);
          Ok (Some (mkCharacter bbox charContent font))
      end
  end.

(** [c === undefined || c.content === wordSeparator], for [c = chars[i]]
    ([None] when [i] is not an index of the array). *)
Definition isBoundarySeparator (wordSeparator : string)
    (c : option (option Character)) : bool :=
  match c with
  | Some (Some ch) => String.eqb (content ch) wordSeparator
  | _ => true
  end.

Definition newWord (charSelection : list Character) : result Word :=
  do b <- merge (map box charSelection);
  Ok (mkWord b charSelection (getMostCommonFont (map font charSelection))).

(** The [for] loop over [sepLocs]: [locs] is what is left of [sepLocs] from
    index [i] on. *)
Fixpoint wordsBetween (chars : list (option Character)) (locs : list nat)
    (words : list Word) : result (list Word) :=
  match locs with
  | [] => Ok words
  | loc :: rest =>
      let from := loc + 1 in
      let to := match rest with
                | next :: _ => next
                | [] => length chars
                end in
      let charSelection := defined (slice from to chars) in
      do words' <-
        (if (0 <? length charSelection)%nat
         then do w <- newWord charSelection; Ok (words ++ [w])
         else Ok words);
      wordsBetween chars rest words'
  end.

Definition breakLineIntoWords (texts : list PdfminerText) (wordSeparator : string)
    (pageHeight scalingFactor : number) : result (list Word) :=
  let words : list Word := [] in
  let fakeSpaces := thereAreFakeSpaces texts in
  do chars0 <-
    mapM (toCharacter pageHeight scalingFactor)
      (filter (fun char => negb (notAllowed char) && negb (isFakeChar char fakeSpaces)) texts);
  let chars1 :=
    if isBoundarySeparator wordSeparator (nth_error chars0 0)
    then skipn 1 chars0 else chars0 in
  let chars :=
    if isBoundarySeparator wordSeparator (nth_error chars1 (length chars1 - 1))
    then removelast chars1 else chars1 in
  if (length chars =? 0)%nat
     || ((length chars =? 1)%nat && isNone (nth 0 chars None))
  then Ok words
  else
    let sepLocs :=
      filter (fun l => negb (l =? length chars)%nat)
        (filter (fun l => negb (l =? 0)%nat)
           (defined (mapi (fun c i => if isNone c then Some i else None) 0 chars))) in
    match sepLocs with
    | [] =>
        let charSelection := defined chars in
        do w <- newWord charSelection;
        Ok (words ++ [w])
    | loc0 :: _ =>
        let charSelection := defined (slice 0 loc0 chars) in
        do words' <-
          (if (0 <? length charSelection)%nat
           then do w <- newWord charSelection; Ok (words ++ [w])
           else Ok words);
        wordsBetween chars sepLocs words'
    end.

End Fonts.

(** *** Predicates used in the statements *)

Definition nonEmptyWord (w : Word) : Prop := characters w <> [].

(** Two baskets open with fonts that are not equal. *)
Definition differentHeads (isEqual : Font -> Font -> bool) (b1 b2 : list Font) : Prop :=
  forall f1 f2, hd_error b1 = Some f1 -> hd_error b2 = Some f2 -> isEqual f1 f2 = false.

(** The baskets after the fonts of [seen] were put in: each basket holds, in
    order, the fonts of [seen] equal to its first font; every font of [seen]
    equals the first font of a basket; the first fonts of two baskets are
    not equal. *)
Definition basketsOf (isEqual : Font -> Font -> bool) (seen : list Font)
    (baskets : list (list Font)) : Prop :=
  Forall (fun basket => exists f, hd_error basket = Some f
                                  /\ basket = filter (isEqual f) seen) baskets
  /\ (forall f, In f seen -> existsb (headEquals isEqual f) baskets = true)
  /\ ForallOrdPairs (differentHeads isEqual) baskets.

End Pdfminer.

(** ** The extractor class: [PdfminerExtractor.extractFile] *)

Module PdfminerExtractor.

Section Extractor.

(** The page elements and the intermediate JSON are opaque here. *)
Variable Element : Type.
Variable Json : Type.

Record Page := mkPage {
  pageNumber : Z;
  elements : list Element;
  pageBox : Pdfminer.BoundingBox
}.

Record Document := mkDocument {
  pages : list Page;
  inputFile : string;
  assetsFolder : string
}.

(** [pdfminer.extractPages], [pdfminer.xmlParser] and [pdfminer.jsParser]
    are not among the sources; each is a promise, fulfilled or rejected. *)
Variable extractPages : string -> option string -> result string.
Variable xmlParser : string -> result Json.
Variable jsParser : Json -> result Document.

Definition numberToString (z : Z) : string := NilZero.string_of_int (Z.to_int z).

(** [el <= totalPages], where [null] compares as [0]. *)
Definition leTotal (el : Z) (totalPages : option Z) : bool :=
  match totalPages with
  | Some t => (el <=? t)%Z
  | None => (el <=? 0)%Z
  end.

Definition pagesToExtract (pageIndex maxPages : Z) (totalPages : option Z) : string :=
  let fromPage := ((pageIndex - 1) * maxPages)%Z in
  String.concat ","
    (map numberToString
       (filter (fun el => leTotal el totalPages)
          (map (fun el => (el + fromPage + 1)%Z)
             (map Z.of_nat (seq 0 (Z.to_nat maxPages)))))).

(** [document.pages.forEach((page, index) => (page.pageNumber = index + 1))] *)
Definition renumber (ps : list Page) : list Page :=
  mapi (fun page index => mkPage (Z.of_nat index + 1) (elements page) (pageBox page)) 0 ps.

(** [extractFile] calls itself once per batch of [maxPages] pages; [fuel]
    bounds the number of batches, [None] is a run that needs more. *)
Fixpoint extractFile (fuel : nat) (file : string) (pageIndex maxPages : Z)
    (totalPages : option Z) (document : Document) : option (result Document) :=
  match fuel with
  | O => None
  | S fuel' =>
      let toPage := (pageIndex * maxPages - 1)%Z in
      let extractPagesArg := pagesToExtract pageIndex maxPages totalPages in
      let parsed :=
        do xmlOutputFile <-
          extractPages file
            (match totalPages with Some _ => Some extractPagesArg | None => None end);
        do json <- xmlParser xmlOutputFile;
        jsParser json in
      match parsed with
      | Throw e => Some (Throw e)
      | Ok doc =>
          let document' :=
            mkDocument (renumber (pages document ++ pages doc))
              (inputFile document) (assetsFolder document) in
          if match totalPages with
             | Some t => (t >? toPage + 1)%Z
             | None => false
             end
          then extractFile fuel' file (pageIndex + 1) maxPages totalPages document'
          else Some (Ok document')
      end
  end.

End Extractor.

Arguments pageNumber {Element} _.
Arguments pages {Element} _.

End PdfminerExtractor.

(** ** [extractImagesAndFonts] *)

Module ExtractImagesFonts.

(** What a promise is rejected with: the value given to [reject], or the
    exception that left the executor. *)
Inductive Reason :=
| Message (text : string)
| Thrown (e : Error).

(** A promise is settled once: later calls of [resolve] and [reject] are
    ignored. *)
Inductive Promise :=
| Pending
| Fulfilled (value : string)
| Rejected (reason : Reason).

Definition resolve (value : string) (p : Promise) : Promise :=
  match p with
  | Pending => Fulfilled value
  | _ => p
  end.

Definition reject (reason : Reason) (p : Promise) : Promise :=
  match p with
  | Pending => Rejected reason
  | _ => p
  end.

(** What [spawnSync] returns: [status] is [null] when the process did not
    exit by itself, and [stderr] is [null] when the process could not be
    started at all. *)
Record SpawnSyncReturns := mkReturns {
  status : option Z;
  stderr : option string
}.

(** What the function sees of the system; the calls of [utils] and [fs]
    are taken as returning normally. *)
Record System := mkSystem {
  getCommandLocationOnSystem : string -> option string;
  getMutoolExtractionFolder : string;
  spawnSync : string -> list string -> string -> SpawnSyncReturns;
  readdirSync : string -> list string
}.

(** [!mutoolPath] *)
Definition notFound (path : option string) : bool :=
  match path with
  | None => true
  | Some s => String.eqb s EmptyString
  end.

Definition isUpper (c : ascii) : bool :=
  let n := nat_of_ascii c in (65 <=? n) && (n <=? 90).

Fixpoint dropUpper (k : nat) (s : string) : option string :=
  match k, s with
  | O, _ => Some s
  | S k', String c r => if isUpper c then dropUpper k' r else None
  | S _, EmptyString => None
  end.

Fixpoint revOnto (s acc : string) : string :=
  match s with
  | EmptyString => acc
  | String c r => revOnto r (String c acc)
  end.

Fixpoint dropPrefix (p s : string) : option string :=
  match p, s with
  | EmptyString, _ => Some s
  | String a p', String b s' => if Ascii.eqb a b then dropPrefix p' s' else None
  | String _ _, EmptyString => None
  end.

Fixpoint hasLineBreak (s : string) : bool :=
  match s with
  | EmptyString => false
  | String c r => (nat_of_ascii c =? 10) || (nat_of_ascii c =? 13) || hasLineBreak r
  end.

(** [file.match(ttfRegExp)]: six capitals, a plus sign, the font name (the
    captured group, free of line breaks), a dash, digits and the extension
    [.ttf], from the first to the last character of [file]. *)
Definition ttfMatch (file : string) : option string :=
  match dropUpper 6 file with
  | Some (String "+" r) =>
      match dropPrefix "ftt." (revOnto r EmptyString) with
      | Some r1 =>
          match readDigits r1 0%Z 0 with
          | (_, S _, String "-" x) =>
              if hasLineBreak x then None else Some (revOnto x EmptyString)
          | _ => None
          end
      | None => None
      end
  | _ => None
  end.

(** The files renamed by the [forEach]: old and new path. *)
Definition renames (extractLocation : string) (files : list string)
    : list (string * string) :=
  flat_map (fun file =>
    match ttfMatch file with
    | Some font =>
        [(extractLocation ++ "/" ++ file, extractLocation ++ "/" ++ font ++ ".ttf")%string]
    | None => []
    end) files.

(** [ret.status !== 0] *)
Definition failed (ret : SpawnSyncReturns) : bool :=
  match status ret with
  | Some 0%Z => false
  | _ => true
  end.

(** The [if] on the status of the run, from the pending state:
    [ret.stderr.toString()] throws when [stderr] is [null], before
    [reject] is called. *)
Definition rejectOnFailure (ret : SpawnSyncReturns) : result Promise :=
  if failed ret
  then match stderr ret with
       | Some text => Ok (reject (Message text) Pending)
       | None => Throw TypeError
       end
  else Ok Pending.

(** The executor of the promise, run from the pending state; the result is
    the state of the promise and the renamings done on the file system.  An
    exception that leaves the executor rejects the promise, and the
    statements after it are not run. *)
Definition extractImagesAndFonts (sys : System) (pdfInputFile : string)
    : Promise * list (string * string) :=
  let mutoolPath := getCommandLocationOnSystem sys "mutool" in
  if notFound mutoolPath then (resolve EmptyString Pending, [])
  else
    let extractLocation := getMutoolExtractionFolder sys in
    let ret := spawnSync sys "mutool" ["extract"; pdfInputFile] extractLocation in
    match rejectOnFailure ret with
    | Ok p1 =>
        let renamed := renames extractLocation (readdirSync sys extractLocation) in
        (resolve extractLocation p1, renamed)
    | Throw e => (reject (Thrown e) Pending, [])
    end.

End ExtractImagesFonts.

(** ** Table reconstruction

    The table detection module itself is not among the sources (only its
    tests are); this section follows section 4.3 of the specification. *)

Module TableReconstruction.

Local Open Scope Q_scope.

(** Modelled from the spec: the [BoundingBox] of section 3, left, top, width
    and height, with [right] and [bottom] derived. *)
Record BoundingBox := mkBox {
  left : Q;
  top : Q;
  width : Q;
  height : Q
}.

Definition right (b : BoundingBox) : Q := left b + width b.
Definition bottom (b : BoundingBox) : Q := top b + height b.

(** Modelled from the spec: the [RawTableGrid] of section 3, raw rows of raw
    cell records with a box and a text, without span information. *)
Record RawCell := mkRawCell {
  rawBox : BoundingBox;
  rawText : string
}.

Definition RawTableGrid := list (list RawCell).

(** Modelled from the spec: [Table], [TableRow] and [TableCell] of section 3;
    the content of a cell is the text of the raw cell. *)
Record TableCell := mkCell {
  cellBox : BoundingBox;
  colspan : nat;
  rowspan : nat;
  cellText : string
}.

Record TableRow := mkRow { cells : list TableCell }.

Record Table := mkTable {
  rows : list TableRow;
  tableBox : BoundingBox
}.

(** Modelled from the spec: the page of section 3, an ordered sequence of
    elements with a box each. *)
Inductive Element :=
| TextElement (box : BoundingBox) (content : string)
| ImageElement (box : BoundingBox)
| TableElement (table : Table).

Record Page := mkPage {
  elements : list Element;
  pageBox : BoundingBox;
  pageNumber : Z
}.

Definition Qltb (a b : Q) : bool := negb (Qle_bool b a).

(** The comparator [(a, b) => a - b], by its sign. *)
Definition compareQ (a b : Q) : Z :=
  match Qcompare a b with
  | Lt => (-1)%Z
  | Eq => 0%Z
  | Gt => 1%Z
  end.

(** Length of the common part of the intervals [a1, a2] and [b1, b2]. *)
Definition overlapLength (a1 a2 b1 b2 : Q) : Q :=
  Qmax 0 (Qmin a2 b2 - Qmax a1 b1).

(** Modelled from the spec: steps 2 and 3 of section 4.3.  A cell covers a
    canonical interval when its overlap with the interval exceeds 50% of the
    interval's width. *)
Definition covers (lo hi : Q) (interval : Q * Q) : bool :=
  Qltb ((1 # 2) * (snd interval - fst interval))
       (overlapLength lo hi (fst interval) (snd interval)).

(** Modelled from the spec: the span of a cell is the number of canonical
    intervals it covers (steps 2 and 3). *)
Definition span (lo hi : Q) (intervals : list (Q * Q)) : nat :=
  length (filter (covers lo hi) intervals).

(** Modelled from the spec: the column position of a cell (step 3), the
    index of the first canonical interval it covers. *)
Fixpoint firstCovered (lo hi : Q) (intervals : list (Q * Q)) : option nat :=
  match intervals with
  | [] => None
  | i :: r =>
      if covers lo hi i then Some O
      else option_map S (firstCovered lo hi r)
  end.

(** Modelled from the spec: the boundary set [c0, c1, ..., cn] of step 1
    gives the n intervals [(c0, c1), ..., (c(n-1), cn)]. *)
Definition intervals (boundaries : list Q) : list (Q * Q) :=
  combine boundaries (tl boundaries).

Definition sumOf {A} (f : A -> nat) (l : list A) : nat :=
  fold_right (fun a acc => (f a + acc)%nat) O l.

(** Modelled from the spec: [merge] of section 3 over the rationals, the
    smallest box containing all inputs, and no box for an empty input. *)
Definition merge (boxes : list BoundingBox) : option BoundingBox :=
  match boxes with
  | [] => None
  | b :: bs =>
      let l := fold_left Qmin (map left bs) (left b) in
      let t := fold_left Qmin (map top bs) (top b) in
      let r := fold_left Qmax (map right bs) (right b) in
      let bo := fold_left Qmax (map bottom bs) (bottom b) in
      Some (mkBox l t (r - l) (bo - t))
  end.

(** Modelled from the spec: an "active rowspan" of step 3, a rowspan that
    reaches into later rows, with the columns it claims, the number of rows
    it still covers, and the box of the cell it comes from. *)
Record Active := mkActive {
  startColumn : nat;
  columns : nat;
  remaining : nat;
  source : BoundingBox
}.

(** What reconstruction keeps of one raw row: the row that is emitted, and
    whether it was emitted through the span-sum fallback. *)
Record RowResult := mkRowResult {
  emitted : TableRow;
  fallback : bool
}.

Section Algorithm.

(** The "small numeric tolerance" of step 1, which the spec leaves open. *)
Variable tolerance : Q.

(** Modelled from the spec: step 1, "sorted and deduplicated within a small
    numeric tolerance".  A value of the sorted list is dropped when it lies
    within the tolerance of the last one kept. *)
Fixpoint dedupFrom (last : Q) (l : list Q) : list Q :=
  match l with
  | [] => []
  | x :: r =>
      if Qle_bool (x - last) tolerance then dedupFrom last r
      else x :: dedupFrom x r
  end.

Definition dedup (l : list Q) : list Q :=
  match l with
  | [] => []
  | x :: r => x :: dedupFrom x r
  end.

(** Modelled from the spec: the canonical boundary set of steps 1 and 3. *)
Definition canonical (values : list Q) : list Q :=
  dedup (sort compareQ values).

(** Modelled from the spec: step 1, the reference row is the row with the
    greatest cell count (the first of them). *)
Definition referenceRow (grid : RawTableGrid) : list RawCell :=
  fold_left (fun best row => if (length best <? length row)%nat then row else best)
    grid [].

(** Modelled from the spec: step 1, the left and right boundaries of the
    cells of the reference row give the canonical column boundaries. *)
Definition columnBoundaries (grid : RawTableGrid) : list Q :=
  canonical
    (flat_map (fun c => [left (rawBox c); right (rawBox c)]) (referenceRow grid)).

(** Modelled from the spec: step 3, the canonical row boundaries come from
    the top and bottom boundaries of the cells across the table. *)
Definition rowBoundaries (grid : RawTableGrid) : list Q :=
  canonical
    (flat_map (fun c => [top (rawBox c); bottom (rawBox c)]) (concat grid)).

(** Modelled from the spec: the canonical column count [n] of step 1. *)
Definition columnCount (grid : RawTableGrid) : nat :=
  length (intervals (columnBoundaries grid)).

Section Rows.

Variable colBounds : list Q.
Variable rowBounds : list Q.

(** Modelled from the spec: colspan (step 2), rowspan and column position
    (step 3) of a box on the canonical grid. *)
Definition colspanOf (b : BoundingBox) : nat :=
  span (left b) (right b) (intervals colBounds).

Definition rowspanOf (b : BoundingBox) : nat :=
  span (top b) (bottom b) (intervals rowBounds).

Definition columnOf (b : BoundingBox) : option nat :=
  firstCovered (left b) (right b) (intervals colBounds).


(** Modelled from the spec: step 3, "near-identical bounding box": the
    four coordinates agree within the tolerance. *)
Definition nearIdentical (a b : BoundingBox) : bool :=
  Qle_bool (Qabs (left a - left b)) tolerance
  && Qle_bool (Qabs (top a - top b)) tolerance
  && Qle_bool (Qabs (width a - width b)) tolerance
  && Qle_bool (Qabs (height a - height b)) tolerance.

(** Modelled from the spec: step 3, "column position already claimed by an
    active rowspan". *)
Definition claims (a : Active) (column : nat) : bool :=
  ((startColumn a <=? column) && (column <? startColumn a + columns a))%nat.

(** Modelled from the spec: step 3, a raw cell of a later row is absorbed
    when its box is near-identical to that of a cell whose rowspan is still
    active, or when its column position is claimed by an active rowspan. *)
Definition absorbs (a : Active) (b : BoundingBox) : bool :=
  nearIdentical (source a) b
  || match columnOf b with
     | Some p => claims a p
     | None => false
     end.

Definition absorbed (active : list Active) (c : RawCell) : bool :=
  existsb (fun a => absorbs a (rawBox c)) active.

(** Modelled from the spec: a cell with its spans (steps 2 and 3), and a
    cell of the fallback, "uncorrected", with spans 1. *)
Definition reconstructCell (c : RawCell) : TableCell :=
  mkCell (rawBox c) (colspanOf (rawBox c)) (rowspanOf (rawBox c)) (rawText c).

Definition uncorrectedCell (c : RawCell) : TableCell :=
  mkCell (rawBox c) 1 1 (rawText c).

(** Modelled from the spec: step 4, the rowspans that are still active
    after one more row. *)
Definition continue (active : list Active) : list Active :=
  flat_map (fun a =>
    if (1 <? remaining a)%nat
    then [mkActive (startColumn a) (columns a) (remaining a - 1) (source a)]
    else []) active.

(** Modelled from the spec: step 3, the rowspans that start with the cells
    emitted in a row. *)
Definition start (kept : list RawCell) : list Active :=
  flat_map (fun c =>
    match columnOf (rawBox c) with
    | Some p =>
        if (1 <? rowspanOf (rawBox c))%nat
        then [mkActive p (colspanOf (rawBox c)) (rowspanOf (rawBox c) - 1) (rawBox c)]
        else []
    | None => []
    end) kept.

(** Modelled from the spec: steps 2 to 4 and the failure policy of sections
    4.3 and 7.  The cells of a raw row that are not absorbed are emitted
    left to right with their spans; when their colspans, together with the
    widths of the rowspans continuing from above, do not add up to the
    column count [n], the row is degraded to uncorrected per-cell spans:
    its cells are emitted with colspan and rowspan 1 each.  The absorbed
    cells stay out of a degraded row as well: they are the repetition of a
    merged region, which section 3 keeps out of the cell lists of the rows
    it spans. *)
Definition processRow (n : nat) (active : list Active) (raw : list RawCell)
    : RowResult * list Active :=
  let kept := filter (fun c => negb (absorbed active c)) raw in
  let spanned := map reconstructCell kept in
  if (sumOf colspan spanned + sumOf columns active =? n)%nat
  then (mkRowResult (mkRow spanned) false, continue active ++ start kept)
  else (mkRowResult (mkRow (map uncorrectedCell kept)) true, continue active).

(** Modelled from the spec: step 4, the rows are built in the order of the
    raw rows, top to bottom. *)
Fixpoint assemble (n : nat) (active : list Active) (grid : RawTableGrid)
    : list RowResult :=
  match grid with
  | [] => []
  | raw :: rest =>
      let '(r, active') := processRow n active raw in
      r :: assemble n active' rest
  end.

End Rows.

(** Modelled from the spec: steps 1 to 4 and the failure policy; a grid
    without rows or without columns gives no table. *)
Definition reconstructRows (grid : RawTableGrid) : option (list RowResult) :=
  let n := columnCount grid in
  if ((length grid =? 0) || (n =? 0))%nat then None
  else Some (assemble (columnBoundaries grid) (rowBoundaries grid) n [] grid).

(** Was row [i] of the table emitted through the span-sum fallback? *)
Definition degraded (grid : RawTableGrid) (i : nat) : bool :=
  match reconstructRows grid with
  | Some rs =>
      match nth_error rs i with
      | Some r => fallback r
      | None => false
      end
  | None => false
  end.

(** Modelled from the spec: the table built from a raw grid (steps 1 to 4),
    with the merge of all raw cell boxes as its box (step 5). *)
Definition reconstruct (grid : RawTableGrid) : option Table :=
  match reconstructRows grid, merge (map rawBox (concat grid)) with
  | Some rs, Some b => Some (mkTable (map emitted rs) b)
  | _, _ => None
  end.

(** *** Splicing into the page (step 5) *)

Definition area (b : BoundingBox) : Q := width b * height b.

Definition overlapArea (a b : BoundingBox) : Q :=
  overlapLength (left a) (right a) (left b) (right b)
  * overlapLength (top a) (bottom a) (top b) (bottom b).

Definition containedIn (a b : BoundingBox) : bool :=
  Qle_bool (left b) (left a) && Qle_bool (right a) (right b)
  && Qle_bool (top b) (top a) && Qle_bool (bottom a) (bottom b).

(** Modelled from the spec: step 5, an existing non-table element is
    subsumed when its box is contained in the table's box or has majority
    overlap with it. *)
Definition subsumed (tbox : BoundingBox) (e : Element) : bool :=
  match e with
  | TextElement b _ | ImageElement b =>
      containedIn b tbox || Qltb ((1 # 2) * area b) (overlapArea b tbox)
  | TableElement _ => false
  end.

(** Modelled from the spec: step 5, the subsumed elements are removed and
    the table takes the place of the first of them; [placed] tells whether
    it has been inserted already.  A table that subsumes nothing is put
    after the last element (the spec is silent there). *)
Fixpoint splice (t : Table) (placed : bool) (els : list Element) : list Element :=
  match els with
  | [] => if placed then [] else [TableElement t]
  | e :: r =>
      if subsumed (tableBox t) e
      then (if placed then splice t true r else TableElement t :: splice t true r)
      else e :: splice t placed r
  end.

(** Modelled from the spec: the extractor contract of section 6, a failure
    or the raw grids of the tables found on the page. *)
Inductive ExtractorResponse :=
| ExtractorFailure
| RawTables (grids : list RawTableGrid).

(** Modelled from the spec: one raw grid is reconstructed and spliced into
    the page; a discarded grid leaves the page as it is (section 7). *)
Definition addTable (page : Page) (grid : RawTableGrid) : Page :=
  match reconstruct grid with
  | Some t => mkPage (splice t false (elements page)) (pageBox page) (pageNumber page)
  | None => page
  end.

(** Modelled from the spec: the table detection stage on one page (sections
    6 and 7).  A failure of the extractor counts as no table. *)
Definition detectTables (response : ExtractorResponse) (page : Page) : Page :=
  match response with
  | ExtractorFailure => page
  | RawTables grids => fold_left addTable grids page
  end.

(** The [Table] elements of a page, [elementsOfType<Table>]. *)
Definition tablesOf (page : Page) : list Table :=
  flat_map (fun e => match e with TableElement t => [t] | _ => [] end) (elements page).

(** *** The stage and the pipeline runner *)

Unset Elimination Schemes.

(** Modelled from the spec: the payload of the extractor contract (section
    6) is JSON-serializable; its values. *)
Inductive Json :=
| JNull
| JBool (b : bool)
| JNumber (q : Q)
| JString (s : string)
| JArray (items : list Json)
| JObject (fields : list (string * Json)).

Set Elimination Schemes.

(** Modelled from the spec: what the extractor capability gives for a page
    (sections 6 and 7): the collaborator fails (a process error, a timeout),
    or it hands over the text of a payload, as the stub of the tests of the
    module does. *)
Inductive ExtractorResult :=
| ProcessError (message : string)
| Output (payload : string).

(** Modelled from the spec: the extractor capability that is injected into
    the stage (section 6), one operation from a page to its result. *)
Definition Extractor := Page -> ExtractorResult.

(** [JSON.parse] on the text of a payload, taken as given; [None] for a
    text that is not JSON. *)
Variable parseJson : string -> option Json.

(** The property [key] of an object, [None] when it has none. *)
Fixpoint property (key : string) (fields : list (string * Json)) : option Json :=
  match fields with
  | [] => None
  | (k, v) :: r => if String.eqb k key then Some v else property key r
  end.

(** All the values of a list, or [None] when one of them is missing. *)
Fixpoint allOf {A} (l : list (option A)) : option (list A) :=
  match l with
  | [] => Some []
  | Some a :: r => option_map (cons a) (allOf r)
  | None :: _ => None
  end.

(** Modelled from the spec: the schema of the payload (section 6).  A cell
    record has a [bbox] of four numbers, two opposite corners, and a
    [text]; a row is an array of cell records, a table an array of rows,
    and the payload of a page an array of tables.  Anything else is a
    malformed payload. *)
Definition boxOfCorners (x0 y0 x1 y1 : Q) : BoundingBox :=
  mkBox (Qmin x0 x1) (Qmin y0 y1) (Qabs (x1 - x0)) (Qabs (y1 - y0)).

(** Modelled from the spec: a cell record of the payload (section 6). *)
Definition decodeCell (json : Json) : option RawCell :=
  match json with
  | JObject fields =>
      match property "bbox" fields, property "text" fields with
      | Some (JArray [JNumber x0; JNumber y0; JNumber x1; JNumber y1]),
        Some (JString s) => Some (mkRawCell (boxOfCorners x0 y0 x1 y1) s)
      | _, _ => None
      end
  | _ => None
  end.

(** Modelled from the spec: a row of the payload, an array of cell records
    (section 6). *)
Definition decodeRow (json : Json) : option (list RawCell) :=
  match json with
  | JArray records => allOf (map decodeCell records)
  | _ => None
  end.

(** Modelled from the spec: a table of the payload, an array of rows
    (section 6). *)
Definition decodeTable (json : Json) : option RawTableGrid :=
  match json with
  | JArray rws => allOf (map decodeRow rws)
  | _ => None
  end.

(** Modelled from the spec: the payload of a page, an array of tables
    (section 6); the empty array stands for no table. *)
Definition decodeTables (json : Json) : option (list RawTableGrid) :=
  match json with
  | JArray tables => allOf (map decodeTable tables)
  | _ => None
  end.

(** The change from the extractor's coordinate convention to that of the
    core, top down, which the spec leaves to the caller (section 6). *)
Variable normalize : Page -> BoundingBox -> BoundingBox.

(** Modelled from the spec: the boxes of a raw grid are normalized before
    use (section 6). *)
Definition normalizeGrid (page : Page) (grid : RawTableGrid) : RawTableGrid :=
  map (map (fun c => mkRawCell (normalize page (rawBox c)) (rawText c))) grid.

(** Modelled from the spec: the fail-open policy of section 7.  A failure
    of the collaborator and a malformed payload, a text that is not JSON or
    JSON that does not follow the schema, all count as "no tables on this
    page". *)
Definition responseOf (page : Page) (result : ExtractorResult) : ExtractorResponse :=
  match result with
  | ProcessError _ => ExtractorFailure
  | Output payload =>
      match parseJson payload with
      | Some json =>
          match decodeTables json with
          | Some grids => RawTables (map (normalizeGrid page) grids)
          | None => ExtractorFailure
          end
      | None => ExtractorFailure
      end
  end.

(** Modelled from the spec: the document of section 3, an ordered sequence
    of pages. *)
Record Document := mkDocument { pages : list Page }.

(** Modelled from the spec: a pipeline stage (sections 4.4 and 6), which
    gives the transformed document or fails. *)
Definition Stage := Document -> result Document.

(** Modelled from the spec: the table detection stage with its injected
    extractor (section 6).  The extractor is asked page by page, and each
    page takes the tables found on it; the splice of a page touches that
    page only (section 4.4). *)
Definition tableDetection (extractor : Extractor) : Stage :=
  fun document =>
    Ok (mkDocument
          (map (fun page => detectTables (responseOf page (extractor page)) page)
             (pages document))).

(** Modelled from the spec: the pipeline runner of section 4.4.  The stages
    are applied in the given order; the failure of a stage aborts the
    remaining ones and reaches the caller with the index of the stage. *)
Inductive Outcome :=
| Completed (document : Document)
| Failed (stage : nat) (e : Error).

(** Modelled from the spec: the stages from the one of the given index on
    (section 4.4). *)
Fixpoint runFrom (index : nat) (document : Document) (stages : list Stage) : Outcome :=
  match stages with
  | [] => Completed document
  | stage :: rest =>
      match stage document with
      | Ok document' => runFrom (S index) document' rest
      | Throw e => Failed index e
      end
  end.

(** Modelled from the spec: [run(document, stages)] of section 4.4. *)
Definition run (document : Document) (stages : list Stage) : Outcome :=
  runFrom 0%nat document stages.

End Algorithm.

(** *** Quantities of the row invariant *)

Definition colspanSum (r : TableRow) : nat := sumOf colspan (cells r).

(** Width of the columns that cells of the rows before row [i] occupy in row
    [i] through their rowspan; [j] is the index of the first row of [rws]. *)
Fixpoint continuationWidth (j : nat) (rws : list TableRow) (i : nat) : nat :=
  match rws with
  | [] => O
  | r :: rest =>
      ((if (j <? i)%nat
        then sumOf (fun c => if (i <? j + rowspan c)%nat then colspan c else O) (cells r)
        else O)
       + continuationWidth (S j) rest i)%nat
  end.

(** Width of the columns that the rowspans of [active] occupy [i] rows
    further down. *)
Definition activeWidth (i : nat) (active : list Active) : nat :=
  sumOf (fun a => if (i <? remaining a)%nat then columns a else O) active.

(** Consecutive boundaries that lie more than the tolerance apart. *)
Fixpoint chainFrom (tolerance last : Q) (l : list Q) : Prop :=
  match l with
  | [] => True
  | x :: r => tolerance < x - last /\ chainFrom tolerance x r
  end.

Definition chain (tolerance : Q) (l : list Q) : Prop :=
  match l with
  | [] => True
  | x :: r => chainFrom tolerance x r
  end.

(** A regular grid: columns of the given widths from the left edge [x0],
    rows of the given heights from the top edge [y0], one raw cell in each
    row for each column, all rows with the same boundaries. *)
Fixpoint boundariesFrom (start : Q) (sizes : list Q) : list Q :=
  match sizes with
  | [] => [start]
  | w :: r => start :: boundariesFrom (start + w) r
  end.

Fixpoint rowCells (txt : Q -> Q -> string) (x : Q) (widths : list Q) (y h : Q)
    : list RawCell :=
  match widths with
  | [] => []
  | w :: r => mkRawCell (mkBox x y w h) (txt x y) :: rowCells txt (x + w) r y h
  end.

Fixpoint gridRows (txt : Q -> Q -> string) (x0 : Q) (widths : list Q)
    (y : Q) (heights : list Q) : RawTableGrid :=
  match heights with
  | [] => []
  | h :: r => rowCells txt x0 widths y h :: gridRows txt x0 widths (y + h) r
  end.

Definition regularGrid (txt : Q -> Q -> string) (x0 : Q) (widths : list Q)
    (y0 : Q) (heights : list Q) : RawTableGrid :=
  gridRows txt x0 widths y0 heights.

End TableReconstruction.

(** * Sample inputs *)

Module Samples.

Import ExtractImagesFonts.

Definition noMutool : System :=
  mkSystem (fun _ => None) "/tmp/extract" (fun _ _ _ => mkReturns (Some 0%Z) (Some EmptyString)) (fun _ => []).

Definition failingMutool : System :=
  mkSystem (fun _ => Some "/usr/bin/mutool") "/tmp/extract"
    (fun _ _ _ => mkReturns (Some 1%Z) (Some "cannot open document"))
    (fun _ => ["ABCDEF+Arial-12.ttf"]).

(** A system on which [mutool] is found but cannot be started. *)
Definition brokenMutool : System :=
  mkSystem (fun _ => Some "/usr/bin/mutool") "/tmp/extract"
    (fun _ _ _ => mkReturns None None)
    (fun _ => ["ABCDEF+Arial-12.ttf"]).


(** A line of pdfminer text: "ab", a blank, "c" and the end of the line. *)
Definition sampleAttr : Pdfminer.TextAttr :=
  Pdfminer.mkTextAttr (Some "Arial-BoldItalic") (Some "1,2,3,4") (Some "12.0") (Some "[0]").

Definition sampleLine : list Pdfminer.PdfminerText :=
  [Pdfminer.mkText (Some "a") (Some sampleAttr);
   Pdfminer.mkText (Some "b") (Some sampleAttr);
   Pdfminer.mkText None (Some sampleAttr);
   Pdfminer.mkText (Some "c") (Some sampleAttr);
   Pdfminer.mkText None None].

(** Fonts compared by name. *)
Definition sameName (f g : Pdfminer.Font) : bool :=
  String.eqb (Pdfminer.toText (Pdfminer.name f)) (Pdfminer.toText (Pdfminer.name g)).

Definition namedFont (n : string) : Pdfminer.Font :=
  Pdfminer.mkFont (Some n) (Some 12%Q) "medium" false false "#000000".

Definition sampleFonts : list Pdfminer.Font :=
  [namedFont "Arial"; namedFont "Times"; namedFont "Times"; namedFont "Arial";
   namedFont "Times"].

(** A stand-in for pdfminer: the XML names the pages asked for, one page is
    parsed for each of them, each numbered 0 by the parser. *)
Definition samplePage : PdfminerExtractor.Page unit :=
  PdfminerExtractor.mkPage unit 0%Z []
    (Pdfminer.mkBoundingBox (Some 0%Q) (Some 0%Q) (Some 595%Q) (Some 842%Q)).

Definition sampleExtractPages (file : string) (pages : option string) : result string :=
  match pages with
  | Some p => Ok p
  | None => Ok "1"
  end.

Definition sampleXmlParser (xml : string) : result (list string) :=
  Ok (split "," xml).

Definition sampleJsParser (json : list string) : result (PdfminerExtractor.Document unit) :=
  Ok (PdfminerExtractor.mkDocument unit (map (fun _ => samplePage) json) EmptyString EmptyString).

Definition sampleExtractFile :=
  PdfminerExtractor.extractFile unit (list string)
    sampleExtractPages sampleXmlParser sampleJsParser.

Definition emptyDocument : PdfminerExtractor.Document unit :=
  PdfminerExtractor.mkDocument unit [] EmptyString EmptyString.

(** Raw grids.  [rawCell x0 x1 y0 y1] is the cell between the vertical
    lines [x0], [x1] and the horizontal lines [y0], [y1]. *)
Definition sampleTolerance : Q := 1 # 2.

Definition rawCell (x0 x1 y0 y1 : Q) : TableReconstruction.RawCell :=
  TableReconstruction.mkRawCell
    (TableReconstruction.mkBox x0 y0 (x1 - x0) (y1 - y0)) EmptyString.

(** Three rows of six cells. *)
Definition plainGrid : TableReconstruction.RawTableGrid :=
  TableReconstruction.regularGrid (fun _ _ => EmptyString) 0
    [10; 10; 10; 10; 10; 10]%Q 0 [5; 5; 5]%Q.

(** Six columns; the third row is one cell over the whole width. *)
Definition mergedGrid : TableReconstruction.RawTableGrid :=
  [[rawCell 0 40 0 5; rawCell 40 50 0 5; rawCell 50 60 0 5];
   [rawCell 0 10 5 10; rawCell 10 40 5 10; rawCell 40 60 5 10];
   [rawCell 0 60 10 15];
   [rawCell 0 10 15 20; rawCell 10 20 15 20; rawCell 20 30 15 20;
    rawCell 30 40 15 20; rawCell 40 50 15 20; rawCell 50 60 15 20]]%Q.

(** Six columns with merges as in the unit tests of the reconstruction:
    one merge in the first row; two merges in a row; two merges side by
    side. *)
Definition sixCells (y0 y1 : Q) : list TableReconstruction.RawCell :=
  [rawCell 0 10 y0 y1; rawCell 10 20 y0 y1; rawCell 20 30 y0 y1;
   rawCell 30 40 y0 y1; rawCell 40 50 y0 y1; rawCell 50 60 y0 y1]%Q.

Definition oneMergeGrid : TableReconstruction.RawTableGrid :=
  [[rawCell 0 20 0 5; rawCell 20 30 0 5; rawCell 30 40 0 5; rawCell 40 50 0 5;
    rawCell 50 60 0 5];
   sixCells 5 10;
   sixCells 10 15]%Q.

Definition twoMergesGrid : TableReconstruction.RawTableGrid :=
  [[rawCell 0 20 0 5; rawCell 20 30 0 5; rawCell 30 40 0 5; rawCell 40 60 0 5];
   [rawCell 0 10 5 10; rawCell 10 30 5 10; rawCell 30 50 5 10; rawCell 50 60 5 10];
   sixCells 10 15]%Q.

Definition adjacentMergesGrid : TableReconstruction.RawTableGrid :=
  [[rawCell 0 20 0 5; rawCell 20 40 0 5; rawCell 40 50 0 5; rawCell 50 60 0 5];
   sixCells 5 10;
   [rawCell 0 10 10 15; rawCell 10 30 10 15; rawCell 30 50 10 15; rawCell 50 60 10 15]]%Q.

(** Six columns as in the test of the detection: the first cell of the first
    row covers two rows, its last cell two columns. *)
Definition detectionGrid : TableReconstruction.RawTableGrid :=
  [[rawCell 0 10 0 10; rawCell 10 20 0 5; rawCell 20 30 0 5; rawCell 30 40 0 5;
    rawCell 40 60 0 5];
   [rawCell 0 10 0 10; rawCell 10 20 5 10; rawCell 20 30 5 10; rawCell 30 40 5 10;
    rawCell 40 50 5 10; rawCell 50 60 5 10];
   sixCells 10 15]%Q.

(** The colspans, row by row, of the table reconstructed from a grid. *)
Definition colspansOf (grid : TableReconstruction.RawTableGrid)
    : option (list (list nat)) :=
  option_map
    (fun t => map (fun r => map TableReconstruction.colspan (TableReconstruction.cells r))
                (TableReconstruction.rows t))
    (TableReconstruction.reconstruct sampleTolerance grid).

(** Three columns; the first cell covers two rows and is repeated by the
    extractor in the second row. *)
Definition tallCellGrid : TableReconstruction.RawTableGrid :=
  [[rawCell 0 10 0 10; rawCell 10 20 0 5; rawCell 20 30 0 5];
   [rawCell 0 10 0 10; rawCell 10 20 5 10; rawCell 20 30 5 10];
   [rawCell 0 10 10 15; rawCell 10 20 10 15; rawCell 20 30 10 15]]%Q.

(** Three columns; the second row holds a single narrow cell. *)
Definition narrowRowGrid : TableReconstruction.RawTableGrid :=
  [[rawCell 0 10 0 5; rawCell 10 20 0 5; rawCell 20 30 0 5];
   [rawCell 0 10 5 10]]%Q.





Definition samplePageWithText : TableReconstruction.Page :=
  TableReconstruction.mkPage
    [TableReconstruction.TextElement (TableReconstruction.mkBox 5 5 20 10) "Total";
     TableReconstruction.ImageElement (TableReconstruction.mkBox 0 100 50 50)]%Q
    (TableReconstruction.mkBox 0 0 595 842)%Q 1%Z.

(** A document of two pages and an extractor that finds nothing on the
    first page and one table of two rows and two columns on the second. *)
Definition secondPage : TableReconstruction.Page :=
  TableReconstruction.mkPage [] (TableReconstruction.mkBox 0 0 595 842)%Q 2%Z.

Definition sampleDocument : TableReconstruction.Document :=
  TableReconstruction.mkDocument [samplePageWithText; secondPage].

Definition cellRecord (x0 y0 x1 y1 : Q) : TableReconstruction.Json :=
  TableReconstruction.JObject
    [("bbox", TableReconstruction.JArray
                [TableReconstruction.JNumber x0; TableReconstruction.JNumber y0;
                 TableReconstruction.JNumber x1; TableReconstruction.JNumber y1]);
     ("text", TableReconstruction.JString "x")].

Definition oneTablePayload : TableReconstruction.Json :=
  TableReconstruction.JArray
    [TableReconstruction.JArray
       [TableReconstruction.JArray [cellRecord 0 0 10 5; cellRecord 10 0 20 5];
        TableReconstruction.JArray [cellRecord 0 5 10 10; cellRecord 10 5 20 10]]]%Q.

Definition sampleExtractor : TableReconstruction.Extractor :=
  fun page =>
    if (TableReconstruction.pageNumber page =? 1)%Z
    then TableReconstruction.Output "[]"
    else TableReconstruction.Output "one table".

(** A stand-in for [JSON.parse] that knows the two payloads of
    [sampleExtractor]. *)
Definition sampleParseJson (payload : string) : option TableReconstruction.Json :=
  if String.eqb payload "[]" then Some (TableReconstruction.JArray [])
  else if String.eqb payload "one table" then Some oneTablePayload
  else None.

(** An extractor whose coordinates are those of the core. *)
Definition asGiven (page : TableReconstruction.Page)
    (b : TableReconstruction.BoundingBox) : TableReconstruction.BoundingBox := b.

End Samples.


(** * More of the pdfminer input stage *)

From Stdlib Require Import Qround.

(** ** Lines and words *)

Module PdfminerLines.
Import Pdfminer.

(** The pieces of an array between its [undefined] entries, and the pieces
    that are not empty: the maximal runs of defined entries. *)
Fixpoint pieces {A} (l : list (option A)) : list (list A) :=
  match l with
  | [] => [[]]
  | None :: r => [] :: pieces r
  | Some a :: r =>
      match pieces r with
      | p :: ps => (a :: p) :: ps
      | [] => [[a]]
      end
  end.

Definition nonEmpty {A} (l : list A) : bool := negb (length l =? 0).

Definition runs {A} (l : list (option A)) : list (list A) :=
  filter nonEmpty (pieces l).

(** The indexes of the [undefined] entries of an array whose first index is
    [i]: [l.map((c, i) => c === undefined ? i : undefined)] without the
    [undefined] results. *)
Definition undefinedAt {A} (i : nat) (l : list (option A)) : list nat :=
  defined (mapi (fun c i => if isNone c then Some i else None) i l).

(** The slices that [breakLineIntoWords] takes: from [start] to the first
    separator position, then between consecutive separator positions, then
    to the end. *)
Fixpoint segmentsFrom {A} (chars : list (option A)) (start : nat) (locs : list nat)
    : list (list A) :=
  match locs with
  | [] => [defined (slice start (length chars) chars)]
  | loc :: rest => defined (slice start loc chars) :: segmentsFrom chars (loc + 1) rest
  end.

Definition segmentsAfter {A} (chars : list (option A)) (locs : list nat)
    : list (list A) :=
  match locs with
  | [] => []
  | loc :: rest => segmentsFrom chars (loc + 1) rest
  end.

(** The records that the [filter] of [breakLineIntoWords] keeps. *)
Definition keptTexts (texts : list PdfminerText) : list PdfminerText :=
  filter (fun char => negb (notAllowed char)
                      && negb (isFakeChar char (thereAreFakeSpaces texts))) texts.

(** The two [splice] calls of [breakLineIntoWords]: a first and a last
    entry that is [undefined] or the separator is removed. *)
Definition trimSeparators (wordSeparator : string) (chars0 : list (option Character))
    : list (option Character) :=
  let chars1 :=
    if isBoundarySeparator wordSeparator (nth_error chars0 0)
    then skipn 1 chars0 else chars0 in
  if isBoundarySeparator wordSeparator (nth_error chars1 (length chars1 - 1))
  then removelast chars1 else chars1.

(** The second half of [breakLineIntoWords]: the characters, built and
    freed of a separator at either end, are cut into words. *)
Definition wordsOfCharacters (isEqual : Font -> Font -> bool) (undefinedFont : Font)
    (chars : list (option Character)) : result (list Word) :=
  let words : list Word := [] in
  if (length chars =? 0)%nat
     || ((length chars =? 1)%nat && isNone (nth 0 chars None))
  then Ok words
  else
    let sepLocs :=
      filter (fun l => negb (l =? length chars)%nat)
        (filter (fun l => negb (l =? 0)%nat)
           (defined (mapi (fun c i => if isNone c then Some i else None) 0 chars))) in
    match sepLocs with
    | [] =>
        let charSelection := defined chars in
        do w <- newWord isEqual undefinedFont charSelection;
        Ok (words ++ [w])
    | loc0 :: _ =>
        let charSelection := defined (slice 0 loc0 chars) in
        do words' <-
          (if (0 <? length charSelection)%nat
           then do w <- newWord isEqual undefinedFont charSelection; Ok (words ++ [w])
           else Ok words);
        wordsBetween isEqual undefinedFont chars sepLocs words'
    end.

(** [w] is the word that [breakLineIntoWords] builds from the characters
    [cs]: their merged box and their most common font. *)
Definition isWordOf (isEqual : Font -> Font -> bool) (undefinedFont : Font)
    (w : Word) (cs : list Character) : Prop :=
  characters w = cs
  /\ merge (map box cs) = Ok (wordBox w)
  /\ wordFont w = getMostCommonFont isEqual undefinedFont (map font cs).

(** A record whose text is given but whose attributes are missing: it has
    no attribute at all, or it has no [ncolour], or no [bbox]. *)
Definition lacksAttributes (t : PdfminerText) : bool :=
  negb (isNone (text t))
  && match attr t with
     | None => true
     | Some a => isNone (attrNcolour a) || isNone (attrBbox a)
     end.

(** A record with neither text nor attributes. *)
Definition blank (t : PdfminerText) : bool := isNone (text t) && isNone (attr t).

(** A line with a record that has text other than a zero width space but
    lacks attributes. *)
Definition unreadableLine (texts : list PdfminerText) : Prop :=
  exists char, In char texts /\ notAllowed char = false /\ lacksAttributes char = true.

(** Position [i] of a line holds a record with neither text nor attributes,
    and the next position a record with attributes but no text. *)
Definition fakeSpaceAt (texts : list PdfminerText) (i : nat) : Prop :=
  exists a b,
    nth_error texts i = Some a /\ nth_error texts (i + 1) = Some b
    /\ text a = None /\ attr a = None
    /\ text b = None /\ attr b <> None.

End PdfminerLines.

(** ** Fonts *)

Module PdfminerFonts.
Import Pdfminer.

(** The number of fonts of [fonts] that [g] equals. *)
Definition classSize (isEqual : Font -> Font -> bool) (g : Font) (fonts : list Font) : nat :=
  length (filter (isEqual g) fonts).

(** The baskets stand in the order in which their first fonts come in
    [seen]: every font before the first font of a basket equals the first
    font of an earlier basket. *)
Definition inOrderOfArrival (isEqual : Font -> Font -> bool) (seen : list Font)
    (baskets : list (list Font)) : Prop :=
  forall i b,
    nth_error baskets i = Some b ->
    exists pre h post,
      hd_error b = Some h /\ seen = pre ++ h :: post
      /\ forall g, In g pre -> existsb (headEquals isEqual g) (firstn i baskets) = true.

(** No basket is empty, and the baskets hold fonts of [seen] only. *)
Definition basketsWithin (seen : list Font) (baskets : list (list Font)) : Prop :=
  Forall (fun basket => basket <> [] /\ incl basket seen) baskets
  /\ (seen <> [] -> baskets <> []).

End PdfminerFonts.

(** ** The batches of [extractFile] *)

Module PdfminerBatches.
Import PdfminerExtractor.

(** The page numbers that [pagesToExtract] joins with commas. *)
Definition pagesOfBatch (pageIndex maxPages : Z) (totalPages : option Z) : list Z :=
  let fromPage := ((pageIndex - 1) * maxPages)%Z in
  filter (fun el => leTotal el totalPages)
    (map (fun el => (el + fromPage + 1)%Z)
       (map Z.of_nat (seq 0 (Z.to_nat maxPages)))).

(** [totalPages != null && totalPages > toPage + 1]: another batch follows
    batch [pageIndex]. *)
Definition moreBatches (pageIndex maxPages : Z) (totalPages : option Z) : bool :=
  match totalPages with
  | Some t => (t >? pageIndex * maxPages - 1 + 1)%Z
  | None => false
  end.

Section Batches.

Variable Element : Type.
Variable Json : Type.
Variable extractPages : string -> option string -> result string.
Variable xmlParser : string -> result Json.
Variable jsParser : Json -> result (Document Element).

(** The chain of promises of one call of [extractFile], up to the parsed
    document of the batch. *)
Definition parseBatch (file : string) (pageIndex maxPages : Z) (totalPages : option Z)
    : result (Document Element) :=
  do xmlOutputFile <-
    extractPages file
      (match totalPages with
       | Some _ => Some (pagesToExtract pageIndex maxPages totalPages)
       | None => None
       end);
  do json <- xmlParser xmlOutputFile;
  jsParser json.

(** [document] with the pages [ps], numbered anew. *)
Definition withPages (document : Document Element) (ps : list (Page Element))
    : Document Element :=
  mkDocument Element (renumber Element ps)
    (inputFile Element document) (assetsFolder Element document).

(** The batches from [pageIndex] on are parsed into [docs]. *)
Definition batchesParsed (file : string) (pageIndex maxPages : Z) (totalPages : option Z)
    (docs : list (Document Element)) : Prop :=
  forall k d,
    nth_error docs k = Some d ->
    parseBatch file (pageIndex + Z.of_nat k) maxPages totalPages = Ok d.

(** Another batch follows each of the first [n] batches from [pageIndex] on. *)
Definition batchesFollow (pageIndex maxPages : Z) (totalPages : option Z) (n : nat) : Prop :=
  forall k, k < n -> moreBatches (pageIndex + Z.of_nat k) maxPages totalPages = true.

End Batches.

End PdfminerBatches.

(** ** Pages: [getPage] and [interpretImages] *)

(** A [forEach] whose body may throw: the rounds are run in order on the
    value built so far, up to the first that throws. *)
Fixpoint foldM {A B} (f : B -> A -> result B) (l : list A) (acc : B) : result B :=
  match l with
  | [] => Ok acc
  | a :: r => do acc' <- f acc a; foldM f r acc'
  end.

Module PdfminerPages.
Import Pdfminer PdfminerLines.

(** The objects that [xml2js] makes of pdfminer's XML, with the properties
    that [getPage] and [interpretImages] read; a property that the XML does
    not give is [undefined].  An [<image>] tag is only counted. *)
Inductive PdfminerImage := pdfminerImage.

Record FigureAttr := mkFigureAttr {
  figureName : option string;     (* [_attr.name] *)
  figureBbox : option string      (* [_attr.bbox] *)
}.

Record PdfminerFigure := mkFigure {
  figureAttr : option FigureAttr; (* [_attr] *)
  image : option (list PdfminerImage);
  figureText : option (list PdfminerText)
}.

Record PdfminerTextline := mkTextline {
  lineText : option (list PdfminerText)
}.

Record PdfminerTextbox := mkTextbox {
  textline : option (list PdfminerTextline)
}.

Record PageAttr := mkPageAttr {
  pageBbox : option string;       (* [_attr.bbox] *)
  pageId : option string          (* [_attr.id] *)
}.

Record PdfminerPage := mkPdfminerPage {
  pageAttr : option PageAttr;     (* [_attr] *)
  textbox : option (list PdfminerTextbox);
  figure : option (list PdfminerFigure)
}.

(** A property is read, or a method called, on [v]: a [TypeError] when [v]
    is [undefined]. *)
Definition read {A} (v : option A) : result A :=
  match v with
  | Some a => Ok a
  | None => Throw TypeError
  end.

(** What [interpretImages] reads of the table of [getImgsAndRefs]: how
    [mode] compares with 0 and 1, and the property of a given name as a
    property key ([None] is [undefined]). *)
Inductive Mode := Mode0 | Mode1 | ModeOther.

Record RefTable := mkRefTable {
  mode : Mode;
  ref : string -> option string
}.

(** [new Image(box, src)]; [src] is [undefined] when the map of file names
    has no entry. *)
Record Image := mkImage {
  imageBox : BoundingBox;
  src : option string
}.

Inductive Element :=
| WordElement (w : Word)
| ImageElement (i : Image).

Record Page := mkPage {
  pageNumber : number;
  elements : list Element;
  pageBox : BoundingBox
}.

Definition isDigit (c : ascii) : bool := negb (isNone (digit_of c)).

Fixpoint takeDigits (s : string) : string :=
  match s with
  | EmptyString => EmptyString
  | String c r => if isDigit c then String c (takeDigits r) else EmptyString
  end.

(** [s.match] of one or more digits: the first run of digits of [s], [None]
    for [null]. *)
Fixpoint firstDigits (s : string) : option string :=
  match s with
  | EmptyString => None
  | String c r => if isDigit c then Some (String c (takeDigits r)) else firstDigits r
  end.

(** The property key that a value read from the table becomes. *)
Definition propertyKey (v : option string) : string :=
  match v with
  | Some k => k
  | None => "undefined"
  end.

Definition isMode0 (m : Mode) : bool := match m with Mode0 => true | _ => false end.
Definition isMode1 (m : Mode) : bool := match m with Mode1 => true | _ => false end.

Definition interpretImages (fig : PdfminerFigure) (imgsRefTable : RefTable)
    (idFilenameMap : string -> option string) (pageHeight scalingFactor : number)
    : result (list Image) :=
  do attr <- read (figureAttr fig);
  let figureName :=
    match figureName attr with
    | Some n => n
    | None => EmptyString
    end in
  do figureFilename <-
    (if negb (String.eqb figureName EmptyString) && negb (isMode0 (mode imgsRefTable))
     then
       do imgFilenameRef <-
         (if isMode1 (mode imgsRefTable)
          then match firstDigits figureName with
               | Some digits => Ok (Some digits)
               | None => Throw TypeError
               end
          else Ok (ref imgsRefTable figureName));
       Ok (idFilenameMap (propertyKey imgFilenameRef))
     else Ok (Some EmptyString));
  do imgs <- read (image fig);
  mapM (fun _img =>
          do bbox <- read (figureBbox attr);
          Ok (mkImage (getBoundingBox bbox "," pageHeight scalingFactor)
                figureFilename)) imgs.

Section Pages.

Variable isEqual : Font -> Font -> bool.
Variable undefinedFont : Font.
Variable ncolourToHex : string -> string.

Definition getPage (pageObj : PdfminerPage) (imgsRefTable : RefTable)
    (imgsIdFilenameMap : string -> option string) : result Page :=
  do attr <- read (pageAttr pageObj);
  do bbox <- read (pageBbox attr);
  let boxValues := map parseFloat (split "," bbox) in
  let pageBBox :=
    mkBoundingBox (at_index boxValues 0) (at_index boxValues 1)
      (at_index boxValues 2) (at_index boxValues 3) in
  let elements : list Element := [] in
  do elements <-
    match textbox pageObj with
    | Some boxes =>
        foldM (fun elements para =>
                 do lines <- read (textline para);
                 foldM (fun elements line =>
                          do texts <- read (lineText line);
                          do words <-
                            breakLineIntoWords isEqual undefinedFont ncolourToHex
                              texts "," (height pageBBox) (Some 1%Q);
                          Ok (elements ++ map WordElement words))
                   lines elements)
          boxes elements
    | None => Ok elements
    end;
  do elements <-
    match figure pageObj with
    | Some figs =>
        foldM (fun elements fig =>
                 do elements <-
                   match image fig with
                   | Some _ =>
                       do images <-
                         interpretImages fig imgsRefTable imgsIdFilenameMap
                           (height pageBBox) (Some 1%Q);
                       Ok (elements ++ map ImageElement images)
                   | None => Ok elements
                   end;
                 match figureText fig with
                 | Some texts =>
                     do words <-
                       breakLineIntoWords isEqual undefinedFont ncolourToHex
                         texts "," (height pageBBox) (Some 1%Q);
                     Ok (elements ++ map WordElement words)
                 | None => Ok elements
                 end)
          figs elements
    | None => Ok elements
    end;
  Ok (mkPage (parseFloatOf (pageId attr)) elements pageBBox).

End Pages.

(** *** Predicates used in the statements *)

Definition textboxesOf (pageObj : PdfminerPage) : list PdfminerTextbox :=
  match textbox pageObj with
  | Some boxes => boxes
  | None => []
  end.

Definition figuresOf (pageObj : PdfminerPage) : list PdfminerFigure :=
  match figure pageObj with
  | Some figs => figs
  | None => []
  end.

Definition textlinesOf (para : PdfminerTextbox) : list PdfminerTextline :=
  match textline para with
  | Some ls => ls
  | None => []
  end.

(** The page has no attributes, or no [bbox] among them. *)
Definition lacksBox (pageObj : PdfminerPage) : Prop :=
  match pageAttr pageObj with
  | Some a => pageBbox a = None
  | None => True
  end.

(** A line of text without [text] records, or with records that make it
    unreadable. *)
Definition brokenLine (line : PdfminerTextline) : Prop :=
  match lineText line with
  | Some texts => unreadableLine texts
  | None => True
  end.

(** A text box without lines, or with a broken line. *)
Definition brokenTextbox (para : PdfminerTextbox) : Prop :=
  textline para = None
  \/ exists line, In line (textlinesOf para) /\ brokenLine line.

(** A figure with images whose file is looked up by the digits of its name,
    of which the name has none. *)
Definition unnamedFigure (imgsRefTable : RefTable) (fig : PdfminerFigure) : Prop :=
  image fig <> None
  /\ mode imgsRefTable = Mode1
  /\ exists a n, figureAttr fig = Some a /\ figureName a = Some n
                 /\ n <> EmptyString /\ firstDigits n = None.

(** A figure with images but without attributes, or with at least one
    image but without a [bbox] for it. *)
Definition unplacedFigure (fig : PdfminerFigure) : Prop :=
  exists imgs,
    image fig = Some imgs
    /\ match figureAttr fig with
       | Some a => imgs <> [] /\ figureBbox a = None
       | None => True
       end.

(** A figure whose images or whose text [getPage] cannot read. *)
Definition brokenFigure (imgsRefTable : RefTable) (fig : PdfminerFigure) : Prop :=
  unnamedFigure imgsRefTable fig
  \/ unplacedFigure fig
  \/ exists texts, figureText fig = Some texts /\ unreadableLine texts.

End PdfminerPages.

(** ** The font files that [extractImagesAndFonts] renames *)

Module FontFiles.
Import ExtractImagesFonts.

Fixpoint allUpper (s : string) : bool :=
  match s with
  | EmptyString => true
  | String c r => isUpper c && allUpper r
  end.

Fixpoint allDigits (s : string) : bool :=
  match s with
  | EmptyString => true
  | String c r => negb (isNone (digit_of c)) && allDigits r
  end.

(** [file] is six capitals, a plus sign, [name], a dash, one digit or more
    and the extension [.ttf]; [name] has no line break in it. *)
Definition ttfName (file name : string) : Prop :=
  exists capitals digits,
    file = (capitals ++ "+" ++ name ++ "-" ++ digits ++ ".ttf")%string
    /\ String.length capitals = 6
    /\ allUpper capitals = true
    /\ digits <> EmptyString
    /\ allDigits digits = true
    /\ hasLineBreak name = false.

End FontFiles.

(** ** The files of the images: [getImgsIdFilenameMap] *)

Module ImageFiles.
Import PdfminerPages.

(** The group that the pattern of the extension captures, [None] for
    [undefined]: what follows the last dot of the name, when there is a dot
    and something follows it. *)
Definition extensionOf (fileName : string) : option string :=
  match rev (split "." fileName) with
  | ext :: _ :: _ => if String.eqb ext EmptyString then None else Some ext
  | _ => None
  end.

(** [map[id] = path] *)
Definition assign (id path : string) (map : string -> option string)
    : string -> option string :=
  fun key => if String.eqb key id then Some path else map key.

Section Map.

(** [Number.prototype.toString] and [path.join] are taken as given. *)
Variable numberToString : number -> string.
Variable join : string -> string -> string.

(** The [filter] of [getImgsIdFilenameMap]. *)
Definition includesExtension (imgFileExtensions : list string) (fileName : string) : bool :=
  match extensionOf fileName with
  | Some ext => existsb (String.eqb ext) imgFileExtensions
  | None => false
  end.

(** [parseFloat(fileName.match(digits)[0]).toString()] *)
Definition idOf (fileName : string) : result string :=
  match firstDigits fileName with
  | Some digits => Ok (numberToString (parseFloat digits))
  | None => Throw TypeError
  end.

(** [files] is what [fs.readdirSync(imgsPhysicalLocation)] returns; only the
    properties that the function sets on the map are modelled. *)
Definition getImgsIdFilenameMap (files : list string) (imgsPhysicalLocation : string)
    (imgFileExtensions : list string) : result (string -> option string) :=
  let idFilenameMap : string -> option string := fun _ => None in
  let imgFiles := filter (includesExtension imgFileExtensions) files in
  foldM (fun idFilenameMap fileName =>
           do id <- idOf fileName;
           let absFilePath := join imgsPhysicalLocation fileName in
           Ok (assign id absFilePath idFilenameMap))
    imgFiles idFilenameMap.

End Map.

Fixpoint hasDot (s : string) : bool :=
  match s with
  | EmptyString => false
  | String c r => Ascii.eqb c "." || hasDot r
  end.

(** [fileName] ends with a dot and [ext], which is not empty and has no dot
    in it. *)
Definition hasExtension (fileName ext : string) : Prop :=
  exists base,
    fileName = (base ++ "." ++ ext)%string
    /\ ext <> EmptyString /\ hasDot ext = false.

End ImageFiles.

(** ** Colours: [ncolourToHex] and the [rgbToHex] of both extractors *)

Module Colours.

(** The digit of [d] in base 16, for [d] from 0 to 15. *)
Definition hexDigit (d : Z) : ascii :=
  ascii_of_nat (Z.to_nat (if (d <? 10)%Z then 48 + d else 87 + d)%Z).

Fixpoint toHex (fuel : nat) (n : Z) (acc : string) : string :=
  match fuel with
  | O => acc
  | S fuel' =>
      let acc' := String (hexDigit (n mod 16)) acc in
      if (n / 16 =? 0)%Z then acc' else toHex fuel' (n / 16)%Z acc'
  end.

(** [x.toString(16)] for [x] an integer or [NaN]: the digits of [x] in
    base 16, after a minus sign for a negative [x]. *)
Definition toString16 (x : option Z) : string :=
  match x with
  | None => "NaN"
  | Some n =>
      if (n <? 0)%Z
      then String "-" (toHex (S (Z.to_nat (Z.log2 (- n)))) (- n) EmptyString)
      else toHex (S (Z.to_nat (Z.log2 n))) n EmptyString
  end.

(** [hex.length === 1 ? '0' + hex : hex] *)
Definition padded (hex : string) : string :=
  if String.length hex =? 1 then String "0" hex else hex.

(** [Math.ceil] *)
Definition ceil (x : number) : option Z := option_map Qceiling x.

(** [s.replace(c, '')] for a one-character [c]: its first occurrence is
    taken out. *)
Fixpoint removeFirst (c : ascii) (s : string) : string :=
  match s with
  | EmptyString => EmptyString
  | String a r => if Ascii.eqb a c then r else String a (removeFirst c r)
  end.

(** [a || b] for [a] a string or [undefined]: the empty string and
    [undefined] give way to [b]. *)
Definition orElse (a b : option string) : option string :=
  match a with
  | Some s => if String.eqb s EmptyString then b else a
  | None => b
  end.

Section Pdfminer.

(** The conversion of a string to a number that [x * 255] makes is taken as
    given. *)
Variable toNumber : string -> number.

(** [x * 255], for [x] a string or [undefined]. *)
Definition times255 (x : option string) : number :=
  nmul (match x with Some s => toNumber s | None => None end) (Some 255%Q).

Definition rgbToHex (r g b : option string) : string :=
  String "#"
    (String.concat EmptyString
       (map (fun x => let hex := toString16 (ceil (times255 x)) in padded hex)
          [r; g; b])).

Definition ncolourToHex (color : string) : string :=
  let rgbColor := split "," (removeFirst "]" (removeFirst "[" color)) in
  rgbToHex (nth_error rgbColor 0)
    (orElse (nth_error rgbColor 1) (nth_error rgbColor 0))
    (orElse (nth_error rgbColor 2) (nth_error rgbColor 0)).

(** The three numbers that [ncolourToHex] makes a colour of. *)
Definition components (color : string) : list number :=
  let rgbColor := split "," (removeFirst "]" (removeFirst "[" color)) in
  map (fun x => match x with Some s => toNumber s | None => None end)
    [nth_error rgbColor 0;
     orElse (nth_error rgbColor 1) (nth_error rgbColor 0);
     orElse (nth_error rgbColor 2) (nth_error rgbColor 0)].

End Pdfminer.

(** Reading a colour back: [#] and six digits in base 16 give the three
    bytes. *)
Definition hexValue (c : ascii) : option Z :=
  let n := Z.of_nat (nat_of_ascii c) in
  if ((48 <=? n) && (n <=? 57))%Z then Some (n - 48)%Z
  else if ((97 <=? n) && (n <=? 102))%Z then Some (n - 87)%Z
  else None.

Definition byteOf (a b : ascii) : option Z :=
  match hexValue a, hexValue b with
  | Some x, Some y => Some (16 * x + y)%Z
  | _, _ => None
  end.

Definition readColour (s : string) : option (Z * Z * Z) :=
  match s with
  | String hash (String a (String b (String c (String d (String e (String f EmptyString)))))) =>
      if Ascii.eqb hash "#"
      then match byteOf a b, byteOf c d, byteOf e f with
           | Some r, Some g, Some b' => Some (r, g, b')
           | _, _, _ => None
           end
      else None
  | _ => None
  end.

End Colours.

(** The [rgbToHex] of the pdf.js extractor, for components that are
    integers or [NaN]. *)
Module Pdfjs.
Import Colours.

Definition rgbToHex (r g b : option Z) : string :=
  String "#"
    (String.concat EmptyString
       (map (fun x => let hex := toString16 x in padded hex) [r; g; b])).

End Pdfjs.

(** ** More sample inputs *)

Module MoreSamples.
Import Samples.

(** Two names, each used twice. *)
Definition tiedFonts : list Pdfminer.Font :=
  [namedFont "Arial"; namedFont "Times"; namedFont "Times"; namedFont "Arial"].

(** Fonts of which none equals any font, itself included. *)
Definition neverEqual (f g : Pdfminer.Font) : bool := false.

(** What the stand-in for pdfminer of [Samples] makes of a batch of [n]
    pages. *)
Definition sampleBatch (n : nat) : PdfminerExtractor.Document unit :=
  PdfminerExtractor.mkDocument unit (repeat samplePage n) EmptyString EmptyString.

(** A stand-in for pdfminer that fails on the pages 3 and 4. *)
Definition failingExtractPages (file : string) (pages : option string) : result string :=
  match pages with
  | Some p => if String.eqb p "3,4" then Throw (ToolError "pdf2txt") else Ok p
  | None => Ok "1"
  end.

(** A page with one line of text and one figure that holds one image. *)
Definition sampleRefTable : PdfminerPages.RefTable :=
  PdfminerPages.mkRefTable PdfminerPages.Mode1 (fun _ => None).

Definition sampleIdFilenameMap (id : string) : option string :=
  if String.eqb id "12" then Some "/tmp/img-012.png" else None.

Definition samplePdfminerPage : PdfminerPages.PdfminerPage :=
  PdfminerPages.mkPdfminerPage
    (Some (PdfminerPages.mkPageAttr (Some "0,0,595,842") (Some "1")))
    (Some [PdfminerPages.mkTextbox (Some [PdfminerPages.mkTextline (Some sampleLine)])])
    (Some [PdfminerPages.mkFigure
             (Some (PdfminerPages.mkFigureAttr (Some "Im12") (Some "10,20,110,70")))
             (Some [PdfminerPages.pdfminerImage]) None]).

(** Stand-ins for [Number.prototype.toString] (whole numbers only) and
    [path.join], and a folder of images. *)
Definition sampleNumberToString (n : number) : string :=
  match n with
  | Some q => NilZero.string_of_int (Z.to_int (Qnum q / Zpos (Qden q)))
  | None => "NaN"
  end.

Definition sampleJoin (folder file : string) : string := (folder ++ "/" ++ file)%string.

Definition sampleImageFolder : list string :=
  ["img-12.jpg"; "img-012.png"; "notes.txt"; "p3.bmp"].

(** The character made of a record with the text [c] and the attributes
    [sampleAttr], on a page 842 high. *)
Definition sampleCharacter (c : string) : Pdfminer.Character :=
  Pdfminer.mkCharacter
    (Pdfminer.getBoundingBox "1,2,3,4" "," (Some 842%Q) (Some 1%Q)) c
    (Pdfminer.mkFont (Some "Arial-BoldItalic") (Some 12.0%Q) "bold" true false "[0]").

(** A line that ends with a comma. *)
Definition commaLine : list Pdfminer.PdfminerText :=
  [Pdfminer.mkText (Some "a") (Some sampleAttr);
   Pdfminer.mkText (Some "b") (Some sampleAttr);
   Pdfminer.mkText (Some ",") (Some sampleAttr)].

(** A line with a fake space between its two characters. *)
Definition fakeSpaceLine : list Pdfminer.PdfminerText :=
  [Pdfminer.mkText (Some "a") (Some sampleAttr);
   Pdfminer.mkText None None;
   Pdfminer.mkText None (Some sampleAttr);
   Pdfminer.mkText None None;
   Pdfminer.mkText (Some "b") (Some sampleAttr)].

(** A line whose second record has text and attributes, but no [ncolour]
    among them. *)
Definition colourlessLine : list Pdfminer.PdfminerText :=
  [Pdfminer.mkText (Some "a") (Some sampleAttr);
   Pdfminer.mkText (Some "b")
     (Some (Pdfminer.mkTextAttr (Some "Arial") (Some "1,2,3,4") (Some "12.0") None))].

(** A page whose only figure holds an image but has no [bbox]. *)
Definition unplacedFigurePage : PdfminerPages.PdfminerPage :=
  PdfminerPages.mkPdfminerPage
    (Some (PdfminerPages.mkPageAttr (Some "0,0,595,842") (Some "1")))
    None
    (Some [PdfminerPages.mkFigure
             (Some (PdfminerPages.mkFigureAttr (Some "Im12") None))
             (Some [PdfminerPages.pdfminerImage]) None]).

End MoreSamples.
(** * Properties *)

(** ** General facts on the list helpers *)

Lemma mapi_nth_error {A B} (f : A -> nat -> B) (l : list A) :
  forall i k, nth_error (mapi f i l) k = option_map (fun a => f a (i + k)) (nth_error l k).
Proof.
  induction l as [|a l IH]; intros i k.
  - destruct k; reflexivity.
  - destruct k; simpl.
    + now rewrite Nat.add_0_r.
    + rewrite IH. now rewrite Nat.add_succ_r.
Qed.

Lemma mapi_length {A B} (f : A -> nat -> B) (l : list A) :
  forall i, length (mapi f i l) = length l.
Proof.
  induction l as [|a l IH]; intros i; simpl; [reflexivity|now rewrite IH].
Qed.

(** ** The bounding box of a pdfminer record *)

Module GetBoundingBoxFacts.
Import Pdfminer.

(** C9. For a bbox string whose four first fields read as the numbers x0,
    y0, x1 and y1, a page height H and a scaling factor s, [getBoundingBox]
    has left = x0 s, width = |x1 s - x0 s|, height = |y0 s - y1 s| and
    top = |H - y0 s| - height: the box is measured from the top of the page,
    and its width and height are not negative. *)
Theorem getBoundingBox_converts (bbox : string) (splitter : ascii)
    (x0 y0 x1 y1 H s : Q) (rest : list number) :
  map parseFloat (split splitter bbox)
    = Some x0 :: Some y0 :: Some x1 :: Some y1 :: rest ->
  let b := getBoundingBox bbox splitter (Some H) (Some s) in
  left b = Some (x0 * s)%Q
  /\ width b = Some (Qabs (x1 * s - x0 * s))
  /\ height b = Some (Qabs (y0 * s - y1 * s))
  /\ top b = Some (Qabs (H - y0 * s) - Qabs (y0 * s - y1 * s))%Q
  /\ (0 <= Qabs (x1 * s - x0 * s))%Q
  /\ (0 <= Qabs (y0 * s - y1 * s))%Q.
Proof.
  intros Hparse b. subst b. unfold getBoundingBox.
  rewrite <- (map_map parseFloat (fun n => nmul n (Some s))), Hparse.
  cbn [map at_index nth nmul nsub nabs lift2 option_map left width height top].
  repeat split; apply Qabs_nonneg.
Qed.

Lemma getBoundingBox_converts_witness :
  map parseFloat (split "," "72.000,244.190,373.280,506.640")
    = [Some 72.000%Q; Some 244.190%Q; Some 373.280%Q; Some 506.640%Q]
  /\ let b := getBoundingBox "72.000,244.190,373.280,506.640" "," (Some 800%Q) (Some 1%Q) in
     left b = Some (72.000 * 1)%Q
     /\ width b = Some (Qabs (373.280 * 1 - 72.000 * 1))
     /\ height b = Some (Qabs (244.190 * 1 - 506.640 * 1))
     /\ top b = Some (Qabs (800 - 244.190 * 1) - Qabs (244.190 * 1 - 506.640 * 1))%Q
     /\ (0 <= Qabs (373.280 * 1 - 72.000 * 1))%Q
     /\ (0 <= Qabs (244.190 * 1 - 506.640 * 1))%Q.
Proof.
  split; [reflexivity|].
  apply (getBoundingBox_converts "72.000,244.190,373.280,506.640" ","
           72.000 244.190 373.280 506.640 800 1 []).
  reflexivity.
Defined.

End GetBoundingBoxFacts.

(** ** Settling the promise of [extractImagesAndFonts] *)

Module ExtractImagesFontsFacts.
Import ExtractImagesFonts.
Import Samples.

(** C10. When mutool is not found the promise is fulfilled with the empty
    string; the promise is never left pending, and it is rejected exactly
    when mutool was found and the spawned [mutool extract] did not exit
    with status 0 (the later call of [resolve] is then ignored).  It is
    then rejected with the text of [stderr], or, when there is no [stderr]
    to read, with the [TypeError] of reading it. *)
Theorem extractImagesAndFonts_settles (sys : System) (pdfInputFile : string) :
  let p := fst (extractImagesAndFonts sys pdfInputFile) in
  let ret := spawnSync sys "mutool" ["extract"; pdfInputFile]
               (getMutoolExtractionFolder sys) in
  (notFound (getCommandLocationOnSystem sys "mutool") = true -> p = Fulfilled EmptyString)
  /\ p <> Pending
  /\ (forall reason, p = Rejected reason ->
        notFound (getCommandLocationOnSystem sys "mutool") = false
        /\ status ret <> Some 0%Z)
  /\ (notFound (getCommandLocationOnSystem sys "mutool") = false ->
      status ret <> Some 0%Z ->
      p = Rejected (match stderr ret with
                    | Some text => Message text
                    | None => Thrown TypeError
                    end)).
Proof.
  unfold extractImagesAndFonts, rejectOnFailure, failed.
  destruct (notFound (getCommandLocationOnSystem sys "mutool")) eqn:Hpath; cbn.
  - repeat split; try discriminate; intros; discriminate.
  - destruct (status (spawnSync sys "mutool" ["extract"; pdfInputFile]
                        (getMutoolExtractionFolder sys))) as [[|z|z]|] eqn:Hst;
      destruct (stderr (spawnSync sys "mutool" ["extract"; pdfInputFile]
                          (getMutoolExtractionFolder sys))) as [text|] eqn:Herr; cbn;
      repeat split; try discriminate; try congruence.
Qed.

Lemma extractImagesAndFonts_settles_witness :
  fst (extractImagesAndFonts noMutool "in.pdf") = Fulfilled EmptyString
  /\ fst (extractImagesAndFonts failingMutool "in.pdf")
     = Rejected (Message "cannot open document")
  /\ fst (extractImagesAndFonts brokenMutool "in.pdf") = Rejected (Thrown TypeError).
Proof.
  split; [|split].
  - apply (extractImagesAndFonts_settles noMutool "in.pdf"). reflexivity.
  - apply (extractImagesAndFonts_settles failingMutool "in.pdf").
    + reflexivity.
    + cbn. discriminate.
  - apply (extractImagesAndFonts_settles brokenMutool "in.pdf").
    + reflexivity.
    + cbn. discriminate.
Defined.

End ExtractImagesFontsFacts.

(** ** Page numbers after [extractFile] *)

Module ExtractFileFacts.
Import PdfminerExtractor.

Section Numbering.

Variables Element Json : Type.
Variable extractPages : string -> option string -> result string.
Variable xmlParser : string -> result Json.
Variable jsParser : Json -> result (Document Element).

Let extract := extractFile Element Json extractPages xmlParser jsParser.

Lemma renumber_numbers (ps : list (Page Element)) (k : nat) (page : Page Element) :
  nth_error (renumber Element ps) k = Some page ->
  pageNumber page = (Z.of_nat k + 1)%Z.
Proof.
  unfold renumber. rewrite mapi_nth_error.
  destruct (nth_error ps k); cbn; [|discriminate].
  intros [= <-]. reflexivity.
Qed.

Lemma extractFile_numbered (fuel : nat) :
  forall file pageIndex maxPages totalPages document doc,
    extract fuel file pageIndex maxPages totalPages document = Some (Ok doc) ->
    forall k page, nth_error (pages doc) k = Some page ->
                   pageNumber page = (Z.of_nat k + 1)%Z.
Proof.
  unfold extract.
  induction fuel as [|fuel IH]; intros file pageIndex maxPages totalPages document doc;
    [discriminate|].
  cbn [extractFile].
  destruct (do xmlOutputFile <- extractPages file _; _) as [batch|e]; [|discriminate].
  destruct (match totalPages with Some t => _ | None => false end).
  - apply IH.
  - intros [= <-] k page. cbn [pages]. apply renumber_numbers.
Qed.

(** Every batch moves [pageIndex * maxPages] up by [maxPages]: once it has
    reached [totalPages] the run ends. *)
Lemma extractFile_enough_fuel (maxPages t : Z) (n : nat) :
  (0 < maxPages)%Z ->
  forall file pageIndex document,
    (t - pageIndex * maxPages <= Z.of_nat n)%Z ->
    extract (S n) file pageIndex maxPages (Some t) document <> None.
Proof.
  intros Hmax. unfold extract.
  induction n as [|n IH]; intros file pageIndex document Hle; cbn [extractFile];
    destruct (do xmlOutputFile <- extractPages file _; _) as [batch|e];
    try discriminate.
  - destruct (t >? pageIndex * maxPages - 1 + 1)%Z eqn:Hgt; [|discriminate].
    apply Z.gtb_lt in Hgt. lia.
  - destruct (t >? pageIndex * maxPages - 1 + 1)%Z eqn:Hgt; [|discriminate].
    apply IH. lia.
Qed.

(** C7. With a positive batch size (500 in [run]) [extractFile] ends after
    finitely many batches, and in the document it resolves to, the k-th
    page in document order has [pageNumber] k (counting from 1). *)
Theorem extractFile_consecutive_page_numbers
    (file : string) (pageIndex maxPages : Z) (totalPages : option Z)
    (document : Document Element) :
  (0 < maxPages)%Z ->
  (exists fuel, extract fuel file pageIndex maxPages totalPages document <> None)
  /\ (forall fuel doc,
        extract fuel file pageIndex maxPages totalPages document = Some (Ok doc) ->
        forall k page, nth_error (pages doc) k = Some page ->
                       pageNumber page = (Z.of_nat k + 1)%Z).
Proof.
  intros Hmax. split.
  - destruct totalPages as [t|].
    + exists (S (Z.to_nat (t - pageIndex * maxPages))).
      apply extractFile_enough_fuel; [assumption|lia].
    + exists 1. unfold extract. cbn [extractFile].
      destruct (do xmlOutputFile <- extractPages file _; _); discriminate.
  - intros fuel doc. apply extractFile_numbered.
Qed.

End Numbering.

Import Samples.

Lemma extractFile_consecutive_page_numbers_witness :
  (0 < 2)%Z
  /\ exists doc,
       sampleExtractFile 3 "in.pdf" 1%Z 2%Z (Some 5%Z) emptyDocument = Some (Ok doc)
       /\ length (pages doc) = 5
       /\ forall k page, nth_error (pages doc) k = Some page ->
                         pageNumber page = (Z.of_nat k + 1)%Z.
Proof.
  split; [lia|].
  eexists. split; [reflexivity|]. split; [reflexivity|].
  apply (proj2 (extractFile_consecutive_page_numbers unit (list string)
                  sampleExtractPages sampleXmlParser sampleJsParser
                  "in.pdf" 1%Z 2%Z (Some 5%Z) emptyDocument ltac:(lia)) 3).
  reflexivity.
Defined.

End ExtractFileFacts.

(** ** Words are never empty *)

Module BreakLineFacts.
Import Pdfminer.

Section Words.

Variable isEqual : Font -> Font -> bool.
Variable undefinedFont : Font.
Variable ncolourToHex : string -> string.

Let newWord' := newWord isEqual undefinedFont.
Let wordsBetween' := wordsBetween isEqual undefinedFont.
Let breakLine := breakLineIntoWords isEqual undefinedFont ncolourToHex.

Lemma merge_nonempty (boxes : list BoundingBox) :
  boxes <> [] -> exists b, merge boxes = Ok b.
Proof.
  destruct boxes as [|b bs]; [congruence|]. intros _. cbn. eauto.
Qed.

Lemma merge_throws_only_on_nothing (boxes : list BoundingBox) (e : Error) :
  merge boxes = Throw e -> boxes = [].
Proof.
  destruct boxes; [reflexivity|discriminate].
Qed.

Lemma newWord_of_selection (charSelection : list Character) :
  charSelection <> [] ->
  exists w, newWord' charSelection = Ok w /\ characters w = charSelection.
Proof.
  intros Hne. unfold newWord', newWord.
  destruct (merge_nonempty (map box charSelection)) as [b ->].
  - destruct charSelection; [congruence|discriminate].
  - cbn. eauto.
Qed.

(** A push guarded by [charSelection.length > 0]. *)
Lemma guarded_push (charSelection : list Character) (words : list Word) :
  Forall nonEmptyWord words ->
  exists words',
    (if 0 <? length charSelection
     then do w <- newWord' charSelection; Ok (words ++ [w])
     else Ok words) = Ok words'
    /\ Forall nonEmptyWord words'.
Proof.
  intros Hwords. destruct charSelection as [|c cs]; cbn [length Nat.ltb Nat.leb].
  - eauto.
  - destruct (newWord_of_selection (c :: cs)) as (w & -> & Hw); [discriminate|].
    cbn. eexists; split; [reflexivity|].
    apply Forall_app; split; [assumption|].
    constructor; [|constructor]. unfold nonEmptyWord. rewrite Hw. discriminate.
Qed.

Lemma wordsBetween_ok (chars : list (option Character)) (locs : list nat) :
  forall words,
    Forall nonEmptyWord words ->
    exists words', wordsBetween' chars locs words = Ok words'
                   /\ Forall nonEmptyWord words'.
Proof.
  unfold wordsBetween'.
  induction locs as [|loc rest IH]; intros words Hwords; cbn [wordsBetween].
  - eauto.
  - match goal with
    | |- context [defined ?sel] =>
        destruct (guarded_push (defined sel) words Hwords) as (ws & Hpush & Hws)
    end.
    unfold newWord' in Hpush. rewrite Hpush. cbn [bind]. now apply IH.
Qed.

Lemma toCharacter_throws_TypeError (pageHeight scalingFactor : number)
    (t : PdfminerText) (e : Error) :
  toCharacter ncolourToHex pageHeight scalingFactor t = Throw e -> e = TypeError.
Proof.
  unfold toCharacter, called.
  destruct (text t); [|discriminate].
  destruct (attr t) as [a|]; [|now intros [= <-]].
  destruct (attrNcolour a); cbn [bind]; [|now intros [= <-]].
  destruct (attrBbox a); cbn [bind]; [discriminate|now intros [= <-]].
Qed.

Lemma toCharacter_error (pageHeight scalingFactor : number) (texts : list PdfminerText)
    (e : Error) :
  mapM (toCharacter ncolourToHex pageHeight scalingFactor) texts = Throw e ->
  e = TypeError.
Proof.
  induction texts as [|t texts IH]; cbn [mapM]; [discriminate|].
  destruct (toCharacter ncolourToHex pageHeight scalingFactor t) eqn:Ht; cbn [bind].
  - destruct (mapM _ texts); cbn; [discriminate|]. intros [= <-]. now apply IH.
  - intros [= <-]. now apply toCharacter_throws_TypeError in Ht.
Qed.

(** Without a separator after the first position, and unless the line is
    empty or a lone separator, some character is defined. *)
Lemma selection_without_separator (chars : list (option Character)) :
  (length chars =? 0) || ((length chars =? 1) && isNone (nth 0 chars None)) = false ->
  filter (fun l => negb (l =? length chars))
    (filter (fun l => negb (l =? 0))
       (defined (mapi (fun (c : option Character) i => if isNone c then Some i else None)
                   0 chars))) = [] ->
  defined chars <> [].
Proof.
  destruct chars as [|[c|] chars]; cbn; try discriminate.
  destruct chars as [|[c|] chars]; cbn; discriminate.
Qed.

(** C6. [breakLineIntoWords] never fails with the error of a merge of no
    box: every list it hands to [BoundingBox.merge] is non-empty, and every
    word of its result has at least one character. *)
Theorem breakLineIntoWords_merges_nonempty (texts : list PdfminerText)
    (wordSeparator : string) (pageHeight scalingFactor : number) :
  breakLine texts wordSeparator pageHeight scalingFactor <> Throw MergeOfEmptyList
  /\ (forall words,
        breakLine texts wordSeparator pageHeight scalingFactor = Ok words ->
        Forall nonEmptyWord words).
Proof.
  unfold breakLine, breakLineIntoWords.
  destruct (mapM _ _) as [chars0|e] eqn:Hchars; cbn [bind].
  2:{ apply toCharacter_error in Hchars. subst e. split; [discriminate|intros; discriminate]. }
  set (chars1 := if isBoundarySeparator wordSeparator (nth_error chars0 0)
                 then skipn 1 chars0 else chars0).
  set (chars := if isBoundarySeparator wordSeparator (nth_error chars1 (length chars1 - 1))
                then removelast chars1 else chars1).
  destruct ((length chars =? 0) || ((length chars =? 1) && isNone (nth 0 chars None)))
    eqn:Hshort.
  { split; [discriminate|]. intros words [= <-]. constructor. }
  destruct (filter _ (filter _ _)) as [|loc0 rest] eqn:Hlocs.
  - destruct (newWord_of_selection (defined chars)) as (w & Hw & Hcs).
    { now apply selection_without_separator. }
    unfold newWord' in Hw. rewrite Hw. cbn. split; [discriminate|].
    intros words [= <-]. constructor; [|constructor].
    unfold nonEmptyWord. rewrite Hcs. now apply selection_without_separator.
  - destruct (guarded_push (defined (slice 0 loc0 chars)) [] (Forall_nil _))
      as (ws & Hpush & Hws).
    unfold newWord' in Hpush. rewrite Hpush. cbn [bind].
    destruct (wordsBetween_ok chars (loc0 :: rest) ws Hws) as (ws' & Hrun & Hws').
    unfold wordsBetween' in Hrun. rewrite Hrun.
    split; [discriminate|]. intros words [= <-]. assumption.
Qed.

End Words.

Import Samples.

Lemma breakLineIntoWords_merges_nonempty_witness :
  exists words,
    breakLineIntoWords sameName (namedFont EmptyString) (fun s => s) sampleLine ","
      (Some 842%Q) (Some 1%Q) = Ok words
    /\ length words = 2
    /\ Forall nonEmptyWord words.
Proof.
  eexists. split; [reflexivity|]. split; [reflexivity|].
  apply (proj2 (breakLineIntoWords_merges_nonempty sameName (namedFont EmptyString)
                  (fun s => s) sampleLine "," (Some 842%Q) (Some 1%Q))).
  reflexivity.
Defined.

End BreakLineFacts.

(** ** The stable sort *)

Section SortFacts.

Context {A : Type} (cmp : A -> A -> Z).

Let before (x y : A) : Prop := (cmp x y <= 0)%Z.

Hypothesis before_total : forall x y, before x y \/ before y x.
Hypothesis before_trans : forall x y z, before x y -> before y z -> before x z.

Lemma insertSorted_In (x : A) (l : list A) (y : A) :
  In y (insertSorted cmp x l) <-> y = x \/ In y l.
Proof.
  induction l as [|z l IH]; cbn.
  - intuition.
  - destruct (cmp x z <=? 0)%Z; cbn; rewrite ?IH; intuition.
Qed.

Lemma sort_In (l : list A) (y : A) : In y (sort cmp l) <-> In y l.
Proof.
  induction l as [|x l IH]; cbn; [tauto|].
  fold (sort cmp l). rewrite insertSorted_In, IH. intuition.
Qed.

Lemma insertSorted_sorted (x : A) (l : list A) :
  StronglySorted before l -> StronglySorted before (insertSorted cmp x l).
Proof.
  induction 1 as [|z l Hl IH Hz]; cbn.
  - repeat constructor.
  - destruct (cmp x z <=? 0)%Z eqn:Hcmp.
    + constructor; [now constructor|].
      apply Z.leb_le in Hcmp. constructor; [exact Hcmp|].
      rewrite Forall_forall in *. intros y Hy. eapply before_trans; eauto.
    + constructor; [assumption|].
      apply Z.leb_gt in Hcmp.
      rewrite Forall_forall in *. intros y Hy.
      apply insertSorted_In in Hy. destruct Hy as [->|Hy]; [|auto].
      destruct (before_total z x) as [H|H]; [exact H|unfold before in H; lia].
Qed.

Lemma sort_sorted (l : list A) : StronglySorted before (sort cmp l).
Proof.
  induction l as [|x l IH]; cbn; [constructor|].
  now apply insertSorted_sorted.
Qed.

(** The first element of a sorted array goes before all the others. *)
Lemma sort_head (l : list A) (x : A) (r : list A) :
  sort cmp l = x :: r ->
  In x l /\ forall y, In y l -> y = x \/ before x y.
Proof.
  intros Hs. split.
  - apply sort_In. rewrite Hs. now left.
  - intros y Hy. apply sort_In in Hy. rewrite Hs in Hy.
    pose proof (sort_sorted l) as Hsorted. rewrite Hs in Hsorted.
    inversion Hsorted as [|? ? _ Hall]; subst.
    destruct Hy as [<-|Hy]; [now left|right].
    rewrite Forall_forall in Hall. auto.
Qed.

End SortFacts.

(** ** The most common font *)

Module MostCommonFontFacts.
Import Pdfminer.

Lemma fold_left_snoc {A} (l : list A) :
  forall acc, fold_left (fun a b => a ++ [b]) l acc = acc ++ l.
Proof.
  induction l as [|x l IH]; intros acc; cbn.
  - now rewrite app_nil_r.
  - rewrite IH, <- app_assoc. reflexivity.
Qed.

Lemma ForallOrdPairs_snoc {A} (P : A -> A -> Prop) (l : list A) (y : A) :
  ForallOrdPairs P l -> Forall (fun x => P x y) l -> ForallOrdPairs P (l ++ [y]).
Proof.
  induction 1 as [|x l Hx Hl IH]; intros Hy; cbn.
  - repeat constructor.
  - inversion Hy; subst. constructor; [|auto].
    apply Forall_app. split; [assumption|]. now repeat constructor.
Qed.

Lemma ForallOrdPairs_map {A} (P : A -> A -> Prop) (g : A -> A) (l : list A) :
  (forall x y, P x y -> P (g x) (g y)) ->
  ForallOrdPairs P l -> ForallOrdPairs P (map g l).
Proof.
  intros Hg. induction 1 as [|x l Hx Hl IH]; cbn; constructor; [|assumption].
  rewrite Forall_forall in *. intros y Hy.
  apply in_map_iff in Hy. destruct Hy as (z & <- & Hz). auto.
Qed.

Section Baskets.

Variable isEqual : Font -> Font -> bool.
Variable undefinedFont : Font.

Hypothesis isEqual_refl : forall f, isEqual f f = true.
Hypothesis isEqual_sym : forall f g, isEqual f g = true -> isEqual g f = true.
Hypothesis isEqual_trans :
  forall f g h, isEqual f g = true -> isEqual g h = true -> isEqual f h = true.

Let push (font : Font) (basket : list Font) : list Font :=
  if headEquals isEqual font basket then basket ++ [font] else basket.

Lemma push_head (font : Font) (basket : list Font) :
  hd_error (push font basket) = hd_error basket.
Proof.
  unfold push. destruct basket as [|f0 basket]; cbn; [reflexivity|].
  destruct (isEqual f0 font); reflexivity.
Qed.

Lemma headEquals_push (f font : Font) (basket : list Font) :
  headEquals isEqual f (push font basket) = headEquals isEqual f basket.
Proof.
  pose proof (push_head font basket) as H.
  destruct (push font basket), basket; cbn in *; congruence.
Qed.

(** Fonts that are equal have the same class. *)
Lemma same_class (f g : Font) (l : list Font) :
  isEqual f g = true -> filter (isEqual g) l = filter (isEqual f) l.
Proof.
  intros Hfg. apply filter_ext. intros x.
  destruct (isEqual g x) eqn:Hg, (isEqual f x) eqn:Hf; try reflexivity.
  - rewrite (isEqual_trans f g x Hfg Hg) in Hf. discriminate.
  - rewrite (isEqual_trans g f x (isEqual_sym _ _ Hfg) Hf) in Hg. discriminate.
Qed.

Lemma addToBaskets_invariant (seen : list Font) (baskets : list (list Font))
    (font : Font) :
  basketsOf isEqual seen baskets ->
  basketsOf isEqual (seen ++ [font]) (addToBaskets isEqual baskets font).
Proof.
  intros (Hclass & Hcover & Hdiff).
  assert (Hpushed :
    Forall (fun basket => exists f, hd_error basket = Some f
                                    /\ basket = filter (isEqual f) (seen ++ [font]))
      (map (push font) baskets)).
  { rewrite Forall_forall in *. intros b' Hb'.
    apply in_map_iff in Hb'. destruct Hb' as (b & <- & Hb).
    destruct (Hclass b Hb) as (f & Hf & Hfilter).
    exists f. split; [now rewrite push_head|].
    rewrite filter_app. unfold push. cbn [filter].
    destruct b as [|f0 b]; [discriminate|]. injection Hf as ->.
    cbn [headEquals]. destruct (isEqual f font).
    - now rewrite <- Hfilter.
    - now rewrite app_nil_r. }
  assert (Hheads :
    ForallOrdPairs (differentHeads isEqual) (map (push font) baskets)).
  { apply ForallOrdPairs_map; [|assumption].
    unfold differentHeads. intros b1 b2 H f1 f2. rewrite !push_head. apply H. }
  assert (Hold : forall f, In f seen ->
             existsb (headEquals isEqual f) (map (push font) baskets) = true).
  { intros f Hf. specialize (Hcover f Hf).
    apply existsb_exists in Hcover. destruct Hcover as (b & Hb & Hhead).
    apply existsb_exists. exists (push font b).
    split; [now apply in_map|now rewrite headEquals_push]. }
  unfold addToBaskets. fold (push font).
  destruct (existsb (headEquals isEqual font) baskets) eqn:Hfound.
  - repeat split; try assumption.
    intros f Hf. apply in_app_or in Hf. destruct Hf as [Hf|[<-|[]]]; [auto|].
    apply existsb_exists in Hfound. destruct Hfound as (b & Hb & Hhead).
    apply existsb_exists. exists (push font b).
    split; [now apply in_map|now rewrite headEquals_push].
  - assert (Hnew : filter (isEqual font) seen = []).
    { assert (Hnone : Forall (fun x => isEqual font x = false) seen).
      { rewrite Forall_forall. intros x Hx. specialize (Hcover x Hx).
        destruct (isEqual font x) eqn:Hfx; [|reflexivity].
        apply existsb_exists in Hcover. destruct Hcover as (b & Hb & Hhead).
        assert (existsb (headEquals isEqual font) baskets = true) as Hyes;
          [|congruence].
        apply existsb_exists. exists b. split; [assumption|].
        destruct b as [|f0 b]; [discriminate|]. cbn in *.
        eauto using isEqual_trans, isEqual_sym. }
      clear - Hnone. induction Hnone as [|x l Hx _ IH]; cbn; [reflexivity|].
      now rewrite Hx. }
    repeat split.
    + apply Forall_app. split; [assumption|].
      constructor; [|constructor]. exists font. split; [reflexivity|].
      rewrite filter_app, Hnew. cbn. now rewrite isEqual_refl.
    + intros f Hf. rewrite existsb_app.
      apply in_app_or in Hf. destruct Hf as [Hf|[<-|[]]].
      * rewrite (Hold f Hf). reflexivity.
      * cbn. rewrite isEqual_refl. apply orb_true_iff. right. reflexivity.
    + apply ForallOrdPairs_snoc; [assumption|].
      rewrite Forall_forall. intros b' Hb'.
      apply in_map_iff in Hb'. destruct Hb' as (b & <- & Hb).
      unfold differentHeads. rewrite push_head. cbn. intros f1 f2 Hf1 [= <-].
      destruct (isEqual f1 font) eqn:Hf1font; [|reflexivity].
      assert (existsb (headEquals isEqual font) baskets = true) as Hyes;
        [|congruence].
      apply existsb_exists. exists b. split; [assumption|].
      destruct b as [|f0 b]; [discriminate|]. cbn in *. congruence.
Qed.

Lemma fillBaskets_invariant (fonts : list Font) :
  forall seen baskets,
    basketsOf isEqual seen baskets ->
    basketsOf isEqual (seen ++ fonts) (fold_left (addToBaskets isEqual) fonts baskets).
Proof.
  induction fonts as [|font fonts IH]; intros seen baskets Hinv; cbn.
  - now rewrite app_nil_r.
  - replace (seen ++ font :: fonts) with ((seen ++ [font]) ++ fonts)
      by (now rewrite <- app_assoc).
    apply IH. now apply addToBaskets_invariant.
Qed.

Lemma fillBaskets_classes (fonts : list Font) :
  basketsOf isEqual fonts (fillBaskets isEqual fonts).
Proof.
  apply (fillBaskets_invariant fonts [] []).
  repeat split; [constructor| intros f []|constructor].
Qed.

(** A font lands in one basket only. *)
Lemma push_concat (font : Font) (baskets : list (list Font)) :
  ForallOrdPairs (differentHeads isEqual) baskets ->
  existsb (headEquals isEqual font) baskets = true ->
  Permutation (concat (map (push font) baskets)) (concat baskets ++ [font]).
Proof.
  induction 1 as [|b baskets Hb Hrest IH]; cbn [existsb map concat]; [discriminate|].
  destruct (headEquals isEqual font b) eqn:Hhead; cbn [orb]; intros Hfound.
  - assert (Hid : map (push font) baskets = baskets).
    { rewrite <- (map_id baskets) at 2. apply map_ext_in. intros b' Hb'.
      unfold push. destruct (headEquals isEqual font b') eqn:Hhead'; [|reflexivity].
      rewrite Forall_forall in Hb. specialize (Hb b' Hb').
      destruct b as [|f b], b' as [|f' b']; try discriminate. cbn in *.
      specialize (Hb f f' eq_refl eq_refl).
      assert (isEqual f f' = true) by eauto using isEqual_trans, isEqual_sym.
      congruence. }
    rewrite Hid. unfold push. rewrite Hhead, <- !app_assoc.
    apply Permutation_app_head, Permutation_app_comm.
  - unfold push at 1. rewrite Hhead, <- app_assoc.
    apply Permutation_app_head, IH, Hfound.
Qed.

Lemma push_nowhere (font : Font) (baskets : list (list Font)) :
  existsb (headEquals isEqual font) baskets = false ->
  map (push font) baskets = baskets.
Proof.
  induction baskets as [|b baskets IH]; cbn; [reflexivity|].
  intros Hnone. apply orb_false_iff in Hnone. destruct Hnone as [Hb Hrest].
  unfold push at 1. rewrite Hb, IH by assumption. reflexivity.
Qed.

Lemma addToBaskets_concat (font : Font) (baskets : list (list Font)) :
  ForallOrdPairs (differentHeads isEqual) baskets ->
  Permutation (concat (addToBaskets isEqual baskets font)) (concat baskets ++ [font]).
Proof.
  intros Hdiff. unfold addToBaskets. fold (push font).
  destruct (existsb (headEquals isEqual font) baskets) eqn:Hfound.
  - now apply push_concat.
  - rewrite push_nowhere by assumption. rewrite concat_app. cbn.
    reflexivity.
Qed.

Lemma fillBaskets_concat (fonts : list Font) :
  forall seen baskets,
    basketsOf isEqual seen baskets ->
    Permutation (concat baskets) seen ->
    Permutation (concat (fold_left (addToBaskets isEqual) fonts baskets))
      (seen ++ fonts).
Proof.
  induction fonts as [|font fonts IH]; intros seen baskets Hinv Hperm; cbn.
  - now rewrite app_nil_r.
  - replace (seen ++ font :: fonts) with ((seen ++ [font]) ++ fonts)
      by (now rewrite <- app_assoc).
    apply IH; [now apply addToBaskets_invariant|].
    rewrite addToBaskets_concat by apply Hinv.
    now apply Permutation_app_tail.
Qed.

Lemma byLengthDesc_total (a b : list Font) :
  (byLengthDesc a b <= 0)%Z \/ (byLengthDesc b a <= 0)%Z.
Proof. unfold byLengthDesc. lia. Qed.

Lemma byLengthDesc_trans (a b c : list Font) :
  (byLengthDesc a b <= 0)%Z -> (byLengthDesc b c <= 0)%Z -> (byLengthDesc a c <= 0)%Z.
Proof. unfold byLengthDesc. lia. Qed.

(** C8. With [Font.isEqual] an equivalence, the baskets of
    [getMostCommonFont] are the equivalence classes of the input fonts (each
    basket holds exactly the fonts equal to its first one, and together the
    baskets hold every font once); the result is a font of the input whose
    class is at least as large as any other; for no font at all the result
    is [Font.undefinedFont].  The result depends on the input list only. *)
Theorem getMostCommonFont_most_common (theFonts : list Font) :
  let result := getMostCommonFont isEqual undefinedFont theFonts in
  (theFonts = [] -> result = undefinedFont)
  /\ Permutation (concat (fillBaskets isEqual theFonts)) theFonts
  /\ Forall (fun basket => exists f, hd_error basket = Some f
                                    /\ basket = filter (isEqual f) theFonts)
       (fillBaskets isEqual theFonts)
  /\ (theFonts <> [] ->
      In result theFonts
      /\ forall g, In g theFonts ->
           length (filter (isEqual g) theFonts)
           <= length (filter (isEqual result) theFonts)).
Proof.
  cbn zeta. pose proof (fillBaskets_classes theFonts) as Hinv.
  destruct Hinv as (Hclass & Hcover & Hdiff).
  split; [|split; [|split; [|intros Hne; split]]].
  - intros ->. reflexivity.
  - apply (fillBaskets_concat theFonts [] []); [|constructor].
    repeat split; [constructor|intros f []|constructor].
  - exact Hclass.
  - unfold getMostCommonFont. rewrite fold_left_snoc. cbn [app].
    destruct (sort byLengthDesc (fillBaskets isEqual theFonts)) as [|b0 rest] eqn:Hs.
    + exfalso. destruct theFonts as [|f fs]; [congruence|].
      specialize (Hcover f (or_introl eq_refl)).
      apply existsb_exists in Hcover. destruct Hcover as (b & Hb & _).
      apply (sort_In byLengthDesc) in Hb. rewrite Hs in Hb. destruct Hb.
    + destruct (sort_head byLengthDesc byLengthDesc_total byLengthDesc_trans _ _ _ Hs)
        as [Hb0 _].
      rewrite Forall_forall in Hclass.
      destruct (Hclass b0 Hb0) as (f0 & Hhd & Hfilter).
      destruct b0 as [|f b0]; [discriminate|]. injection Hhd as ->.
      assert (In f0 (filter (isEqual f0) theFonts)) as Hin
          by (rewrite <- Hfilter; now left).
      now apply filter_In in Hin.
  - intros g Hg. unfold getMostCommonFont. rewrite fold_left_snoc. cbn [app].
    specialize (Hcover g Hg). apply existsb_exists in Hcover.
    destruct Hcover as (b & Hb & Hhead).
    destruct (sort byLengthDesc (fillBaskets isEqual theFonts)) as [|b0 rest] eqn:Hs.
    + apply (sort_In byLengthDesc) in Hb. rewrite Hs in Hb. destruct Hb.
    + destruct (sort_head byLengthDesc byLengthDesc_total byLengthDesc_trans _ _ _ Hs)
        as [Hb0 Hmax].
      rewrite Forall_forall in Hclass.
      destruct (Hclass b0 Hb0) as (f0 & Hhd0 & Hfilter0).
      destruct (Hclass b Hb) as (f & Hhd & Hfilter).
      destruct b0 as [|f0' b0]; [discriminate|]. injection Hhd0 as ->.
      destruct b as [|f' b]; [discriminate|]. injection Hhd as ->.
      cbn [headEquals] in Hhead.
      rewrite (same_class f g theFonts Hhead), <- Hfilter, <- Hfilter0.
      destruct (Hmax _ Hb) as [->|Hle]; [reflexivity|].
      unfold byLengthDesc in Hle. lia.
Qed.

End Baskets.

Import Samples.

Lemma sameName_refl (f : Font) : sameName f f = true.
Proof. apply String.eqb_refl. Qed.

Lemma sameName_sym (f g : Font) : sameName f g = true -> sameName g f = true.
Proof. unfold sameName. now rewrite String.eqb_sym. Qed.

Lemma sameName_trans (f g h : Font) :
  sameName f g = true -> sameName g h = true -> sameName f h = true.
Proof.
  unfold sameName. rewrite !String.eqb_eq. congruence.
Qed.

Lemma getMostCommonFont_most_common_witness :
  getMostCommonFont sameName (namedFont EmptyString) sampleFonts = namedFont "Times"
  /\ In (getMostCommonFont sameName (namedFont EmptyString) sampleFonts) sampleFonts
  /\ forall g, In g sampleFonts ->
       length (filter (sameName g) sampleFonts)
       <= length (filter (sameName (getMostCommonFont sameName (namedFont EmptyString) sampleFonts))
                    sampleFonts).
Proof.
  split; [reflexivity|].
  apply (getMostCommonFont_most_common sameName (namedFont EmptyString)
           sameName_refl sameName_sym sameName_trans sampleFonts).
  discriminate.
Defined.

End MostCommonFontFacts.

(** ** Table reconstruction *)

Module TableFacts.
Import TableReconstruction.

Local Open Scope Q_scope.

Lemma Qltb_lt (a b : Q) : Qltb a b = true <-> a < b.
Proof.
  unfold Qltb. rewrite negb_true_iff. split.
  - intros H. apply Qnot_le_lt. intros Hle.
    apply Qle_bool_iff in Hle. congruence.
  - intros H. destruct (Qle_bool b a) eqn:Hle; [|reflexivity].
    apply Qle_bool_iff in Hle. exfalso. apply (Qlt_not_le _ _ H Hle).
Qed.

Lemma Qltb_ge (a b : Q) : Qltb a b = false <-> b <= a.
Proof.
  unfold Qltb. rewrite negb_false_iff. apply Qle_bool_iff.
Qed.

Lemma Qle_bool_gt (a b : Q) : Qle_bool a b = false <-> b < a.
Proof.
  rewrite <- Qltb_lt. unfold Qltb. now rewrite negb_true_iff.
Qed.

Lemma compareQ_le (a b : Q) : (compareQ a b <= 0)%Z <-> a <= b.
Proof.
  unfold compareQ. rewrite Qle_alt.
  destruct (Qcompare a b); split; intros H; try lia; try discriminate; congruence.
Qed.

Lemma compareQ_total (a b : Q) : (compareQ a b <= 0)%Z \/ (compareQ b a <= 0)%Z.
Proof.
  rewrite !compareQ_le. destruct (Qlt_le_dec a b) as [H|H]; [left|right]; lra.
Qed.

Lemma compareQ_trans (a b c : Q) :
  (compareQ a b <= 0)%Z -> (compareQ b c <= 0)%Z -> (compareQ a c <= 0)%Z.
Proof.
  rewrite !compareQ_le. lra.
Qed.

Lemma sortQ_In (l : list Q) (x : Q) : In x (sort compareQ l) <-> In x l.
Proof. apply sort_In. Qed.

Lemma sortQ_sorted (l : list Q) : StronglySorted Qle (sort compareQ l).
Proof.
  pose proof (sort_sorted compareQ compareQ_total compareQ_trans l) as H.
  induction H as [|x s Hs IH Hx]; constructor; [assumption|].
  rewrite Forall_forall in *. intros y Hy. apply compareQ_le. auto.
Qed.

(** The overlap of two intervals, by cases. *)
Lemma overlapLength_spec (a1 a2 b1 b2 : Q) :
  let o := overlapLength a1 a2 b1 b2 in
  0 <= o /\ (o == 0 \/ (o == Qmin a2 b2 - Qmax a1 b1)).
Proof.
  unfold overlapLength. cbn zeta.
  destruct (Q.max_spec 0 (Qmin a2 b2 - Qmax a1 b1)) as [[H ->]|[H ->]]; lra.
Qed.

Lemma overlapLength_inside (lo hi a b : Q) :
  lo <= a -> a <= b -> b <= hi -> overlapLength lo hi a b == b - a.
Proof.
  intros. unfold overlapLength.
  destruct (Q.min_spec hi b) as [[? ->]|[? ->]];
    destruct (Q.max_spec lo a) as [[? ->]|[? ->]];
    match goal with |- Qmax 0 ?x == _ =>
      destruct (Q.max_spec 0 x) as [[? ->]|[? ->]] end; lra.
Qed.

Lemma overlapLength_apart (lo hi a b : Q) :
  hi <= a \/ b <= lo -> lo <= hi -> a <= b -> overlapLength lo hi a b == 0.
Proof.
  intros. unfold overlapLength.
  destruct (Q.min_spec hi b) as [[? ->]|[? ->]];
    destruct (Q.max_spec lo a) as [[? ->]|[? ->]];
    match goal with |- Qmax 0 ?x == _ =>
      destruct (Q.max_spec 0 x) as [[? ->]|[? ->]] end; lra.
Qed.

Lemma covers_inside (lo hi a b : Q) :
  lo <= a -> a < b -> b <= hi -> covers lo hi (a, b) = true.
Proof.
  intros. unfold covers. cbn [fst snd]. apply Qltb_lt.
  rewrite overlapLength_inside by lra. lra.
Qed.

Lemma covers_apart (lo hi a b : Q) :
  hi <= a \/ b <= lo -> lo <= hi -> a < b -> covers lo hi (a, b) = false.
Proof.
  intros. unfold covers. cbn [fst snd]. apply Qltb_ge.
  rewrite overlapLength_apart by lra. lra.
Qed.

(** *** Canonical boundaries *)

Section Canonical.

Variable tolerance : Q.
Hypothesis tolerance_nonneg : 0 <= tolerance.

Lemma chainFrom_above (l : list Q) :
  forall last, chainFrom tolerance last l -> forall x, In x l -> last < x.
Proof.
  induction l as [|y l IH]; intros last Hchain x Hx; [destruct Hx|].
  destruct Hchain as [Hgap Hchain]. destruct Hx as [<-|Hx]; [lra|].
  specialize (IH y Hchain x Hx). lra.
Qed.



Lemma intervals_cons (c c1 : Q) (r : list Q) :
  intervals (c :: c1 :: r) = (c, c1) :: intervals (c1 :: r).
Proof. reflexivity. Qed.

Lemma intervals_length (c : Q) (l : list Q) : length (intervals (c :: l)) = length l.
Proof.
  revert c. induction l as [|c1 l IH]; intros c; [reflexivity|].
  rewrite intervals_cons. cbn [length]. now rewrite IH.
Qed.

(** In a chain every interval is wider than the tolerance and lies between
    the first and the later boundaries. *)
Lemma intervals_chain (l : list Q) :
  forall c, chainFrom tolerance c l ->
  forall a b, In (a, b) (intervals (c :: l)) ->
              tolerance < b - a /\ c <= a /\ In b l.
Proof.
  induction l as [|c1 l IH]; intros c Hchain a b Hin; [destruct Hin|].
  rewrite intervals_cons in Hin. destruct Hchain as [Hgap Hchain].
  destruct Hin as [[= <- <-]|Hin].
  - repeat split; [assumption|lra|now left].
  - destruct (IH c1 Hchain a b Hin) as (Hwide & Hfrom & Hb).
    repeat split; [assumption|lra|now right].
Qed.

(** Deduplicating a sorted list gives back the chain its values are taken
    from. *)
Lemma dedupFrom_canon (s : list Q) :
  forall last C,
    StronglySorted Qle s ->
    (forall y, In y s -> y = last \/ In y C) ->
    (forall c, In c C -> In c s) ->
    chainFrom tolerance last C ->
    dedupFrom tolerance last s = C.
Proof.
  induction s as [|x s IH]; intros last C Hsorted Hfrom Hall Hchain.
  - destruct C as [|c C]; [reflexivity|]. destruct (Hall c (or_introl eq_refl)).
  - inversion Hsorted as [|? ? Hsorted' Hx]; subst.
    rewrite Forall_forall in Hx. cbn [dedupFrom].
    destruct (Hfrom x (or_introl eq_refl)) as [Hxl|HxC].
    + subst x.
      assert (Qle_bool (last - last) tolerance = true) as ->
          by (apply Qle_bool_iff; lra).
      apply IH; try assumption.
      * intros y Hy. apply Hfrom. now right.
      * intros c Hc. destruct (Hall c Hc) as [Hcl|Hs]; [|assumption].
        subst c. pose proof (chainFrom_above C last Hchain last Hc). lra.
    + destruct C as [|c1 C]; [destruct HxC|].
      destruct Hchain as [Hgap Hchain].
      assert (x = c1) as Hxc.
      { destruct HxC as [Heq|HxC]; [now symmetry|].
        pose proof (chainFrom_above C c1 Hchain x HxC) as Hlt.
        destruct (Hall c1 (or_introl eq_refl)) as [Heq|Hs]; [assumption|].
        specialize (Hx c1 Hs). lra. }
      subst x.
      assert (Qle_bool (c1 - last) tolerance = false) as ->
          by (now apply Qle_bool_gt).
      f_equal. apply IH; try assumption.
      * intros y Hy. specialize (Hx y Hy).
        destruct (Hfrom y (or_intror Hy)) as [Heq|[Heq|HyC]];
          [subst y; lra|now left|now right].
      * intros c Hc. pose proof (chainFrom_above C c1 Hchain c Hc) as Hlt.
        destruct (Hall c (or_intror Hc)) as [Heq|Hs]; [subst c; lra|assumption].
Qed.

Lemma canonical_of_chain (values C : list Q) :
  chain tolerance C ->
  (forall x, In x values <-> In x C) ->
  canonical tolerance values = C.
Proof.
  intros Hchain Hsame. unfold canonical.
  pose proof (sortQ_sorted values) as Hsorted.
  assert (Hin : forall x, In x (sort compareQ values) <-> In x C)
    by (intros x; now rewrite sortQ_In).
  destruct (sort compareQ values) as [|x s].
  - destruct C as [|c C]; [reflexivity|].
    destruct (proj2 (Hin c) (or_introl eq_refl)).
  - destruct C as [|c C]; [destruct (proj1 (Hin x) (or_introl eq_refl))|].
    cbn [chain] in Hchain. inversion Hsorted as [|? ? Hsorted' Hx]; subst.
    rewrite Forall_forall in Hx.
    assert (x = c) as Hxc.
    { destruct (proj1 (Hin x) (or_introl eq_refl)) as [Heq|HxC]; [now symmetry|].
      pose proof (chainFrom_above C c Hchain x HxC) as Hlt.
      destruct (proj2 (Hin c) (or_introl eq_refl)) as [Heq|Hs]; [assumption|].
      specialize (Hx c Hs). lra. }
    subst x.
    cbn [dedup]. f_equal. apply dedupFrom_canon; try assumption.
    + intros y Hy. destruct (proj1 (Hin y) (or_intror Hy)) as [Heq|HyC];
        [now left|now right].
    + intros y Hy. pose proof (chainFrom_above C c Hchain y Hy) as Hlt.
      destruct (proj2 (Hin y) (or_intror Hy)) as [Heq|Hs]; [subst y; lra|assumption].
Qed.

(** *** Spans over a chain *)

Lemma filter_all {A} (f : A -> bool) (l : list A) :
  (forall x, In x l -> f x = true) -> filter f l = l.
Proof.
  induction l as [|x l IH]; intros H; cbn; [reflexivity|].
  rewrite (H x (or_introl eq_refl)), IH; [reflexivity|].
  intros y Hy. apply H. now right.
Qed.

Lemma filter_none {A} (f : A -> bool) (l : list A) :
  (forall x, In x l -> f x = false) -> filter f l = [].
Proof.
  induction l as [|x l IH]; intros H; cbn; [reflexivity|].
  rewrite (H x (or_introl eq_refl)), IH; [reflexivity|].
  intros y Hy. apply H. now right.
Qed.


(** A cell that lies left of a chain covers none of its intervals. *)
Lemma span_left_of (lo hi : Q) (l : list Q) :
  forall c, chainFrom tolerance c l -> lo <= hi -> hi <= c ->
            span lo hi (intervals (c :: l)) = 0%nat.
Proof.
  intros c Hchain Hle Hhi. unfold span. rewrite filter_none; [reflexivity|].
  intros [a b] Hin.
  destruct (intervals_chain l c Hchain a b Hin) as (Hwide & Hfrom & _).
  apply covers_apart; lra.
Qed.

(** A cell that fills one interval of a chain covers that interval only. *)
Lemma span_one (l : list Q) :
  forall c a b, chainFrom tolerance c l -> In (a, b) (intervals (c :: l)) ->
                span a b (intervals (c :: l)) = 1%nat.
Proof.
  induction l as [|c1 l IH]; intros c a b Hchain Hin; [destruct Hin|].
  rewrite intervals_cons in *. destruct Hchain as [Hgap Hchain].
  unfold span in *. cbn [filter].
  destruct Hin as [[= <- <-]|Hin].
  - rewrite covers_inside by lra. cbn [length]. f_equal.
    apply (span_left_of c c1 l c1 Hchain); lra.
  - destruct (intervals_chain l c1 Hchain a b Hin) as (Hwide & Hfrom & _).
    rewrite covers_apart by lra. now apply IH.
Qed.

End Canonical.

(** *** Rows that no rowspan reaches into *)

Section Rows.

Variable tolerance : Q.
Variables colBounds rowBounds : list Q.
Variable n : nat.

Let processRow' := processRow tolerance colBounds rowBounds n.
Let assemble' := assemble tolerance colBounds rowBounds n.

Lemma absorbed_nothing_active (c : RawCell) :
  absorbed tolerance colBounds [] c = false.
Proof.
  reflexivity.
Qed.

Lemma kept_nothing_active (raw : list RawCell) :
  filter (fun c => negb (absorbed tolerance colBounds [] c)) raw = raw.
Proof.
  apply filter_all. intros c _. now rewrite absorbed_nothing_active.
Qed.

Lemma start_single_rows (kept : list RawCell) :
  Forall (fun c => (rowspanOf rowBounds (rawBox c) <= 1)%nat) kept ->
  start colBounds rowBounds kept = [].
Proof.
  unfold start. induction 1 as [|c kept Hc _ IH]; cbn [flat_map]; [reflexivity|].
  rewrite IH. destruct (columnOf colBounds (rawBox c)); [|reflexivity].
  destruct (1 <? rowspanOf rowBounds (rawBox c))%nat eqn:Hlt; [|reflexivity].
  apply Nat.ltb_lt in Hlt. lia.
Qed.

(** A row whose cells each fill one column and one row is emitted as it
    is, with spans 1. *)
Lemma processRow_unit_cells (raw : list RawCell) :
  length raw = n ->
  Forall (fun c => colspanOf colBounds (rawBox c) = 1%nat
                   /\ rowspanOf rowBounds (rawBox c) = 1%nat) raw ->
  processRow' [] raw = (mkRowResult (mkRow (map uncorrectedCell raw)) false, []).
Proof.
  intros Hlen Hunit. unfold processRow', processRow. cbv zeta.
  rewrite kept_nothing_active.
  assert (Hsame : map (reconstructCell colBounds rowBounds) raw = map uncorrectedCell raw).
  { apply map_ext_in. intros c Hc. rewrite Forall_forall in Hunit.
    destruct (Hunit c Hc) as [Hcol Hrow].
    unfold reconstructCell, uncorrectedCell. now rewrite Hcol, Hrow. }
  rewrite Hsame.
  assert (Hsum : sumOf colspan (map uncorrectedCell raw) = length raw).
  { clear. unfold sumOf. induction raw as [|c raw IH]; cbn; [reflexivity|].
    now rewrite IH. }
  rewrite Hsum, Hlen. cbn [sumOf fold_right]. rewrite Nat.add_0_r, Nat.eqb_refl.
  cbn [continue flat_map app]. rewrite start_single_rows; [reflexivity|].
  eapply Forall_impl; [|exact Hunit]. cbn. intros c [_ ->]. lia.
Qed.

Lemma assemble_unit_cells (grid : RawTableGrid) :
  Forall (fun raw => length raw = n
            /\ Forall (fun c => colspanOf colBounds (rawBox c) = 1%nat
                                /\ rowspanOf rowBounds (rawBox c) = 1%nat) raw) grid ->
  assemble' [] grid
  = map (fun raw => mkRowResult (mkRow (map uncorrectedCell raw)) false) grid.
Proof.
  unfold assemble'.
  induction 1 as [|raw grid [Hlen Hunit] _ IH]; cbn [assemble map]; [reflexivity|].
  pose proof (processRow_unit_cells raw Hlen Hunit) as Hrow.
  unfold processRow' in Hrow. rewrite Hrow, IH. reflexivity.
Qed.

End Rows.

(** *** Regular grids *)

Section Regular.

Variable tolerance : Q.
Hypothesis tolerance_nonneg : 0 <= tolerance.
Variable txt : Q -> Q -> string.

Lemma boundariesFrom_head (start : Q) (sizes : list Q) :
  exists r, boundariesFrom start sizes = start :: r /\ length r = length sizes.
Proof.
  destruct sizes as [|w sizes]; cbn; eexists; split; try reflexivity.
  revert start w. induction sizes as [|w' sizes IH]; intros start w; cbn; [reflexivity|].
  f_equal. apply IH.
Qed.

Lemma boundariesFrom_chain (sizes : list Q) :
  forall start,
    Forall (fun w => tolerance < w) sizes ->
    chain tolerance (boundariesFrom start sizes).
Proof.
  induction sizes as [|w sizes IH]; intros start Hwide; cbn; [exact I|].
  inversion Hwide as [|? ? Hw Hrest]; subst.
  specialize (IH (start + w) Hrest).
  destruct (boundariesFrom_head (start + w) sizes) as (r & Heq & _).
  rewrite Heq in *. cbn in *. split; [lra|assumption].
Qed.

Lemma rowCells_length (x : Q) (widths : list Q) (y h : Q) :
  length (rowCells txt x widths y h) = length widths.
Proof.
  revert x. induction widths as [|w widths IH]; intros x; cbn; [reflexivity|].
  now rewrite IH.
Qed.

(** The intervals between the column boundaries are the horizontal extents
    of the cells of a row. *)
Lemma rowCells_intervals (widths : list Q) (y h : Q) :
  forall x,
    intervals (boundariesFrom x widths)
    = map (fun c => (left (rawBox c), right (rawBox c))) (rowCells txt x widths y h).
Proof.
  induction widths as [|w widths IH]; intros x; [reflexivity|].
  cbn [boundariesFrom rowCells map].
  destruct (boundariesFrom_head (x + w) widths) as (r & Heq & _).
  rewrite Heq, intervals_cons, <- Heq, IH. reflexivity.
Qed.

Lemma rowCells_left_right (widths : list Q) (y h : Q) :
  forall x v,
    widths <> [] ->
    In v (flat_map (fun c => [left (rawBox c); right (rawBox c)])
            (rowCells txt x widths y h))
    <-> In v (boundariesFrom x widths).
Proof.
  induction widths as [|w widths IH]; intros x v Hne; [congruence|].
  cbn [rowCells flat_map boundariesFrom app].
  destruct widths as [|w' widths].
  - cbn. unfold right. cbn. tauto.
  - specialize (IH (x + w) v ltac:(discriminate)).
    destruct (boundariesFrom_head (x + w) (w' :: widths)) as (r & Heq & _).
    cbn [In]. rewrite IH, Heq. unfold right. cbn. tauto.
Qed.

Lemma rowCells_top_bottom (widths : list Q) (y h : Q) :
  forall x v,
    widths <> [] ->
    In v (flat_map (fun c => [top (rawBox c); bottom (rawBox c)])
            (rowCells txt x widths y h))
    <-> v = y \/ v = y + h.
Proof.
  induction widths as [|w widths IH]; intros x v Hne; [congruence|].
  cbn [rowCells flat_map app].
  destruct widths as [|w' widths].
  - cbn. unfold bottom. cbn. intuition.
  - specialize (IH (x + w) v ltac:(discriminate)).
    cbn [In]. rewrite IH. unfold bottom. cbn. intuition.
Qed.

Lemma gridRows_top_bottom (x0 : Q) (widths heights : list Q) :
  forall y v,
    widths <> [] -> heights <> [] ->
    In v (flat_map (fun c => [top (rawBox c); bottom (rawBox c)])
            (concat (gridRows txt x0 widths y heights)))
    <-> In v (boundariesFrom y heights).
Proof.
  induction heights as [|h heights IH]; intros y v Hw Hh; [congruence|].
  cbn [gridRows concat boundariesFrom].
  rewrite flat_map_app, in_app_iff, rowCells_top_bottom by assumption.
  destruct heights as [|h' heights].
  - cbn. intuition.
  - specialize (IH (y + h) v Hw ltac:(discriminate)).
    destruct (boundariesFrom_head (y + h) (h' :: heights)) as (r & Heq & _).
    rewrite IH, Heq. cbn. intuition.
Qed.

Lemma gridRows_lengths (x0 : Q) (widths heights : list Q) :
  forall y,
    Forall (fun row => length row = length widths) (gridRows txt x0 widths y heights).
Proof.
  induction heights as [|h heights IH]; intros y; cbn; constructor.
  - apply rowCells_length.
  - apply IH.
Qed.

Lemma fold_left_best (rest : RawTableGrid) (best : list RawCell) :
  Forall (fun row => length row = length best) rest ->
  fold_left (fun best row => if (length best <? length row)%nat then row else best)
    rest best = best.
Proof.
  induction 1 as [|row rest Hrow _ IH]; cbn [fold_left]; [reflexivity|].
  rewrite Hrow, Nat.ltb_irrefl. exact IH.
Qed.

Lemma referenceRow_regular (x0 : Q) (widths : list Q) (y0 h : Q) (heights : list Q) :
  widths <> [] ->
  referenceRow (gridRows txt x0 widths y0 (h :: heights))
  = rowCells txt x0 widths y0 h.
Proof.
  intros Hw. unfold referenceRow. cbn [gridRows fold_left length].
  assert (Hfirst : (0 <? length (rowCells txt x0 widths y0 h))%nat = true).
  { rewrite rowCells_length. destruct widths; [congruence|reflexivity]. }
  rewrite Hfirst. apply fold_left_best.
  eapply Forall_impl; [|apply gridRows_lengths].
  cbn. intros row ->. now rewrite rowCells_length.
Qed.

Lemma gridRows_rows (x0 : Q) (widths heights : list Q) :
  forall y0 raw,
    In raw (gridRows txt x0 widths y0 heights) ->
    exists y h, raw = rowCells txt x0 widths y h
                /\ In (y, y + h) (intervals (boundariesFrom y0 heights)).
Proof.
  induction heights as [|h heights IH]; intros y0 raw Hin; [destruct Hin|].
  cbn [gridRows boundariesFrom] in *.
  destruct (boundariesFrom_head (y0 + h) heights) as (r & Heq & _).
  rewrite Heq, intervals_cons, <- Heq.
  destruct Hin as [<-|Hin].
  - exists y0, h. split; [reflexivity|now left].
  - destruct (IH (y0 + h) raw Hin) as (y & h' & -> & Hy).
    exists y, h'. split; [reflexivity|now right].
Qed.

Lemma rowCells_vertical (widths : list Q) (y h : Q) :
  forall x c, In c (rowCells txt x widths y h) ->
              top (rawBox c) = y /\ bottom (rawBox c) = y + h.
Proof.
  induction widths as [|w widths IH]; intros x c Hin; [destruct Hin|].
  destruct Hin as [<-|Hin]; [split; reflexivity|]. now apply (IH (x + w)).
Qed.

Lemma span_one_of (sizes : list Q) (start a b : Q) :
  Forall (fun w => tolerance < w) sizes ->
  In (a, b) (intervals (boundariesFrom start sizes)) ->
  span a b (intervals (boundariesFrom start sizes)) = 1%nat.
Proof.
  intros Hwide Hin.
  pose proof (boundariesFrom_chain sizes start Hwide) as Hchain.
  destruct (boundariesFrom_head start sizes) as (r & Heq & _).
  rewrite Heq in *. now apply (span_one tolerance tolerance_nonneg).
Qed.

Lemma merge_some (boxes : list BoundingBox) :
  boxes <> [] -> exists b, merge boxes = Some b.
Proof.
  destruct boxes as [|b boxes]; [congruence|]. intros _. unfold merge. eauto.
Qed.

(** C2. A raw grid whose rows all have the same cells on the same column
    boundaries, with columns and rows wider than the tolerance (the literal
    case: 3 rows of 6 cells), is reconstructed with colspan 1 and rowspan 1
    for every cell, and every reconstructed row has as many cells as the
    raw row it comes from. *)
Theorem regular_grid_identity (x0 : Q) (widths : list Q) (y0 : Q) (heights : list Q) :
  widths <> [] -> heights <> [] ->
  Forall (fun w => tolerance < w) widths ->
  Forall (fun h => tolerance < h) heights ->
  let grid := regularGrid txt x0 widths y0 heights in
  exists t,
    reconstruct tolerance grid = Some t
    /\ Forall2 (fun row raw =>
         length (cells row) = length raw
         /\ length raw = length widths
         /\ Forall (fun c => colspan c = 1%nat /\ rowspan c = 1%nat) (cells row))
         (rows t) grid.
Proof.
  intros Hw Hh Hwide Htall grid. subst grid. unfold regularGrid.
  assert (Hcols : columnBoundaries tolerance (gridRows txt x0 widths y0 heights)
                  = boundariesFrom x0 widths).
  { unfold columnBoundaries. destruct heights as [|h heights]; [congruence|].
    rewrite referenceRow_regular by assumption.
    apply (canonical_of_chain tolerance tolerance_nonneg).
    - now apply boundariesFrom_chain.
    - intros v. now apply rowCells_left_right. }
  assert (Hrows : rowBoundaries tolerance (gridRows txt x0 widths y0 heights)
                  = boundariesFrom y0 heights).
  { unfold rowBoundaries.
    apply (canonical_of_chain tolerance tolerance_nonneg).
    - now apply boundariesFrom_chain.
    - intros v. now apply gridRows_top_bottom. }
  assert (Hcount : columnCount tolerance (gridRows txt x0 widths y0 heights)
                   = length widths).
  { unfold columnCount. rewrite Hcols.
    destruct (boundariesFrom_head x0 widths) as (r & Heq & Hlen).
    now rewrite Heq, intervals_length. }
  assert (Hunit :
    Forall (fun raw => length raw = length widths
              /\ Forall (fun c =>
                   colspanOf (boundariesFrom x0 widths) (rawBox c) = 1%nat
                   /\ rowspanOf (boundariesFrom y0 heights) (rawBox c) = 1%nat) raw)
      (gridRows txt x0 widths y0 heights)).
  { rewrite Forall_forall. intros raw Hraw.
    destruct (gridRows_rows x0 widths heights y0 raw Hraw) as (y & h & -> & Hy).
    split; [apply rowCells_length|].
    rewrite Forall_forall. intros c Hc.
    destruct (rowCells_vertical widths y h x0 c Hc) as [Htop Hbottom].
    unfold colspanOf, rowspanOf. rewrite Htop, Hbottom. split.
    - apply span_one_of; [assumption|].
      rewrite (rowCells_intervals widths y h x0).
      now apply (in_map (fun c => (left (rawBox c), right (rawBox c)))).
    - now apply span_one_of. }
  destruct (merge_some (map rawBox (concat (gridRows txt x0 widths y0 heights))))
    as [b Hb].
  { destruct heights as [|h heights]; [congruence|].
    destruct widths as [|w widths]; [congruence|]. discriminate. }
  unfold reconstruct, reconstructRows. rewrite Hb, Hcount, Hcols, Hrows.
  assert ((length (gridRows txt x0 widths y0 heights) =? 0)%nat = false) as ->.
  { destruct heights; [congruence|reflexivity]. }
  assert ((length widths =? 0)%nat = false) as ->.
  { destruct widths; [congruence|reflexivity]. }
  cbn [orb]. rewrite assemble_unit_cells by exact Hunit.
  eexists. split; [reflexivity|]. cbn [rows].
  rewrite map_map. cbn [emitted].
  clear - Hunit. induction Hunit as [|raw grid [Hlen _] _ IH]; cbn [map]; constructor.
  - cbn [cells]. rewrite length_map. repeat split; [assumption|].
    rewrite Forall_forall. intros c Hc. apply in_map_iff in Hc.
    destruct Hc as (rc & <- & _). split; reflexivity.
  - exact IH.
Qed.

End Regular.

(** *** Rowspans that reach into later rows *)

(** Case analysis on the comparisons of natural numbers in the goal. *)
Ltac ltb_cases :=
  repeat match goal with
    | H : (_ <? _)%nat = true |- _ => apply Nat.ltb_lt in H
    | H : (_ <? _)%nat = false |- _ => apply Nat.ltb_ge in H
    | |- context [(?x <? ?y)%nat] =>
        let H := fresh "Hcmp" in destruct (x <? y)%nat eqn:H
    end;
  try reflexivity; try lia.

Section Spans.

Variable tolerance : Q.
Variables colBounds rowBounds : list Q.
Variable n : nat.

Let processRow' := processRow tolerance colBounds rowBounds n.
Let assemble' := assemble tolerance colBounds rowBounds n.
Let kept (active : list Active) (raw : list RawCell) : list RawCell :=
  filter (fun c => negb (absorbed tolerance colBounds active c)) raw.

Lemma sumOf_app {A} (f : A -> nat) (l1 l2 : list A) :
  sumOf f (l1 ++ l2) = (sumOf f l1 + sumOf f l2)%nat.
Proof.
  unfold sumOf. induction l1 as [|a l1 IH]; cbn; [reflexivity|].
  rewrite IH. lia.
Qed.

Lemma sumOf_ext {A} (f g : A -> nat) (l : list A) :
  (forall a, In a l -> f a = g a) -> sumOf f l = sumOf g l.
Proof.
  unfold sumOf. induction l as [|a l IH]; intros H; cbn; [reflexivity|].
  rewrite (H a (or_introl eq_refl)), IH; [reflexivity|].
  intros b Hb. apply H. now right.
Qed.

Lemma sumOf_map {A B} (f : B -> nat) (g : A -> B) (l : list A) :
  sumOf f (map g l) = sumOf (fun a => f (g a)) l.
Proof.
  unfold sumOf. induction l as [|a l IH]; cbn; [reflexivity|]. now rewrite IH.
Qed.

Lemma sumOf_zero {A} (f : A -> nat) (l : list A) :
  (forall a, In a l -> f a = 0%nat) -> sumOf f l = 0%nat.
Proof.
  unfold sumOf. induction l as [|a l IH]; intros H; cbn; [reflexivity|].
  rewrite (H a (or_introl eq_refl)), IH; [reflexivity|].
  intros b Hb. apply H. now right.
Qed.

(** The two ways a row comes out of [processRow]. *)
Lemma processRow_cases (active : list Active) (raw : list RawCell)
    (r : RowResult) (active' : list Active) :
  processRow' active raw = (r, active') ->
  (fallback r = false
   /\ cells (emitted r) = map (reconstructCell colBounds rowBounds) (kept active raw)
   /\ active' = continue active ++ start colBounds rowBounds (kept active raw)
   /\ (sumOf colspan (cells (emitted r)) + sumOf columns active = n)%nat)
  \/ (fallback r = true
      /\ cells (emitted r) = map uncorrectedCell (kept active raw)
      /\ active' = continue active).
Proof.
  unfold processRow', processRow. cbv zeta. fold (kept active raw).
  destruct (_ =? n)%nat eqn:Hsum; intros [= <- <-]; [left|right]; cbn.
  - apply Nat.eqb_eq in Hsum. auto.
  - auto.
Qed.

Lemma continuationWidth_before (rws : list TableRow) :
  forall j i, (i <= j)%nat -> continuationWidth j rws i = 0%nat.
Proof.
  induction rws as [|r rws IH]; intros j i Hle; cbn [continuationWidth]; [reflexivity|].
  assert ((j <? i)%nat = false) as -> by (apply Nat.ltb_ge; lia).
  rewrite IH by lia. reflexivity.
Qed.

Lemma activeWidth_all (active : list Active) :
  Forall (fun a => (1 <= remaining a)%nat) active ->
  activeWidth 0 active = sumOf columns active.
Proof.
  intros Hpos. unfold activeWidth. apply sumOf_ext. intros a Ha.
  rewrite Forall_forall in Hpos. specialize (Hpos a Ha).
  assert ((0 <? remaining a)%nat = true) as -> by (apply Nat.ltb_lt; lia).
  reflexivity.
Qed.

Lemma activeWidth_continue (i : nat) (active : list Active) :
  activeWidth i (continue active) = activeWidth (S i) active.
Proof.
  unfold activeWidth, continue.
  induction active as [|a active IH]; [reflexivity|].
  cbn [flat_map]. rewrite sumOf_app, IH. unfold sumOf at 3. cbn [fold_right].
  fold (sumOf (fun a => if (S i <? remaining a)%nat then columns a else 0%nat) active).
  f_equal.
  destruct (1 <? remaining a)%nat eqn:Hlong;
    unfold sumOf; cbn [fold_right remaining columns]; ltb_cases.
Qed.

Lemma firstCovered_none (lo hi : Q) (ivs : list (Q * Q)) :
  firstCovered lo hi ivs = None -> span lo hi ivs = 0%nat.
Proof.
  unfold span. induction ivs as [|iv ivs IH]; cbn; [reflexivity|].
  destruct (covers lo hi iv); [discriminate|].
  destruct (firstCovered lo hi ivs); [discriminate|]. intros _. now apply IH.
Qed.

Lemma activeWidth_start (i : nat) (cs : list RawCell) :
  activeWidth i (start colBounds rowBounds cs)
  = sumOf (fun c => if (S i <? rowspan c)%nat then colspan c else 0%nat)
      (map (reconstructCell colBounds rowBounds) cs).
Proof.
  unfold activeWidth, start.
  induction cs as [|c cs IH]; [reflexivity|].
  cbn [flat_map map]. rewrite sumOf_app, IH.
  unfold sumOf at 3. cbn [fold_right]. f_equal.
  cbn [reconstructCell rowspan colspan].
  destruct (columnOf colBounds (rawBox c)) eqn:Hcol.
  - destruct (1 <? rowspanOf rowBounds (rawBox c))%nat eqn:Hlong;
      unfold sumOf; cbn [fold_right remaining columns]; ltb_cases.
  - unfold columnOf in Hcol. apply firstCovered_none in Hcol.
    unfold colspanOf. rewrite Hcol. unfold sumOf. cbn [fold_right]. ltb_cases.
Qed.

Lemma start_positive (cs : list RawCell) :
  Forall (fun a => (1 <= remaining a)%nat) (start colBounds rowBounds cs).
Proof.
  unfold start. rewrite Forall_forall. intros a Ha.
  apply in_flat_map in Ha. destruct Ha as (c & _ & Ha).
  destruct (columnOf colBounds (rawBox c)); [|destruct Ha].
  destruct (1 <? rowspanOf rowBounds (rawBox c))%nat eqn:Hlong; [|destruct Ha].
  apply Nat.ltb_lt in Hlong. destruct Ha as [<-|[]]. cbn. lia.
Qed.

Lemma continue_positive (active : list Active) :
  Forall (fun a => (1 <= remaining a)%nat) (continue active).
Proof.
  unfold continue. rewrite Forall_forall. intros a Ha.
  apply in_flat_map in Ha. destruct Ha as (a0 & _ & Ha).
  destruct (1 <? remaining a0)%nat eqn:Hlong; [|destruct Ha].
  apply Nat.ltb_lt in Hlong. destruct Ha as [<-|[]]. cbn. lia.
Qed.

Lemma processRow_positive (active : list Active) (raw : list RawCell)
    (r : RowResult) (active' : list Active) :
  processRow' active raw = (r, active') ->
  Forall (fun a => (1 <= remaining a)%nat) active'.
Proof.
  intros Hrow. apply processRow_cases in Hrow.
  destruct Hrow as [(_ & _ & -> & _)|(_ & _ & ->)].
  - apply Forall_app. split; [apply continue_positive|apply start_positive].
  - apply continue_positive.
Qed.

(** What a row passes on to the row [i] rows below the next one. *)
Lemma processRow_passes_on (active : list Active) (raw : list RawCell)
    (r : RowResult) (active' : list Active) (i : nat) :
  processRow' active raw = (r, active') ->
  activeWidth i active'
  = (activeWidth (S i) active
     + sumOf (fun c => if (S i <? rowspan c)%nat then colspan c else 0%nat)
         (cells (emitted r)))%nat.
Proof.
  intros Hrow. apply processRow_cases in Hrow.
  destruct Hrow as [(_ & -> & -> & _)|(_ & -> & ->)].
  - unfold activeWidth at 1. rewrite sumOf_app.
    fold (activeWidth i (continue active)).
    fold (activeWidth i (start colBounds rowBounds (kept active raw))).
    now rewrite activeWidth_continue, activeWidth_start.
  - rewrite activeWidth_continue, sumOf_map, sumOf_zero; [lia|].
    intros c _. reflexivity.
Qed.

(** The row invariant along [assemble]: the colspans of a row that is not
    degraded, the columns held by the rowspans active on entry and the
    columns held by cells of the rows in between add up to [n]. *)
Lemma assemble_row_sum (grid : RawTableGrid) :
  forall active j i r,
    Forall (fun a => (1 <= remaining a)%nat) active ->
    nth_error (assemble' active grid) i = Some r ->
    fallback r = false ->
    (colspanSum (emitted r) + activeWidth i active
     + continuationWidth j (map emitted (assemble' active grid)) (j + i) = n)%nat.
Proof.
  unfold assemble'.
  induction grid as [|raw grid IH]; intros active j i r Hpos Hnth Hok.
  - destruct i; discriminate.
  - cbn [assemble] in *.
    destruct (processRow tolerance colBounds rowBounds n active raw)
      as [r0 active'] eqn:Hrow.
    destruct i as [|i]; cbn [nth_error map] in *.
    + injection Hnth as ->.
      rewrite continuationWidth_before by lia.
      apply processRow_cases in Hrow.
      destruct Hrow as [(_ & _ & _ & Hsum)|(Hbad & _)]; [|congruence].
      rewrite activeWidth_all by assumption. unfold colspanSum. lia.
    + pose proof (processRow_positive _ _ _ _ Hrow) as Hpos'.
      specialize (IH active' (S j) i r Hpos' Hnth Hok).
      rewrite (processRow_passes_on _ _ _ _ i Hrow) in IH.
      cbn [continuationWidth].
      assert ((j <? j + S i)%nat = true) as -> by (apply Nat.ltb_lt; lia).
      replace (j + S i)%nat with (S j + i)%nat by lia.
      rewrite (sumOf_ext
                 (fun c => if (S j + i <? j + rowspan c)%nat then colspan c else 0%nat)
                 (fun c => if (S i <? rowspan c)%nat then colspan c else 0%nat)).
      * lia.
      * intros c _. ltb_cases.
Qed.















End Spans.

(** *** The reconstructed table *)

Lemma reconstruct_rows (tolerance : Q) (grid : RawTableGrid) (t : Table) :
  reconstruct tolerance grid = Some t ->
  exists rs, reconstructRows tolerance grid = Some rs /\ rows t = map emitted rs.
Proof.
  unfold reconstruct. destruct (reconstructRows tolerance grid) as [rs|]; [|discriminate].
  destruct (merge _); [|discriminate]. intros [= <-]. eauto.
Qed.

Lemma reconstruct_row (tolerance : Q) (grid : RawTableGrid) (t : Table)
    (i : nat) (row : TableRow) :
  reconstruct tolerance grid = Some t ->
  nth_error (rows t) i = Some row ->
  exists rs r,
    reconstructRows tolerance grid = Some rs
    /\ nth_error rs i = Some r
    /\ row = emitted r
    /\ rows t = map emitted rs
    /\ degraded tolerance grid i = fallback r.
Proof.
  intros Ht Hrow. destruct (reconstruct_rows tolerance grid t Ht) as (rs & Hrs & Hmap).
  rewrite Hmap, nth_error_map in Hrow.
  destruct (nth_error rs i) as [r|] eqn:Hr; [|discriminate].
  injection Hrow as <-. exists rs, r. unfold degraded. rewrite Hrs, Hr. auto.
Qed.


(** C1, as the reconstruction has it.  In every row of a reconstructed
    table that is not emitted through the span-sum fallback, the colspans of
    the cells of the row plus the columns that cells of earlier rows occupy
    in it through their rowspan add up to the canonical column count.  (A
    row emitted through the fallback keeps its cells with colspan 1 each,
    whatever their number.) *)
Theorem row_sum_invariant (tolerance : Q) (grid : RawTableGrid) (t : Table)
    (i : nat) (row : TableRow) :
  reconstruct tolerance grid = Some t ->
  nth_error (rows t) i = Some row ->
  degraded tolerance grid i = false ->
  (colspanSum row + continuationWidth 0 (rows t) i
   = columnCount tolerance grid)%nat.
Proof.
  intros Ht Hrow Hok.
  destruct (reconstruct_row tolerance grid t i row Ht Hrow)
    as (rs & r & Hrs & Hr & -> & -> & Hflag).
  rewrite Hflag in Hok. unfold reconstructRows in Hrs.
  destruct (_ || _)%bool; [discriminate|]. injection Hrs as <-.
  pose proof (assemble_row_sum tolerance _ _ _ grid [] 0 i r
                (Forall_nil _) Hr Hok) as H.
  cbn [Nat.add] in H. unfold activeWidth, sumOf in H. cbn [fold_right] in H. lia.
Qed.


(** C5. When the payload that the extractor hands over for a page is the
    empty array, the run of the table detection stage completes, whatever
    the extractor gives for the other pages of the document, and the page
    comes out as it went in: its elements are unchanged and it has the
    tables it had before. *)
Theorem no_table_detected (tolerance : Q) (parseJson : string -> option Json)
    (normalize : Page -> BoundingBox -> BoundingBox) (extractor : Extractor)
    (document : Document) (k : nat) (page : Page) (payload : string) :
  nth_error (pages document) k = Some page ->
  extractor page = Output payload ->
  parseJson payload = Some (JArray []) ->
  exists document' page',
    run document [tableDetection tolerance parseJson normalize extractor]
    = Completed document'
    /\ length (pages document') = length (pages document)
    /\ nth_error (pages document') k = Some page'
    /\ elements page' = elements page
    /\ tablesOf page' = tablesOf page.
Proof.
  intros Hpage Houtput Hnone.
  unfold run, runFrom, tableDetection.
  eexists. exists page. split; [reflexivity|]. cbn [pages].
  split; [apply length_map|].
  split; [|split; reflexivity].
  rewrite nth_error_map, Hpage. cbn [option_map]. rewrite Houtput.
  unfold responseOf. rewrite Hnone.
  unfold decodeTables. cbn [map allOf].
  unfold detectTables. cbn [map fold_left]. reflexivity.
Qed.

(** *** The sample grids *)

Import Samples.

Lemma sampleTolerance_nonneg : 0 <= sampleTolerance.
Proof. unfold sampleTolerance, Qle. simpl. lia. Qed.

Lemma regular_grid_identity_witness :
  exists t,
    reconstruct sampleTolerance plainGrid = Some t
    /\ Forall2 (fun row raw =>
         length (cells row) = length raw
         /\ length raw = 6%nat
         /\ Forall (fun c => colspan c = 1%nat /\ rowspan c = 1%nat) (cells row))
         (rows t) plainGrid.
Proof.
  apply (regular_grid_identity sampleTolerance sampleTolerance_nonneg
           (fun _ _ => EmptyString) 0 [10; 10; 10; 10; 10; 10] 0 [5; 5; 5]).
  - discriminate.
  - discriminate.
  - repeat constructor.
  - repeat constructor.
Defined.



Lemma row_sum_invariant_witness :
  exists t row,
    reconstruct sampleTolerance tallCellGrid = Some t
    /\ nth_error (rows t) 1 = Some row
    /\ degraded sampleTolerance tallCellGrid 1 = false
    /\ colspanSum row = 2%nat
    /\ (colspanSum row + continuationWidth 0 (rows t) 1
        = columnCount sampleTolerance tallCellGrid)%nat.
Proof.
  eexists. eexists.
  split; [reflexivity|]. split; [reflexivity|]. split; [reflexivity|].
  split; [reflexivity|].
  apply (row_sum_invariant sampleTolerance tallCellGrid _ 1 _); reflexivity.
Defined.

(** The second row of [narrowRowGrid] comes out with one cell of colspan 1
    in a table of three columns, and no rowspan reaches into it. *)
Lemma row_sum_fails_after_fallback :
  exists t r,
    reconstruct sampleTolerance narrowRowGrid = Some t
    /\ nth_error (rows t) 1 = Some r
    /\ (colspanSum r + continuationWidth 0 (rows t) 1
        <> columnCount sampleTolerance narrowRowGrid)%nat.
Proof.
  eexists. eexists. split; [reflexivity|]. split; [reflexivity|].
  vm_compute. discriminate.
Qed.



(** The scenarios of the tests of the module. *)
Example colspans_without_merge :
  colspansOf plainGrid = Some [[1; 1; 1; 1; 1; 1]; [1; 1; 1; 1; 1; 1]; [1; 1; 1; 1; 1; 1]]%nat.
Proof. vm_compute. reflexivity. Qed.

Example colspans_one_merge :
  colspansOf oneMergeGrid = Some [[2; 1; 1; 1; 1]; [1; 1; 1; 1; 1; 1]; [1; 1; 1; 1; 1; 1]]%nat.
Proof. vm_compute. reflexivity. Qed.

Example colspans_two_merges :
  colspansOf twoMergesGrid = Some [[2; 1; 1; 2]; [1; 2; 2; 1]; [1; 1; 1; 1; 1; 1]]%nat.
Proof. vm_compute. reflexivity. Qed.

Example colspans_adjacent_merges :
  colspansOf adjacentMergesGrid = Some [[2; 2; 1; 1]; [1; 1; 1; 1; 1; 1]; [1; 2; 2; 1]]%nat.
Proof. vm_compute. reflexivity. Qed.

Example colspans_multiple_merges :
  colspansOf mergedGrid = Some [[4; 1; 1]; [1; 3; 2]; [6]; [1; 1; 1; 1; 1; 1]]%nat.
Proof. vm_compute. reflexivity. Qed.

Example spans_of_detection :
  option_map
    (fun t => map (fun r => map (fun c => (colspan c, rowspan c)) (cells r)) (rows t))
    (reconstruct sampleTolerance detectionGrid)
  = Some [[(1, 2); (1, 1); (1, 1); (1, 1); (2, 1)];
          [(1, 1); (1, 1); (1, 1); (1, 1); (1, 1)];
          [(1, 1); (1, 1); (1, 1); (1, 1); (1, 1); (1, 1)]]%nat.
Proof. vm_compute. reflexivity. Qed.

Lemma no_table_detected_witness :
  exists document' page',
    run sampleDocument
      [tableDetection sampleTolerance sampleParseJson asGiven sampleExtractor]
    = Completed document'
    /\ length (pages document') = 2%nat
    /\ nth_error (pages document') 0 = Some page'
    /\ elements page' = elements samplePageWithText
    /\ tablesOf page' = [].
Proof.
  apply (no_table_detected sampleTolerance sampleParseJson asGiven sampleExtractor
           sampleDocument 0 samplePageWithText "[]"); reflexivity.
Defined.

(** On the second page of the sample document the extractor finds a table,
    which the same run puts on that page. *)
Example one_table_detected :
  exists document' page',
    run sampleDocument
      [tableDetection sampleTolerance sampleParseJson asGiven sampleExtractor]
    = Completed document'
    /\ nth_error (pages document') 1 = Some page'
    /\ map (fun t => map (fun r => map colspan (cells r)) (rows t)) (tablesOf page')
       = [[[1; 1]; [1; 1]]]%nat.
Proof.
  eexists. eexists. split; [reflexivity|]. split; [reflexivity|].
  vm_compute. reflexivity.
Qed.

End TableFacts.

(** * Further properties of the input stage *)

(** ** Words as runs of characters *)

Module LineFacts.
Import Pdfminer PdfminerLines.

Lemma undefinedAt_cons_none {A} (i : nat) (l : list (option A)) :
  undefinedAt i (None :: l) = i :: undefinedAt (S i) l.
Proof. reflexivity. Qed.

Lemma undefinedAt_cons_some {A} (i : nat) (a : A) (l : list (option A)) :
  undefinedAt i (Some a :: l) = undefinedAt (S i) l.
Proof. reflexivity. Qed.

Lemma undefinedAt_bounds {A} (l : list (option A)) :
  forall i p, In p (undefinedAt i l) -> i <= p < i + length l.
Proof.
  induction l as [|[a|] l IH]; intros i p Hp.
  - destruct Hp.
  - rewrite undefinedAt_cons_some in Hp. apply IH in Hp. cbn [length]. lia.
  - rewrite undefinedAt_cons_none in Hp. cbn [length].
    destruct Hp as [<-|Hp]; [lia|]. apply IH in Hp. lia.
Qed.

Lemma slice_empty {A} (k : nat) (l : list A) : slice k k l = [].
Proof. unfold slice. now rewrite Nat.sub_diag. Qed.

Lemma slice_step {A} (k to : nat) (pre l : list A) (x : A) :
  length pre = k -> k < to ->
  slice k to (pre ++ x :: l) = x :: slice (S k) to (pre ++ x :: l).
Proof.
  intros Hk Hlt. unfold slice.
  replace (to - k) with (S (to - S k)) by lia.
  replace (skipn k (pre ++ x :: l)) with (x :: l)
    by (subst k; now rewrite skipn_app, skipn_all, Nat.sub_diag).
  replace (skipn (S k) (pre ++ x :: l)) with l.
  - reflexivity.
  - subst k. replace (pre ++ x :: l) with ((pre ++ [x]) ++ l)
      by (now rewrite <- app_assoc).
    replace (S (length pre)) with (length (pre ++ [x]))
      by (rewrite length_app; cbn; lia).
    now rewrite skipn_app, skipn_all, Nat.sub_diag.
Qed.

(** The slices between the separator positions are the pieces between the
    [undefined] entries. *)
Lemma segmentsFrom_pieces {A} (l : list (option A)) :
  forall pre,
    segmentsFrom (pre ++ l) (length pre) (undefinedAt (length pre) l) = pieces l.
Proof.
  induction l as [|[a|] l IH]; intros pre.
  - cbn. rewrite app_nil_r, slice_empty. reflexivity.
  - rewrite undefinedAt_cons_some. cbn [pieces].
    specialize (IH (pre ++ [Some a])).
    rewrite <- app_assoc, length_app in IH. cbn [app length] in IH.
    rewrite Nat.add_1_r in IH. rewrite <- IH.
    pose proof (undefinedAt_bounds l (S (length pre))) as Hbounds.
    destruct (undefinedAt (S (length pre)) l) as [|loc rest]; cbn [segmentsFrom].
    + rewrite (slice_step (length pre)); [reflexivity|reflexivity|].
      rewrite length_app. cbn. lia.
    + rewrite (slice_step (length pre)); [reflexivity|reflexivity|].
      specialize (Hbounds loc (or_introl eq_refl)). lia.
  - rewrite undefinedAt_cons_none. cbn [pieces segmentsFrom].
    rewrite slice_empty. cbn [defined]. f_equal.
    specialize (IH (pre ++ [None])).
    rewrite <- app_assoc, length_app in IH. cbn [app length] in IH.
    rewrite Nat.add_1_r in *. exact IH.
Qed.

Lemma slice_all {A} (l : list A) : slice 0 (length l) l = l.
Proof. unfold slice. rewrite Nat.sub_0_r. cbn [skipn]. apply firstn_all. Qed.

Lemma filter_keeps {A} (f : A -> bool) (l : list A) :
  (forall x, In x l -> f x = true) -> filter f l = l.
Proof.
  induction l as [|x l IH]; intros H; cbn; [reflexivity|].
  rewrite (H x (or_introl eq_refl)), IH; [reflexivity|].
  intros y Hy. apply H. now right.
Qed.

(** The separator positions of a line that is not empty: every position of
    an [undefined] entry but the first. *)
Lemma separator_positions {A} (x : option A) (r : list (option A)) :
  filter (fun l => negb (l =? length (x :: r)))
    (filter (fun l => negb (l =? 0)) (undefinedAt 0 (x :: r)))
  = undefinedAt 1 r.
Proof.
  assert (Hpos : forall p, In p (undefinedAt 1 r) -> 1 <= p < 1 + length r)
    by apply undefinedAt_bounds.
  assert (Hfirst : filter (fun l => negb (l =? 0)) (undefinedAt 0 (x :: r))
                   = undefinedAt 1 r).
  { destruct x as [a|].
    - rewrite undefinedAt_cons_some. apply filter_keeps.
      intros p Hp. apply Hpos in Hp. destruct p; [lia|reflexivity].
    - rewrite undefinedAt_cons_none. cbn [filter Nat.eqb negb].
      apply filter_keeps.
      intros p Hp. apply Hpos in Hp. destruct p; [lia|reflexivity]. }
  rewrite Hfirst. apply filter_keeps.
  intros p Hp. apply Hpos in Hp. cbn [length].
  apply negb_true_iff, Nat.eqb_neq. lia.
Qed.

(** The slices taken by the code, without the empty ones, are the runs of
    defined characters. *)
Lemma segments_runs {A} (x : option A) (r : list (option A)) :
  filter nonEmpty (segmentsFrom (x :: r) 0 (undefinedAt 1 r)) = runs (x :: r).
Proof.
  unfold runs. destruct x as [a|].
  - rewrite <- (segmentsFrom_pieces (Some a :: r) []). reflexivity.
  - cbn [pieces filter nonEmpty length Nat.eqb negb].
    rewrite <- (segmentsFrom_pieces r [None]). cbn [app length].
    pose proof (undefinedAt_bounds r 1) as Hbounds.
    destruct (undefinedAt 1 r) as [|loc rest]; cbn [segmentsFrom].
    + rewrite (slice_step 0 _ [] r None); [reflexivity|reflexivity|cbn; lia].
    + rewrite (slice_step 0 _ [] r None); [reflexivity|reflexivity|].
      specialize (Hbounds loc (or_introl eq_refl)). lia.
Qed.

Section Words.

Variable isEqual : Font -> Font -> bool.
Variable undefinedFont : Font.
Variable ncolourToHex : string -> string.

Let newWord' := newWord isEqual undefinedFont.
Let wordsBetween' := wordsBetween isEqual undefinedFont.
Let breakLine := breakLineIntoWords isEqual undefinedFont ncolourToHex.
Let isWordOf' := isWordOf isEqual undefinedFont.

Lemma newWord_isWordOf (cs : list Character) :
  cs <> [] -> exists w, newWord' cs = Ok w /\ isWordOf' w cs.
Proof.
  intros Hne. unfold newWord', newWord, isWordOf', isWordOf.
  destruct (merge (map box cs)) as [b|e] eqn:Hmerge.
  - cbn. eexists. split; [reflexivity|]. cbn. auto.
  - apply BreakLineFacts.merge_throws_only_on_nothing in Hmerge.
    destruct cs; [congruence|discriminate].
Qed.

Lemma guarded_push_segment (cs : list Character) (words : list Word)
    (segs : list (list Character)) :
  Forall2 isWordOf' words segs ->
  exists words',
    (if 0 <? length cs
     then do w <- newWord' cs; Ok (words ++ [w])
     else Ok words) = Ok words'
    /\ Forall2 isWordOf' words' (segs ++ filter nonEmpty [cs]).
Proof.
  intros Hwords. destruct cs as [|c cs]; cbn [length Nat.ltb Nat.leb filter nonEmpty].
  - cbn. rewrite app_nil_r. eauto.
  - destruct (newWord_isWordOf (c :: cs)) as (w & -> & Hw); [discriminate|].
    cbn. eexists. split; [reflexivity|].
    apply Forall2_app; [assumption|]. constructor; [assumption|constructor].
Qed.

Lemma wordsBetween_segments (chars : list (option Character)) (locs : list nat) :
  forall words segs,
    Forall2 isWordOf' words segs ->
    exists words',
      wordsBetween' chars locs words = Ok words'
      /\ Forall2 isWordOf' words' (segs ++ filter nonEmpty (segmentsAfter chars locs)).
Proof.
  unfold wordsBetween'.
  induction locs as [|loc rest IH]; intros words segs Hwords; cbn [wordsBetween].
  - cbn. rewrite app_nil_r. eauto.
  - cbv zeta.
    match goal with
    | |- context [defined ?sel] =>
        destruct (guarded_push_segment (defined sel) words segs Hwords)
          as (ws & Hpush & Hws)
    end.
    unfold newWord' in Hpush. rewrite Hpush. cbn [bind].
    destruct (IH ws _ Hws) as (ws' & Hrun & Hws').
    exists ws'. split; [exact Hrun|].
    rewrite <- app_assoc in Hws'. cbn [segmentsAfter].
    destruct rest as [|next rest']; cbn [segmentsFrom segmentsAfter filter app] in *;
      [rewrite app_nil_r in Hws'|];
      destruct (nonEmpty (defined _)); exact Hws'.
Qed.

(** [breakLineIntoWords] in two halves: the characters are built, then cut
    into words. *)
Lemma breakLineIntoWords_halves (texts : list PdfminerText) (wordSeparator : string)
    (pageHeight scalingFactor : number) :
  breakLine texts wordSeparator pageHeight scalingFactor
  = do chars0 <- mapM (toCharacter ncolourToHex pageHeight scalingFactor) (keptTexts texts);
    wordsOfCharacters isEqual undefinedFont (trimSeparators wordSeparator chars0).
Proof. reflexivity. Qed.

(** The loop over the separator positions succeeds and makes one word of
    every run of characters. *)
Lemma wordsOfCharacters_runs (chars : list (option Character)) :
  exists words,
    wordsOfCharacters isEqual undefinedFont chars = Ok words
    /\ Forall2 isWordOf' words (runs chars).
Proof.
  unfold wordsOfCharacters. cbv zeta.
  destruct ((length chars =? 0) || ((length chars =? 1) && isNone (nth 0 chars None)))
    eqn:Hshort.
  { exists []. split; [reflexivity|].
    destruct chars as [|[c|] [|y r]]; try discriminate; constructor. }
  pose proof (BreakLineFacts.selection_without_separator chars Hshort) as Hsome.
  destruct chars as [|x r]; [discriminate|].
  change (defined (mapi (fun (c : option Character) i => if isNone c then Some i else None)
                     0 (x :: r)))
    with (undefinedAt 0 (x :: r)) in *.
  rewrite separator_positions in *.
  rewrite <- segments_runs.
  destruct (undefinedAt 1 r) as [|loc0 rest]; cbn [segmentsFrom].
  - specialize (Hsome eq_refl).
    destruct (newWord_isWordOf (defined (x :: r)) Hsome) as (w & Hw & Hof).
    unfold newWord' in Hw. rewrite Hw. cbn [bind app].
    exists [w]. split; [reflexivity|].
    rewrite slice_all. cbn [filter].
    assert (nonEmpty (defined (x :: r)) = true) as ->
        by (destruct (defined (x :: r)); [congruence|reflexivity]).
    constructor; [assumption|constructor].
  - destruct (guarded_push_segment (defined (slice 0 loc0 (x :: r))) [] []
                (Forall2_nil _)) as (ws & Hpush & Hws).
    unfold newWord' in Hpush. rewrite Hpush. cbn [bind].
    destruct (wordsBetween_segments (x :: r) (loc0 :: rest) ws _ Hws)
      as (ws' & Hrun & Hws').
    unfold wordsBetween' in Hrun. rewrite Hrun.
    exists ws'. split; [reflexivity|].
    cbn [app segmentsAfter] in Hws'.
    cbn [filter] in *. destruct (nonEmpty (defined (slice 0 loc0 (x :: r))));
      exact Hws'.
Qed.

Lemma concat_pieces {A} (l : list (option A)) : concat (pieces l) = defined l.
Proof.
  induction l as [|[a|] l IH]; cbn [pieces]; [reflexivity| |exact IH].
  change (defined (Some a :: l)) with (a :: defined l). rewrite <- IH.
  destruct (pieces l); reflexivity.
Qed.

Lemma concat_nonEmpty {A} (ls : list (list A)) : concat (filter nonEmpty ls) = concat ls.
Proof.
  induction ls as [|[|x l] ls IH]; cbn; [reflexivity|exact IH|].
  now rewrite IH.
Qed.

Lemma concat_runs {A} (l : list (option A)) : concat (runs l) = defined l.
Proof. unfold runs. now rewrite concat_nonEmpty, concat_pieces. Qed.

(** A record cannot be made a character exactly when it has text but lacks
    attributes. *)
Lemma toCharacter_throws (pageHeight scalingFactor : number) (t : PdfminerText)
    (e : Error) :
  toCharacter ncolourToHex pageHeight scalingFactor t = Throw e
  <-> e = TypeError /\ lacksAttributes t = true.
Proof.
  unfold toCharacter, lacksAttributes, called.
  destruct (text t) as [s|]; cbn [isNone negb andb].
  - destruct (attr t) as [a|].
    + destruct (attrNcolour a) as [colour|]; cbn [bind isNone orb].
      * destruct (attrBbox a) as [bbox|]; cbn [bind isNone].
        -- split; [discriminate|]. intros [_ H]. discriminate.
        -- split; [intros [= <-]; auto|]. now intros [-> _].
      * split; [intros [= <-]; auto|]. now intros [-> _].
    + split; [intros [= <-]; auto|]. now intros [-> _].
  - split; [discriminate|]. intros [_ H]. discriminate.
Qed.

Lemma mapM_toCharacter_throws (pageHeight scalingFactor : number)
    (texts : list PdfminerText) (e : Error) :
  mapM (toCharacter ncolourToHex pageHeight scalingFactor) texts = Throw e
  <-> e = TypeError /\ exists char, In char texts /\ lacksAttributes char = true.
Proof.
  induction texts as [|t texts IH]; cbn [mapM].
  - split; [discriminate|]. intros (_ & c & [] & _).
  - destruct (toCharacter ncolourToHex pageHeight scalingFactor t) as [c0|e0] eqn:Ht;
      cbn [bind].
    + assert (Hfine : lacksAttributes t = false).
      { destruct (lacksAttributes t) eqn:Hlack; [|reflexivity].
        assert (toCharacter ncolourToHex pageHeight scalingFactor t = Throw TypeError)
          as Hthrow by (apply toCharacter_throws; auto).
        congruence. }
      destruct (mapM _ texts) as [cs|e'] eqn:Hrest; cbn [bind].
      * split; [discriminate|]. intros (He & c & [<-|Hin] & Hc).
        -- congruence.
        -- assert (Ok cs = Throw e :> result (list (option Character)))
             by (apply IH; eauto).
           discriminate.
      * split.
        -- intros [= <-]. destruct (proj1 IH eq_refl) as (He & c & Hin & Hc).
           split; [exact He|]. exists c. split; [now right|exact Hc].
        -- intros (He & c & [<-|Hin] & Hc).
           ++ congruence.
           ++ apply IH. eauto.
    + apply toCharacter_throws in Ht as (-> & Hlack). split.
      * intros [= <-]. split; [reflexivity|]. exists t. split; [now left|exact Hlack].
      * intros (-> & _). reflexivity.
Qed.

Lemma kept_unreadable (texts : list PdfminerText) :
  (exists char, In char (keptTexts texts) /\ lacksAttributes char = true)
  <-> unreadableLine texts.
Proof.
  unfold keptTexts, unreadableLine. split.
  - intros (c & Hin & Hc). apply filter_In in Hin as (Hin & Hkeep).
    apply andb_true_iff in Hkeep as (Hallowed & _).
    exists c. split; [exact Hin|]. split; [|exact Hc].
    now apply negb_true_iff.
  - intros (c & Hin & Hallowed & Hc). exists c. split; [|exact Hc].
    apply filter_In. split; [exact Hin|]. rewrite Hallowed. cbn [negb andb].
    unfold isFakeChar, lacksAttributes in *.
    destruct (text c); [|discriminate]. cbn.
    now rewrite andb_false_r.
Qed.

(** The characters of a line cannot be built exactly when the line is
    unreadable. *)
Lemma characters_throw (texts : list PdfminerText) (pageHeight scalingFactor : number)
    (e : Error) :
  mapM (toCharacter ncolourToHex pageHeight scalingFactor) (keptTexts texts) = Throw e
  <-> e = TypeError /\ unreadableLine texts.
Proof. now rewrite mapM_toCharacter_throws, kept_unreadable. Qed.

Lemma runs_nonEmpty {A} (l : list (option A)) (cs : list A) : In cs (runs l) -> cs <> [].
Proof.
  unfold runs. intros Hin. apply filter_In in Hin as (_ & Hne).
  destruct cs; [discriminate|discriminate].
Qed.

Lemma wordsOfCharacters_nonEmpty (chars : list (option Character)) (words : list Word) :
  wordsOfCharacters isEqual undefinedFont chars = Ok words -> Forall nonEmptyWord words.
Proof.
  intros Hwords. destruct (wordsOfCharacters_runs chars) as (ws & Hws & Hof).
  rewrite Hwords in Hws. injection Hws as <-.
  assert (Hall : Forall (fun cs : list Character => cs <> []) (runs chars))
    by (apply Forall_forall; intros cs; apply runs_nonEmpty).
  set (rs := runs chars) in *. clearbody rs. clear Hwords.
  induction Hof as [|w cs ws css (Hcs & _) _ IH]; [constructor|].
  inversion Hall as [|? ? Hne Hrest]. subst.
  constructor; [exact Hne|now apply IH].
Qed.

(** [breakLineIntoWords] groups the characters of a line into words: when
    no record that has text lacks attributes, the words are, in order, the
    maximal runs of characters between the records without text, after a
    separator at either end of the line is dropped; the box of a word is the
    merge of the boxes of its characters, its font their most common font. *)
Theorem breakLineIntoWords_runs (texts : list PdfminerText) (wordSeparator : string)
    (pageHeight scalingFactor : number) (chars0 : list (option Character)) :
  mapM (toCharacter ncolourToHex pageHeight scalingFactor) (keptTexts texts) = Ok chars0 ->
  exists words,
    breakLine texts wordSeparator pageHeight scalingFactor = Ok words
    /\ Forall2 isWordOf' words (runs (trimSeparators wordSeparator chars0)).
Proof.
  intros Hchars. rewrite breakLineIntoWords_halves, Hchars. cbn [bind].
  destruct (wordsOfCharacters_runs (trimSeparators wordSeparator chars0))
    as (words & Hwords & Hof).
  exists words. split; [exact Hwords|exact Hof].
Qed.

(** [breakLineIntoWords] neither loses nor repeats nor reorders a character:
    the characters of its words, one word after the other, are the
    characters of the line between its boundary separators. *)
Theorem breakLineIntoWords_keeps_characters (texts : list PdfminerText)
    (wordSeparator : string) (pageHeight scalingFactor : number)
    (chars0 : list (option Character)) (words : list Word) :
  mapM (toCharacter ncolourToHex pageHeight scalingFactor) (keptTexts texts) = Ok chars0 ->
  breakLine texts wordSeparator pageHeight scalingFactor = Ok words ->
  concat (map characters words) = defined (trimSeparators wordSeparator chars0).
Proof.
  intros Hchars Hwords.
  rewrite breakLineIntoWords_halves, Hchars in Hwords. cbn [bind] in Hwords.
  destruct (wordsOfCharacters_runs (trimSeparators wordSeparator chars0))
    as (ws & Hws & Hof).
  rewrite Hwords in Hws. injection Hws as <-.
  rewrite <- concat_runs. clear Hwords.
  set (rs := runs (trimSeparators wordSeparator chars0)) in *. clearbody rs.
  induction Hof as [|w cs ws css (Hcs & _) _ IH]; [reflexivity|].
  cbn [map concat]. now rewrite Hcs, IH.
Qed.

(** [breakLineIntoWords] throws exactly when a record of the line has text
    other than a zero width space but lacks attributes: it has none at all,
    or no [ncolour], or no [bbox] among them.  What it throws is then a
    [TypeError]. *)
Theorem breakLineIntoWords_throws (texts : list PdfminerText) (wordSeparator : string)
    (pageHeight scalingFactor : number) (e : Error) :
  breakLine texts wordSeparator pageHeight scalingFactor = Throw e
  <-> e = TypeError /\ unreadableLine texts.
Proof.
  rewrite breakLineIntoWords_halves, <- (characters_throw texts pageHeight scalingFactor).
  destruct (mapM (toCharacter ncolourToHex pageHeight scalingFactor) (keptTexts texts))
    as [chars0|e'] eqn:Hchars; cbn [bind].
  - destruct (wordsOfCharacters_runs (trimSeparators wordSeparator chars0))
      as (ws & -> & _).
    split; discriminate.
  - split; intros [= <-]; reflexivity.
Qed.

Lemma trimSeparators_last (wordSeparator : string) (first last : Character)
    (chars : list (option Character)) :
  content first <> wordSeparator ->
  content last = wordSeparator ->
  trimSeparators wordSeparator (Some first :: chars ++ [Some last]) = Some first :: chars.
Proof.
  intros Hfirst Hlast. unfold trimSeparators. cbv zeta.
  cbn [nth_error isBoundarySeparator].
  apply String.eqb_neq in Hfirst. rewrite Hfirst.
  set (l := Some first :: chars).
  change (Some first :: chars ++ [Some last]) with (l ++ [Some last]).
  replace (length (l ++ [Some last]) - 1) with (length l)
    by (rewrite length_app; cbn [length]; lia).
  rewrite nth_error_app2 by lia. rewrite Nat.sub_diag.
  cbn [nth_error isBoundarySeparator].
  rewrite Hlast, String.eqb_refl. apply removelast_last.
Qed.

(** A separator that ends a line is lost: when the last character of a line
    is the word separator, as a comma is for the lines of [getPage], the
    words hold every character of the line but that one. *)
Theorem breakLineIntoWords_drops_final_separator (texts : list PdfminerText)
    (wordSeparator : string) (pageHeight scalingFactor : number)
    (first last : Character) (chars : list (option Character)) (words : list Word) :
  mapM (toCharacter ncolourToHex pageHeight scalingFactor) (keptTexts texts)
    = Ok (Some first :: chars ++ [Some last]) ->
  content first <> wordSeparator ->
  content last = wordSeparator ->
  breakLine texts wordSeparator pageHeight scalingFactor = Ok words ->
  concat (map characters words) = first :: defined chars.
Proof.
  intros Hchars Hfirst Hlast Hwords.
  rewrite breakLineIntoWords_halves, Hchars in Hwords. cbn [bind] in Hwords.
  rewrite (trimSeparators_last _ _ _ _ Hfirst Hlast) in Hwords.
  destruct (wordsOfCharacters_runs (Some first :: chars)) as (ws & Hws & Hof).
  rewrite Hwords in Hws. injection Hws as <-.
  change (first :: defined chars) with (defined (Some first :: chars)).
  rewrite <- concat_runs. clear Hwords.
  set (rs := runs (Some first :: chars)) in *. clearbody rs.
  induction Hof as [|w cs ws css (Hcs & _) _ IH]; [reflexivity|].
  cbn [map concat]. now rewrite Hcs, IH.
Qed.

Lemma isFakeChar_blank (t : PdfminerText) (fake : bool) :
  isFakeChar t fake = fake && blank t.
Proof.
  unfold isFakeChar, blank. destruct fake, (isNone (text t)), (isNone (attr t)); reflexivity.
Qed.

Lemma keptTexts_without_blanks (texts : list PdfminerText) :
  thereAreFakeSpaces texts = true ->
  keptTexts (filter (fun t => negb (blank t)) texts) = keptTexts texts.
Proof.
  intros Hfake. unfold keptTexts. rewrite Hfake.
  generalize (thereAreFakeSpaces (filter (fun t => negb (blank t)) texts)) as fake.
  intros fake. clear Hfake.
  induction texts as [|t texts IH]; cbn [filter]; [reflexivity|].
  destruct (blank t) eqn:Hblank; cbn [negb filter].
  - rewrite isFakeChar_blank, Hblank. cbn [andb negb]. rewrite andb_false_r. exact IH.
  - rewrite !isFakeChar_blank, Hblank, !andb_false_r. cbn [negb]. now rewrite IH.
Qed.

(** In a line with fake spaces the records with neither text nor
    attributes count for nothing: the line without them gives the same
    words. *)
Theorem breakLineIntoWords_ignores_fake_spaces (texts : list PdfminerText)
    (wordSeparator : string) (pageHeight scalingFactor : number) :
  thereAreFakeSpaces texts = true ->
  breakLine texts wordSeparator pageHeight scalingFactor
  = breakLine (filter (fun t => negb (blank t)) texts) wordSeparator pageHeight scalingFactor.
Proof.
  intros Hfake. apply keptTexts_without_blanks in Hfake.
  unfold breakLine, breakLineIntoWords. cbv zeta.
  unfold keptTexts in Hfake. rewrite Hfake. reflexivity.
Qed.

End Words.

(** [thereAreFakeSpaces] holds exactly when somewhere in the line a record
    with neither text nor attributes comes directly before a record with
    attributes but no text. *)
Theorem thereAreFakeSpaces_iff (texts : list PdfminerText) :
  thereAreFakeSpaces texts = true <-> exists i, fakeSpaceAt texts i.
Proof.
  assert (Hin : forall (P : PdfminerText -> bool) k,
             In k (map snd (filter (fun w => P (fst w))
                              (mapi (fun word index => (word, index)) 0 texts)))
             <-> exists a, nth_error texts k = Some a /\ P a = true).
  { intros P k. rewrite in_map_iff. split.
    - intros ([a j] & Hk & Hf). cbn in Hk. subst j.
      apply filter_In in Hf as (Hf & HP). cbn in HP.
      apply In_nth_error in Hf as (n & Hn).
      rewrite mapi_nth_error in Hn. cbn in Hn.
      destruct (nth_error texts n) as [a'|] eqn:Ha; [|discriminate].
      cbn in Hn. injection Hn as -> ->. eauto.
    - intros (a & Ha & HP). exists (a, k). split; [reflexivity|].
      apply filter_In. split; [|exact HP].
      apply (nth_error_In _ k). rewrite mapi_nth_error, Ha. reflexivity. }
  unfold thereAreFakeSpaces. cbv zeta. rewrite existsb_exists. split.
  - intros (i & Hi & Hnext).
    apply existsb_exists in Hnext as (j & Hj & Heq).
    apply Nat.eqb_eq in Heq. subst j.
    apply (Hin (fun w => isNone (text w) && isNone (attr w))) in Hi as (a & Ha & Pa).
    apply (Hin (fun w => isNone (text w) && negb (isNone (attr w)))) in Hj as (b & Hb & Pb).
    exists i, a, b.
    apply andb_true_iff in Pa as (Pa1 & Pa2), Pb as (Pb1 & Pb2).
    destruct (text a), (attr a), (text b), (attr b); try discriminate.
    repeat split; try assumption; discriminate.
  - intros (i & a & b & Ha & Hb & Hta & Haa & Htb & Hab). exists i. split.
    + apply (Hin (fun w => isNone (text w) && isNone (attr w))).
      exists a. split; [exact Ha|]. now rewrite Hta, Haa.
    + apply existsb_exists. exists (i + 1). split; [|apply Nat.eqb_refl].
      apply (Hin (fun w => isNone (text w) && negb (isNone (attr w)))).
      exists b. split; [exact Hb|]. rewrite Htb.
      destruct (attr b); [reflexivity|congruence].
Qed.

Import Samples.

Lemma breakLineIntoWords_runs_witness :
  exists chars0,
    mapM (toCharacter (fun s => s) (Some 842%Q) (Some 1%Q)) (keptTexts sampleLine)
    = Ok chars0
    /\ exists words,
         breakLineIntoWords sameName (namedFont EmptyString) (fun s => s) sampleLine ","
           (Some 842%Q) (Some 1%Q) = Ok words
         /\ Forall2 (isWordOf sameName (namedFont EmptyString)) words
              (runs (trimSeparators "," chars0)).
Proof.
  eexists. split; [vm_compute; reflexivity|].
  apply (breakLineIntoWords_runs sameName (namedFont EmptyString) (fun s => s)
           sampleLine "," (Some 842%Q) (Some 1%Q)).
  vm_compute. reflexivity.
Defined.

Lemma breakLineIntoWords_keeps_characters_witness :
  exists chars0 words,
    mapM (toCharacter (fun s => s) (Some 842%Q) (Some 1%Q)) (keptTexts sampleLine)
    = Ok chars0
    /\ breakLineIntoWords sameName (namedFont EmptyString) (fun s => s) sampleLine ","
         (Some 842%Q) (Some 1%Q) = Ok words
    /\ length words = 2
    /\ concat (map characters words) = defined (trimSeparators "," chars0).
Proof.
  eexists. eexists.
  split; [vm_compute; reflexivity|].
  split; [vm_compute; reflexivity|].
  split; [reflexivity|].
  apply (breakLineIntoWords_keeps_characters sameName (namedFont EmptyString)
           (fun s => s) sampleLine "," (Some 842%Q) (Some 1%Q));
    vm_compute; reflexivity.
Defined.

Import MoreSamples.

Lemma breakLineIntoWords_drops_final_separator_witness :
  exists words,
    breakLineIntoWords sameName (namedFont EmptyString) (fun s => s) commaLine ","
      (Some 842%Q) (Some 1%Q) = Ok words
    /\ concat (map characters words) = [sampleCharacter "a"; sampleCharacter "b"].
Proof.
  eexists. split; [vm_compute; reflexivity|].
  apply (breakLineIntoWords_drops_final_separator sameName (namedFont EmptyString)
           (fun s => s) commaLine "," (Some 842%Q) (Some 1%Q)
           (sampleCharacter "a") (sampleCharacter ",") [Some (sampleCharacter "b")]).
  - vm_compute. reflexivity.
  - vm_compute. discriminate.
  - reflexivity.
  - vm_compute. reflexivity.
Defined.

Lemma breakLineIntoWords_throws_witness :
  breakLineIntoWords sameName (namedFont EmptyString) (fun s => s) colourlessLine ","
    (Some 842%Q) (Some 1%Q) = Throw TypeError.
Proof.
  apply (breakLineIntoWords_throws sameName (namedFont EmptyString) (fun s => s)
           colourlessLine "," (Some 842%Q) (Some 1%Q) TypeError).
  split; [reflexivity|].
  exists (Pdfminer.mkText (Some "b")
            (Some (Pdfminer.mkTextAttr (Some "Arial") (Some "1,2,3,4") (Some "12.0") None))).
  split; [right; left; reflexivity|]. split; reflexivity.
Defined.

Lemma breakLineIntoWords_ignores_fake_spaces_witness :
  thereAreFakeSpaces fakeSpaceLine = true
  /\ (exists words, breakLineIntoWords sameName (namedFont EmptyString) (fun s => s)
                      fakeSpaceLine "," (Some 842%Q) (Some 1%Q) = Ok words
                    /\ length words = 2)
  /\ breakLineIntoWords sameName (namedFont EmptyString) (fun s => s)
       fakeSpaceLine "," (Some 842%Q) (Some 1%Q)
     = breakLineIntoWords sameName (namedFont EmptyString) (fun s => s)
         (filter (fun t => negb (blank t)) fakeSpaceLine) "," (Some 842%Q) (Some 1%Q).
Proof.
  split; [reflexivity|]. split; [eexists; split; [vm_compute; reflexivity|reflexivity]|].
  apply (breakLineIntoWords_ignores_fake_spaces sameName (namedFont EmptyString)
           (fun s => s) fakeSpaceLine "," (Some 842%Q) (Some 1%Q)).
  reflexivity.
Defined.

End LineFacts.

(** ** Which font wins *)

Section SortOrder.

Context {A : Type} (cmp : A -> A -> Z).

Let before (x y : A) : Prop := (cmp x y <= 0)%Z.

Hypothesis before_total : forall x y, before x y \/ before y x.
Hypothesis before_trans : forall x y z, before x y -> before y z -> before x z.

(** The sort is stable: the first element of the sorted array is the first
    of the elements of the array that none goes strictly before. *)
Lemma sort_head_first (l : list A) :
  forall x r,
    sort cmp l = x :: r ->
    exists pre post,
      l = pre ++ x :: post
      /\ (forall y, In y pre -> ~ before y x)
      /\ (forall y, In y post -> before x y).
Proof.
  induction l as [|a l IH]; intros x r Hs; [discriminate|].
  cbn in Hs. fold (sort cmp l) in Hs.
  destruct (sort cmp l) as [|h t] eqn:Hl.
  - cbn in Hs. injection Hs as <- <-. exists [], l. split; [reflexivity|].
    split; [intros y []|]. intros y Hy.
    apply (sort_In cmp) in Hy. rewrite Hl in Hy. destruct Hy.
  - cbn in Hs. destruct (cmp a h <=? 0)%Z eqn:Hcmp.
    + injection Hs as <- <-. exists [], l. split; [reflexivity|].
      split; [intros y []|]. intros y Hy.
      apply Z.leb_le in Hcmp.
      destruct (sort_head cmp before_total before_trans l h t Hl) as [_ Hfirst].
      destruct (Hfirst y Hy) as [->|Hhy]; [exact Hcmp|].
      now apply before_trans with h.
    + injection Hs as <- <-.
      destruct (IH h t eq_refl) as (pre & post & -> & Hpre & Hpost).
      exists (a :: pre), post. split; [reflexivity|]. split; [|exact Hpost].
      intros y [<-|Hy]; [|now apply Hpre].
      apply Z.leb_gt in Hcmp. unfold before. lia.
Qed.

End SortOrder.

Module FontFacts.
Import Pdfminer PdfminerFonts.

Section AnyEquality.

Variable isEqual : Font -> Font -> bool.
Variable undefinedFont : Font.

Lemma addToBaskets_within (seen : list Font) (baskets : list (list Font)) (font : Font) :
  basketsWithin seen baskets ->
  basketsWithin (seen ++ [font]) (addToBaskets isEqual baskets font).
Proof.
  intros (Hall & _).
  assert (Hpushed : Forall (fun basket => basket <> [] /\ incl basket (seen ++ [font]))
            (map (fun basket => if headEquals isEqual font basket
                                then basket ++ [font] else basket) baskets)).
  { apply Forall_map. eapply Forall_impl; [|exact Hall].
    intros b (Hne & Hincl). destruct (headEquals isEqual font b).
    - split; [now destruct b|].
      apply incl_app; [now apply incl_appl|apply incl_appr, incl_refl].
    - split; [exact Hne|now apply incl_appl]. }
  unfold addToBaskets. cbv zeta.
  destruct (existsb (headEquals isEqual font) baskets) eqn:Hfound.
  - split; [exact Hpushed|]. intros _ Hnone.
    apply map_eq_nil in Hnone. subst baskets. discriminate.
  - split; [|intros _ Hnone; now apply app_eq_nil in Hnone as [_ ?]].
    apply Forall_app. split; [exact Hpushed|].
    constructor; [|constructor]. split; [discriminate|].
    apply incl_appr, incl_refl.
Qed.

Lemma fillBaskets_within (fonts : list Font) :
  forall seen baskets,
    basketsWithin seen baskets ->
    basketsWithin (seen ++ fonts) (fold_left (addToBaskets isEqual) fonts baskets).
Proof.
  induction fonts as [|font fonts IH]; intros seen baskets Hinv; cbn [fold_left].
  - now rewrite app_nil_r.
  - replace (seen ++ font :: fonts) with ((seen ++ [font]) ++ fonts)
      by (now rewrite <- app_assoc).
    apply IH. now apply addToBaskets_within.
Qed.

(** Whatever [Font.isEqual] is, be it not even reflexive as for fonts whose
    size is not a number, the font that [getMostCommonFont] returns for a
    list that is not empty is one of the fonts of the list. *)
Theorem getMostCommonFont_member (theFonts : list Font) :
  theFonts <> [] ->
  In (getMostCommonFont isEqual undefinedFont theFonts) theFonts.
Proof.
  intros Hne. unfold getMostCommonFont.
  rewrite MostCommonFontFacts.fold_left_snoc. cbn [app].
  destruct (fillBaskets_within theFonts [] []) as (Hall & Hsome).
  { split; [constructor|congruence]. }
  cbn [app] in *. fold (fillBaskets isEqual theFonts) in *.
  destruct (sort byLengthDesc (fillBaskets isEqual theFonts)) as [|b0 rest] eqn:Hs.
  - exfalso. apply (Hsome Hne).
    destruct (fillBaskets isEqual theFonts) as [|b bs]; [reflexivity|].
    assert (In b (sort byLengthDesc (b :: bs))) as Hb
        by (apply sort_In; now left).
    rewrite Hs in Hb. destruct Hb.
  - assert (In b0 (fillBaskets isEqual theFonts)) as Hb0
        by (apply (sort_In byLengthDesc); rewrite Hs; now left).
    rewrite Forall_forall in Hall. destruct (Hall b0 Hb0) as (Hb & Hincl).
    destruct b0 as [|f b0]; [congruence|]. apply Hincl. now left.
Qed.

End AnyEquality.

Section Arrival.

Variable isEqual : Font -> Font -> bool.
Variable undefinedFont : Font.

Hypothesis isEqual_refl : forall f, isEqual f f = true.
Hypothesis isEqual_sym : forall f g, isEqual f g = true -> isEqual g f = true.
Hypothesis isEqual_trans :
  forall f g h, isEqual f g = true -> isEqual g h = true -> isEqual f h = true.

Let push (font : Font) (basket : list Font) : list Font :=
  if headEquals isEqual font basket then basket ++ [font] else basket.

Lemma existsb_pushed (g font : Font) (baskets : list (list Font)) :
  existsb (headEquals isEqual g) (map (push font) baskets)
  = existsb (headEquals isEqual g) baskets.
Proof.
  induction baskets as [|b baskets IH]; cbn [map existsb]; [reflexivity|].
  unfold push at 1. rewrite (MostCommonFontFacts.headEquals_push isEqual), IH.
  reflexivity.
Qed.

Lemma addToBaskets_arrival (seen : list Font) (baskets : list (list Font)) (font : Font) :
  basketsOf isEqual seen baskets ->
  inOrderOfArrival isEqual seen baskets ->
  inOrderOfArrival isEqual (seen ++ [font]) (addToBaskets isEqual baskets font).
Proof.
  intros (_ & Hcover & _) Horder.
  assert (Hpushed : inOrderOfArrival isEqual (seen ++ [font]) (map (push font) baskets)).
  { intros i b' Hb'. rewrite nth_error_map in Hb'.
    destruct (nth_error baskets i) as [b|] eqn:Hb; [|discriminate].
    injection Hb' as <-.
    destruct (Horder i b Hb) as (pre & h & post & Hh & -> & Hpre).
    exists pre, h, (post ++ [font]).
    split; [unfold push; now rewrite (MostCommonFontFacts.push_head isEqual)|].
    split; [now rewrite <- app_assoc|].
    intros g Hg. rewrite firstn_map, existsb_pushed. now apply Hpre. }
  unfold addToBaskets. cbv zeta. fold (push font).
  destruct (existsb (headEquals isEqual font) baskets); [exact Hpushed|].
  intros i b Hb.
  destruct (Nat.lt_ge_cases i (length (map (push font) baskets))) as [Hi|Hi].
  - rewrite nth_error_app1 in Hb by exact Hi.
    destruct (Hpushed i b Hb) as (pre & h & post & Hh & Hseen & Hpre).
    exists pre, h, post. split; [exact Hh|]. split; [exact Hseen|].
    intros g Hg. rewrite firstn_app.
    replace (i - length (map (push font) baskets)) with 0 by lia.
    cbn [firstn]. rewrite app_nil_r. now apply Hpre.
  - rewrite nth_error_app2 in Hb by exact Hi.
    destruct (i - length (map (push font) baskets)) as [|k] eqn:Hk;
      [|destruct k; discriminate].
    injection Hb as <-.
    exists seen, font, []. split; [reflexivity|]. split; [reflexivity|].
    intros g Hg. rewrite firstn_app, Hk. cbn [firstn]. rewrite app_nil_r.
    rewrite firstn_all2 by exact Hi.
    rewrite existsb_pushed. now apply Hcover.
Qed.

Lemma fillBaskets_arrival (fonts : list Font) :
  forall seen baskets,
    basketsOf isEqual seen baskets ->
    inOrderOfArrival isEqual seen baskets ->
    inOrderOfArrival isEqual (seen ++ fonts) (fold_left (addToBaskets isEqual) fonts baskets).
Proof.
  induction fonts as [|font fonts IH]; intros seen baskets Hinv Horder; cbn [fold_left].
  - now rewrite app_nil_r.
  - replace (seen ++ font :: fonts) with ((seen ++ [font]) ++ fonts)
      by (now rewrite <- app_assoc).
    apply IH.
    + now apply MostCommonFontFacts.addToBaskets_invariant.
    + now apply addToBaskets_arrival.
Qed.

(** Among the fonts used most often the one that comes first wins: with
    [Font.isEqual] an equivalence, the result of [getMostCommonFont] stands in
    the list after fonts of strictly smaller classes only, and no font after
    it has a larger class. *)
Theorem getMostCommonFont_first_of_largest (theFonts : list Font) :
  theFonts <> [] ->
  exists pre post,
    theFonts = pre ++ getMostCommonFont isEqual undefinedFont theFonts :: post
    /\ (forall g, In g pre ->
          classSize isEqual g theFonts
          < classSize isEqual (getMostCommonFont isEqual undefinedFont theFonts) theFonts)
    /\ (forall g, In g post ->
          classSize isEqual g theFonts
          <= classSize isEqual (getMostCommonFont isEqual undefinedFont theFonts) theFonts).
Proof.
  intros Hne. unfold getMostCommonFont.
  rewrite MostCommonFontFacts.fold_left_snoc. cbn [app].
  pose proof (MostCommonFontFacts.fillBaskets_classes isEqual isEqual_refl isEqual_sym
                isEqual_trans theFonts) as Hinv.
  assert (Horder : inOrderOfArrival isEqual theFonts (fillBaskets isEqual theFonts)).
  { apply (fillBaskets_arrival theFonts [] []).
    - repeat split; [constructor|intros f []|constructor].
    - intros i b Hb. destruct i; discriminate. }
  destruct Hinv as (Hclass & Hcover & _). rewrite Forall_forall in Hclass.
  assert (Hsize : forall g b, In b (fillBaskets isEqual theFonts) ->
             headEquals isEqual g b = true -> classSize isEqual g theFonts = length b).
  { intros g b Hb Hhead. destruct (Hclass b Hb) as (f & Hf & Hfilter).
    destruct b as [|f' b]; [discriminate|]. injection Hf as ->.
    cbn [headEquals] in Hhead. unfold classSize.
    rewrite (MostCommonFontFacts.same_class isEqual isEqual_sym isEqual_trans f g _ Hhead).
    now rewrite <- Hfilter. }
  destruct (sort byLengthDesc (fillBaskets isEqual theFonts)) as [|b0 rest] eqn:Hs.
  { exfalso. destruct theFonts as [|f fs]; [congruence|].
    specialize (Hcover f (or_introl eq_refl)).
    apply existsb_exists in Hcover as (b & Hb & _).
    apply (sort_In byLengthDesc) in Hb. rewrite Hs in Hb. destruct Hb. }
  destruct (sort_head_first byLengthDesc MostCommonFontFacts.byLengthDesc_total
              MostCommonFontFacts.byLengthDesc_trans _ _ _ Hs)
    as (Bpre & Bpost & HB & Hbefore & Hafter).
  assert (Hb0 : In b0 (fillBaskets isEqual theFonts))
    by (rewrite HB; apply in_elt).
  destruct (Horder (length Bpre) b0) as (pre & h & post & Hh & Hfonts & Hpre).
  { rewrite HB, nth_error_app2, Nat.sub_diag by lia. reflexivity. }
  destruct b0 as [|f b0]; [discriminate|]. injection Hh as <-.
  assert (Hf : classSize isEqual f theFonts = length (f :: b0)).
  { apply Hsize; [exact Hb0|]. cbn [headEquals]. apply isEqual_refl. }
  exists pre, post. split; [exact Hfonts|]. rewrite Hf. split.
  - intros g Hg. specialize (Hpre g Hg).
    rewrite HB, firstn_app, Nat.sub_diag, firstn_all in Hpre.
    cbn [firstn] in Hpre. rewrite app_nil_r in Hpre.
    apply existsb_exists in Hpre as (b & Hb & Hhead).
    rewrite (Hsize g b); [|rewrite HB; apply in_or_app; now left|exact Hhead].
    specialize (Hbefore b Hb). unfold byLengthDesc in Hbefore. lia.
  - intros g Hg.
    assert (Hin : In g theFonts)
      by (rewrite Hfonts; apply in_or_app; right; now right).
    specialize (Hcover g Hin). apply existsb_exists in Hcover as (b & Hb & Hhead).
    rewrite (Hsize g b Hb Hhead).
    rewrite HB in Hb. apply in_app_or in Hb as [Hb|[<-|Hb]].
    + specialize (Hbefore b Hb). unfold byLengthDesc in Hbefore. lia.
    + lia.
    + specialize (Hafter b Hb). unfold byLengthDesc in Hafter. lia.
Qed.

End Arrival.

Import Samples MoreSamples.

Lemma getMostCommonFont_member_witness :
  getMostCommonFont neverEqual (namedFont EmptyString) tiedFonts = namedFont "Arial"
  /\ In (getMostCommonFont neverEqual (namedFont EmptyString) tiedFonts) tiedFonts.
Proof.
  split; [reflexivity|].
  apply (getMostCommonFont_member neverEqual (namedFont EmptyString) tiedFonts).
  discriminate.
Defined.

Lemma getMostCommonFont_first_of_largest_witness :
  getMostCommonFont sameName (namedFont EmptyString) tiedFonts = namedFont "Arial"
  /\ exists pre post,
       tiedFonts = pre ++ getMostCommonFont sameName (namedFont EmptyString) tiedFonts :: post
       /\ (forall g, In g pre ->
             classSize sameName g tiedFonts
             < classSize sameName
                 (getMostCommonFont sameName (namedFont EmptyString) tiedFonts) tiedFonts)
       /\ (forall g, In g post ->
             classSize sameName g tiedFonts
             <= classSize sameName
                  (getMostCommonFont sameName (namedFont EmptyString) tiedFonts) tiedFonts).
Proof.
  split; [reflexivity|].
  apply (getMostCommonFont_first_of_largest sameName (namedFont EmptyString)
           MostCommonFontFacts.sameName_refl MostCommonFontFacts.sameName_sym
           MostCommonFontFacts.sameName_trans tiedFonts).
  discriminate.
Defined.

End FontFacts.

(** ** The batches of [extractFile] *)

Module BatchFacts.
Import PdfminerExtractor PdfminerBatches.

Lemma mapi_app {A B} (f : A -> nat -> B) (l1 l2 : list A) :
  forall i, mapi f i (l1 ++ l2) = mapi f i l1 ++ mapi f (i + length l1) l2.
Proof.
  induction l1 as [|a l1 IH]; intros i; cbn [mapi app length].
  - now rewrite Nat.add_0_r.
  - rewrite IH. now rewrite Nat.add_succ_r.
Qed.

Lemma shifted_seq (c len : nat) :
  forall a,
    map (fun el => (el + Z.of_nat c + 1)%Z) (map Z.of_nat (seq a len))
    = map Z.of_nat (seq (a + c + 1) len).
Proof.
  induction len as [|len IH]; intros a; cbn [seq map]; [reflexivity|].
  rewrite IH. f_equal. lia.
Qed.

Lemma seq_up_to (t : Z) (len : nat) :
  (0 <= t)%Z ->
  forall s,
    filter (fun el => (el <=? t)%Z) (map Z.of_nat (seq s len))
    = map Z.of_nat (seq s (Nat.min len (Z.to_nat t + 1 - s))).
Proof.
  intros Ht.
  induction len as [|len IH]; intros s; cbn [seq map filter]; [reflexivity|].
  rewrite IH. destruct (Z.of_nat s <=? t)%Z eqn:Hle.
  - apply Z.leb_le in Hle.
    replace (Nat.min (S len) (Z.to_nat t + 1 - s))
      with (S (Nat.min len (Z.to_nat t + 1 - S s))) by lia.
    reflexivity.
  - apply Z.leb_gt in Hle.
    replace (Nat.min len (Z.to_nat t + 1 - S s)) with 0 by lia.
    replace (Nat.min (S len) (Z.to_nat t + 1 - s)) with 0 by lia.
    reflexivity.
Qed.

(** The string of [pagesToExtract] is the page numbers of the batch, joined
    with commas. *)
Lemma pagesToExtract_joins (pageIndex maxPages : Z) (totalPages : option Z) :
  pagesToExtract pageIndex maxPages totalPages
  = String.concat "," (map numberToString (pagesOfBatch pageIndex maxPages totalPages)).
Proof. reflexivity. Qed.

(** Batch [k + 1] asks for the pages after [k * maxPages], up to
    [maxPages] of them and no page after the last. *)
Lemma pagesOfBatch_seq (maxPages t : Z) (k : nat) :
  (0 <= maxPages)%Z -> (0 <= t)%Z ->
  pagesOfBatch (1 + Z.of_nat k) maxPages (Some t)
  = map Z.of_nat
      (seq (k * Z.to_nat maxPages + 1)
         (Nat.min (Z.to_nat maxPages) (Z.to_nat t - k * Z.to_nat maxPages))).
Proof.
  intros Hm Ht. unfold pagesOfBatch, leTotal. cbv zeta.
  replace ((1 + Z.of_nat k - 1) * maxPages)%Z
    with (Z.of_nat (k * Z.to_nat maxPages)) by lia.
  rewrite shifted_seq. cbn [Nat.add].
  rewrite seq_up_to by exact Ht.
  do 2 f_equal. lia.
Qed.

Lemma pieces_of_seq (m t : nat) (n : nat) :
  concat (map (fun k => seq (k * m + 1) (Nat.min m (t - k * m))) (seq 0 n))
  = seq 1 (Nat.min (n * m) t).
Proof.
  induction n as [|n IH]; [reflexivity|].
  rewrite seq_S, map_app, concat_app, IH. cbn [Nat.add map concat].
  rewrite app_nil_r.
  destruct (Nat.le_gt_cases (n * m) t) as [Hle|Hgt].
  - replace (Nat.min (S n * m) t) with (Nat.min (n * m) t + Nat.min m (t - n * m)) by lia.
    rewrite seq_app. do 2 f_equal. lia.
  - replace (Nat.min m (t - n * m)) with 0 by lia. cbn [seq]. rewrite app_nil_r.
    f_equal. lia.
Qed.

(** From batch 1 on, as [run] starts it, the batches up to the one after
    which [extractFile] stops ask for every page of the file once, in
    order: together they ask for the pages 1 to [totalPages]. *)
Theorem batches_ask_for_every_page_once (maxPages t : Z) (n : nat) :
  (0 < maxPages)%Z -> (0 <= t)%Z ->
  moreBatches (Z.of_nat n) maxPages (Some t) = false ->
  concat (map (fun k => pagesOfBatch (1 + Z.of_nat k) maxPages (Some t)) (seq 0 n))
  = map Z.of_nat (seq 1 (Z.to_nat t)).
Proof.
  intros Hm Ht Hstop.
  rewrite (map_ext _ (fun k => map Z.of_nat
             (seq (k * Z.to_nat maxPages + 1)
                (Nat.min (Z.to_nat maxPages) (Z.to_nat t - k * Z.to_nat maxPages)))))
    by (intros k; apply pagesOfBatch_seq; lia).
  rewrite <- (map_map (fun k => seq (k * Z.to_nat maxPages + 1)
                         (Nat.min (Z.to_nat maxPages) (Z.to_nat t - k * Z.to_nat maxPages)))
                (map Z.of_nat)).
  rewrite <- concat_map, pieces_of_seq.
  unfold moreBatches in Hstop.
  destruct (t >? Z.of_nat n * maxPages - 1 + 1)%Z eqn:Hgt; [discriminate|].
  assert (t <= Z.of_nat n * maxPages)%Z by (rewrite Z.gtb_ltb in Hgt; apply Z.ltb_ge in Hgt; lia).
  do 2 f_equal. nia.
Qed.

Section Runs.

Variables Element Json : Type.
Variable extractPages : string -> option string -> result string.
Variable xmlParser : string -> result Json.
Variable jsParser : Json -> result (Document Element).

Let extract := extractFile Element Json extractPages xmlParser jsParser.
Let parse := parseBatch Element Json extractPages xmlParser jsParser.
Let parsed := batchesParsed Element Json extractPages xmlParser jsParser.

Lemma renumber_app_renumber (a b : list (Page Element)) :
  renumber Element (renumber Element a ++ b) = renumber Element (a ++ b).
Proof.
  unfold renumber. rewrite !mapi_app, mapi_length. f_equal.
  generalize 0. induction a as [|p a IH]; intros i; cbn [mapi]; [reflexivity|].
  now rewrite IH.
Qed.

Lemma withPages_again (document : Document Element) (a b : list (Page Element)) :
  withPages Element (withPages Element document a) (pages (withPages Element document a) ++ b)
  = withPages Element document (a ++ b).
Proof.
  unfold withPages. cbn [pages inputFile assetsFolder]. now rewrite renumber_app_renumber.
Qed.

Lemma extractFile_step (fuel : nat) (file : string) (pageIndex maxPages : Z)
    (totalPages : option Z) (document : Document Element) :
  extract (S fuel) file pageIndex maxPages totalPages document
  = match parse file pageIndex maxPages totalPages with
    | Throw e => Some (Throw e)
    | Ok doc =>
        if moreBatches pageIndex maxPages totalPages
        then extract fuel file (pageIndex + 1)%Z maxPages totalPages
               (withPages Element document (pages document ++ pages doc))
        else Some (Ok (withPages Element document (pages document ++ pages doc)))
    end.
Proof. reflexivity. Qed.

Lemma batchesParsed_tail (file : string) (pageIndex maxPages : Z) (totalPages : option Z)
    (d : Document Element) (docs : list (Document Element)) :
  parsed file pageIndex maxPages totalPages (d :: docs) ->
  parse file pageIndex maxPages totalPages = Ok d
  /\ parsed file (pageIndex + 1)%Z maxPages totalPages docs.
Proof.
  intros H. split.
  - specialize (H 0 d eq_refl). now rewrite Z.add_0_r in H.
  - intros k d' Hk. specialize (H (S k) d' Hk).
    replace (pageIndex + 1 + Z.of_nat k)%Z with (pageIndex + Z.of_nat (S k))%Z by lia.
    exact H.
Qed.

Lemma batchesFollow_tail (pageIndex maxPages : Z) (totalPages : option Z) (n : nat) :
  batchesFollow pageIndex maxPages totalPages (S n) ->
  moreBatches pageIndex maxPages totalPages = true
  /\ batchesFollow (pageIndex + 1)%Z maxPages totalPages n.
Proof.
  intros H. split.
  - specialize (H 0 ltac:(lia)). now rewrite Z.add_0_r in H.
  - intros k Hk. specialize (H (S k) ltac:(lia)).
    replace (pageIndex + 1 + Z.of_nat k)%Z with (pageIndex + Z.of_nat (S k))%Z by lia.
    exact H.
Qed.

(** After batches that are parsed and each followed by another, the run
    goes on from the next batch with their pages appended. *)
Lemma extractFile_run (docs : list (Document Element)) :
  forall fuel file pageIndex maxPages totalPages document,
    docs <> [] ->
    parsed file pageIndex maxPages totalPages docs ->
    batchesFollow pageIndex maxPages totalPages (length docs) ->
    extract (length docs + fuel) file pageIndex maxPages totalPages document
    = extract fuel file (pageIndex + Z.of_nat (length docs))%Z maxPages totalPages
        (withPages Element document (pages document ++ concat (map pages docs))).
Proof.
  induction docs as [|d docs IH];
    intros fuel file pageIndex maxPages totalPages document Hne Hparsed Hfollow;
    [congruence|].
  apply batchesParsed_tail in Hparsed as (Hd & Hparsed).
  apply batchesFollow_tail in Hfollow as (Hmore & Hfollow).
  cbn [length Nat.add]. rewrite extractFile_step, Hd, Hmore.
  destruct docs as [|d' docs].
  - cbn [length Nat.add map concat]. rewrite app_nil_r. f_equal; lia.
  - rewrite (IH fuel file (pageIndex + 1)%Z maxPages totalPages _ ltac:(discriminate)
               Hparsed Hfollow).
    rewrite withPages_again, <- app_assoc. cbn [map concat]. f_equal; lia.
Qed.

(** The document that [extractFile] resolves to holds the pages of the
    document it was given and then the pages of every batch, batch after
    batch and in the order of each batch, numbered anew; nothing else of
    the document changes. *)
Theorem extractFile_appends_batches (docs : list (Document Element)) (last : Document Element)
    (fuel : nat) (file : string) (pageIndex maxPages : Z) (totalPages : option Z)
    (document : Document Element) :
  parsed file pageIndex maxPages totalPages (docs ++ [last]) ->
  batchesFollow pageIndex maxPages totalPages (length docs) ->
  moreBatches (pageIndex + Z.of_nat (length docs)) maxPages totalPages = false ->
  length docs < fuel ->
  extract fuel file pageIndex maxPages totalPages document
  = Some (Ok (withPages Element document
                (pages document ++ concat (map pages (docs ++ [last]))))).
Proof.
  intros Hparsed Hfollow Hstop Hfuel.
  assert (Hlast : parse file (pageIndex + Z.of_nat (length docs))%Z maxPages totalPages
                  = Ok last).
  { apply Hparsed. rewrite nth_error_app2, Nat.sub_diag by lia. reflexivity. }
  assert (Hdocs : parsed file pageIndex maxPages totalPages docs).
  { intros k d Hk. apply Hparsed. rewrite nth_error_app1; [exact Hk|].
    apply nth_error_Some. congruence. }
  replace fuel with (length docs + S (fuel - length docs - 1)) by lia.
  destruct docs as [|d docs].
  - cbn [length Nat.add app map concat] in *. rewrite extractFile_step.
    rewrite Z.add_0_r in Hlast, Hstop. rewrite Hlast, Hstop, app_nil_r. reflexivity.
  - rewrite (extractFile_run (d :: docs) _ file pageIndex maxPages totalPages document
               ltac:(discriminate) Hdocs Hfollow).
    rewrite extractFile_step, Hlast, Hstop, withPages_again.
    rewrite map_app, concat_app, <- app_assoc. cbn [map concat]. rewrite app_nil_r.
    reflexivity.
Qed.

(** When a batch fails, [extractFile] is rejected with the error of that
    batch, the first that fails: the pages of the batches before it are not
    returned. *)
Theorem extractFile_first_failure (docs : list (Document Element)) (e : Error)
    (fuel : nat) (file : string) (pageIndex maxPages : Z) (totalPages : option Z)
    (document : Document Element) :
  parsed file pageIndex maxPages totalPages docs ->
  batchesFollow pageIndex maxPages totalPages (length docs) ->
  parse file (pageIndex + Z.of_nat (length docs))%Z maxPages totalPages = Throw e ->
  length docs < fuel ->
  extract fuel file pageIndex maxPages totalPages document = Some (Throw e).
Proof.
  intros Hparsed Hfollow Hfail Hfuel.
  replace fuel with (length docs + S (fuel - length docs - 1)) by lia.
  destruct docs as [|d docs].
  - cbn [length Nat.add] in *. rewrite extractFile_step.
    rewrite Z.add_0_r in Hfail. now rewrite Hfail.
  - rewrite (extractFile_run (d :: docs) _ file pageIndex maxPages totalPages document
               ltac:(discriminate) Hparsed Hfollow).
    rewrite extractFile_step. now rewrite Hfail.
Qed.

End Runs.

Import Samples MoreSamples.

Lemma batches_ask_for_every_page_once_witness :
  concat (map (fun k => pagesOfBatch (1 + Z.of_nat k) 2 (Some 5%Z)) (seq 0 3))
  = [1; 2; 3; 4; 5]%Z.
Proof.
  apply (batches_ask_for_every_page_once 2 5 3); [lia|lia|reflexivity].
Defined.

Lemma extractFile_appends_batches_witness :
  batchesParsed unit (list string) sampleExtractPages sampleXmlParser sampleJsParser
    "in.pdf" 1%Z 2%Z (Some 5%Z) ([sampleBatch 2; sampleBatch 2] ++ [sampleBatch 1])
  /\ sampleExtractFile 3 "in.pdf" 1%Z 2%Z (Some 5%Z) emptyDocument
     = Some (Ok (withPages unit emptyDocument
                   (pages emptyDocument
                    ++ concat (map pages ([sampleBatch 2; sampleBatch 2] ++ [sampleBatch 1]))))).
Proof.
  assert (Hparsed : batchesParsed unit (list string) sampleExtractPages sampleXmlParser
                      sampleJsParser "in.pdf" 1%Z 2%Z (Some 5%Z)
                      ([sampleBatch 2; sampleBatch 2] ++ [sampleBatch 1])).
  { intros [|[|[|k]]] d Hd; try (destruct k; discriminate);
      injection Hd as <-; reflexivity. }
  split; [exact Hparsed|].
  apply (extractFile_appends_batches unit (list string) sampleExtractPages sampleXmlParser
           sampleJsParser [sampleBatch 2; sampleBatch 2] (sampleBatch 1) 3 "in.pdf"
           1%Z 2%Z (Some 5%Z) emptyDocument Hparsed).
  - intros [|[|k]] Hk; [reflexivity|reflexivity|cbn in Hk; lia].
  - reflexivity.
  - cbn. lia.
Defined.

Lemma extractFile_first_failure_witness :
  extractFile unit (list string) failingExtractPages sampleXmlParser sampleJsParser
    3 "in.pdf" 1%Z 2%Z (Some 5%Z) emptyDocument
  = Some (Throw (ToolError "pdf2txt")).
Proof.
  apply (extractFile_first_failure unit (list string) failingExtractPages sampleXmlParser
           sampleJsParser [sampleBatch 2] (ToolError "pdf2txt") 3 "in.pdf"
           1%Z 2%Z (Some 5%Z) emptyDocument).
  - intros [|k] d Hd; [|destruct k; discriminate]. injection Hd as <-. reflexivity.
  - intros [|k] Hk; [reflexivity|cbn in Hk; lia].
  - reflexivity.
  - cbn. lia.
Defined.

End BatchFacts.

(** ** Pages *)

Module PageFacts.
Import Pdfminer PdfminerLines PdfminerPages.

Lemma bind_throws {A B} (m : result A) (k : A -> result B) (e : Error) :
  (do a <- m; k a) = Throw e
  <-> m = Throw e \/ exists a, m = Ok a /\ k a = Throw e.
Proof.
  destruct m as [a|e']; cbn [bind].
  - split; [eauto|]. intros [H|(a' & [= <-] & H)]; [discriminate|exact H].
  - split; [intros [= <-]; now left|].
    intros [[= <-]|(a' & H & _)]; [reflexivity|discriminate].
Qed.

Lemma bind_ok {A B} (m : result A) (k : A -> result B) (b : B) :
  (do a <- m; k a) = Ok b <-> exists a, m = Ok a /\ k a = Ok b.
Proof.
  destruct m as [a|e']; cbn [bind].
  - split; [eauto|]. intros (a' & [= <-] & H). exact H.
  - split; [discriminate|]. intros (a' & H & _). discriminate.
Qed.

Lemma mapM_app {A B} (g : A -> result B) (l1 l2 : list A) :
  mapM g (l1 ++ l2) = do a <- mapM g l1; do b <- mapM g l2; Ok (a ++ b).
Proof.
  induction l1 as [|x l1 IH]; cbn [app mapM].
  - destruct (mapM g l2); reflexivity.
  - destruct (g x) as [y|e]; cbn [bind]; [|reflexivity].
    rewrite IH. destruct (mapM g l1) as [ys|e]; cbn [bind]; [|reflexivity].
    destruct (mapM g l2); reflexivity.
Qed.

(** A loop that appends what each round yields is a [map] followed by a
    flattening. *)
Lemma foldM_append {A B} (f : list B -> A -> result (list B)) (g : A -> result (list B))
    (l : list A) :
  (forall acc x, f acc x = do ys <- g x; Ok (acc ++ ys)) ->
  forall acc, foldM f l acc = do yss <- mapM g l; Ok (acc ++ concat yss).
Proof.
  intros Hf. induction l as [|x l IH]; intros acc; cbn [foldM mapM bind concat].
  - now rewrite app_nil_r.
  - rewrite Hf. destruct (g x) as [ys|e]; cbn [bind]; [|reflexivity].
    rewrite IH. destruct (mapM g l) as [yss|e]; cbn [bind concat]; [|reflexivity].
    now rewrite app_assoc.
Qed.

(** Two loops, one inside the other, are one loop over all inner items. *)
Lemma foldM_nested {A B C} (inner : A -> list B) (f : list C -> B -> result (list C))
    (g : B -> result (list C)) (l : list A) :
  (forall acc y, f acc y = do zs <- g y; Ok (acc ++ zs)) ->
  forall acc,
    foldM (fun acc x => foldM f (inner x) acc) l acc
    = do zss <- mapM g (flat_map inner l); Ok (acc ++ concat zss).
Proof.
  intros Hf. induction l as [|x l IH]; intros acc; cbn [foldM flat_map].
  - cbn. now rewrite app_nil_r.
  - rewrite (foldM_append f g _ Hf), mapM_app.
    destruct (mapM g (inner x)) as [zs|e]; cbn [bind]; [|reflexivity].
    rewrite IH. destruct (mapM g (flat_map inner l)) as [zss|e]; cbn [bind]; [|reflexivity].
    now rewrite concat_app, app_assoc.
Qed.

Lemma mapM_throws {A B} (g : A -> result B) (P : A -> Prop) (l : list A) :
  (forall x e, g x = Throw e <-> e = TypeError /\ P x) ->
  forall e, mapM g l = Throw e <-> e = TypeError /\ exists x, In x l /\ P x.
Proof.
  intros Hg. induction l as [|x l IH]; intros e; cbn [mapM].
  - split; [discriminate|]. intros (_ & x & [] & _).
  - rewrite bind_throws, Hg. split.
    + intros [(He & Hx)|(y & _ & H)].
      * split; [exact He|]. exists x. split; [now left|exact Hx].
      * apply bind_throws in H as [H|(ys & _ & H)]; [|discriminate].
        apply IH in H as (He & x' & Hin & Hx'). split; [exact He|].
        exists x'. split; [now right|exact Hx'].
    + intros (He & x' & [<-|Hin] & Hx'); [now left|].
      destruct (g x) as [y|e'] eqn:Hgx.
      * right. exists y. split; [reflexivity|]. apply bind_throws. left.
        apply IH. eauto.
      * left. apply Hg in Hgx as (_ & Hx). now split.
Qed.

Lemma mapM_ok {A B} (g : A -> result B) (l : list A) :
  forall ys, mapM g l = Ok ys -> Forall2 (fun x y => g x = Ok y) l ys.
Proof.
  induction l as [|x l IH]; intros ys; cbn [mapM].
  - intros [= <-]. constructor.
  - destruct (g x) as [y|e] eqn:Hgx; cbn [bind]; [|discriminate].
    destruct (mapM g l) as [ys'|e]; cbn [bind]; [|discriminate].
    intros [= <-]. constructor; [exact Hgx|now apply IH].
Qed.

Lemma Forall2_result {A B} (R : A -> B -> Prop) (l : list A) (l' : list B) (y : B) :
  Forall2 R l l' -> In y l' -> exists x, In x l /\ R x y.
Proof.
  induction 1 as [|x y' l l' Hxy _ IH]; intros Hin; [destruct Hin|].
  destruct Hin as [<-|Hin].
  - exists x. split; [now left|exact Hxy].
  - destruct (IH Hin) as (x' & Hx' & HR). exists x'. split; [now right|exact HR].
Qed.

Lemma read_throws {A} (v : option A) (e : Error) :
  read v = Throw e <-> e = TypeError /\ v = None.
Proof.
  destruct v; cbn.
  - split; [discriminate|]. intros [_ H]. discriminate.
  - split; [intros [= <-]; auto|]. now intros [-> _].
Qed.

Section Pages.

Variable isEqual : Font -> Font -> bool.
Variable undefinedFont : Font.
Variable ncolourToHex : string -> string.

Let breakLine := breakLineIntoWords isEqual undefinedFont ncolourToHex.

(** What a line, a text box and a figure add to the elements of a page. *)
Let lineElements (pageHeight : number) (texts : list PdfminerText) : result (list Element) :=
  do words <- breakLine texts "," pageHeight (Some 1%Q);
  Ok (map WordElement words).

Let textlineElements (pageHeight : number) (line : PdfminerTextline)
    : result (list Element) :=
  do texts <- read (lineText line);
  lineElements pageHeight texts.

Let textboxElements (pageHeight : number) (para : PdfminerTextbox)
    : result (list Element) :=
  do lines <- read (textline para);
  do found <- mapM (textlineElements pageHeight) lines;
  Ok (concat found).

Let imageElements (imgsRefTable : RefTable) (idFilenameMap : string -> option string)
    (pageHeight : number) (fig : PdfminerFigure) : result (list Element) :=
  match image fig with
  | Some _ =>
      do images <- interpretImages fig imgsRefTable idFilenameMap pageHeight (Some 1%Q);
      Ok (map ImageElement images)
  | None => Ok []
  end.

Let figureElements (imgsRefTable : RefTable) (idFilenameMap : string -> option string)
    (pageHeight : number) (fig : PdfminerFigure) : result (list Element) :=
  do images <- imageElements imgsRefTable idFilenameMap pageHeight fig;
  do words <- match figureText fig with
              | Some texts => lineElements pageHeight texts
              | None => Ok []
              end;
  Ok (images ++ words).

Let boxOf (bbox : string) : BoundingBox :=
  let boxValues := map parseFloat (split "," bbox) in
  mkBoundingBox (at_index boxValues 0) (at_index boxValues 1)
    (at_index boxValues 2) (at_index boxValues 3).

(** [getPage] as two maps. *)
Lemma getPage_maps (pageObj : PdfminerPage) (imgsRefTable : RefTable)
    (idFilenameMap : string -> option string) :
  getPage isEqual undefinedFont ncolourToHex pageObj imgsRefTable idFilenameMap
  = do attr <- read (pageAttr pageObj);
    do bbox <- read (pageBbox attr);
    do boxes <- mapM (textboxElements (height (boxOf bbox))) (textboxesOf pageObj);
    do figures <-
      mapM (figureElements imgsRefTable idFilenameMap (height (boxOf bbox)))
        (figuresOf pageObj);
    Ok (mkPage (parseFloatOf (pageId attr)) (concat boxes ++ concat figures)
          (boxOf bbox)).
Proof.
  unfold getPage, textboxesOf, figuresOf. cbv zeta.
  destruct (pageAttr pageObj) as [attr|]; cbn [read bind]; [|reflexivity].
  destruct (pageBbox attr) as [bbox|]; cbn [read bind]; [|reflexivity].
  fold (boxOf bbox). set (h := height (boxOf bbox)).
  assert (Hlines :
    forall lines acc,
      foldM (fun elements line =>
               do texts <- read (lineText line);
               do words <- breakLineIntoWords isEqual undefinedFont ncolourToHex
                             texts "," h (Some 1%Q);
               Ok (elements ++ map WordElement words)) lines acc
      = do found <- mapM (textlineElements h) lines; Ok (acc ++ concat found)).
  { intros lines acc. apply foldM_append. intros acc' line.
    unfold textlineElements, lineElements, breakLine.
    destruct (lineText line); cbn [read bind]; [|reflexivity].
    destruct (breakLineIntoWords _ _ _ _ _ _ _); reflexivity. }
  assert (Hboxes :
    forall boxes acc,
      foldM (fun elements para =>
               do lines <- read (textline para);
               foldM (fun elements line =>
                        do texts <- read (lineText line);
                        do words <- breakLineIntoWords isEqual undefinedFont ncolourToHex
                                      texts "," h (Some 1%Q);
                        Ok (elements ++ map WordElement words)) lines elements)
        boxes acc
      = do found <- mapM (textboxElements h) boxes; Ok (acc ++ concat found)).
  { intros boxes acc. apply foldM_append. intros acc' para.
    unfold textboxElements.
    destruct (textline para) as [lines|]; cbn [read bind]; [|reflexivity].
    rewrite Hlines. destruct (mapM _ lines); reflexivity. }
  assert (Hfigures :
    forall figs acc,
      foldM (fun elements fig =>
               do elements <-
                 match image fig with
                 | Some _ =>
                     do images <- interpretImages fig imgsRefTable idFilenameMap h (Some 1%Q);
                     Ok (elements ++ map ImageElement images)
                 | None => Ok elements
                 end;
               match figureText fig with
               | Some texts =>
                   do words <- breakLineIntoWords isEqual undefinedFont ncolourToHex
                                 texts "," h (Some 1%Q);
                   Ok (elements ++ map WordElement words)
               | None => Ok elements
               end) figs acc
      = do zss <- mapM (figureElements imgsRefTable idFilenameMap h) figs;
        Ok (acc ++ concat zss)).
  { intros figs acc. apply foldM_append. intros acc' fig.
    unfold figureElements, imageElements, lineElements, breakLine.
    destruct (image fig); cbn [bind].
    - destruct (interpretImages _ _ _ _ _); cbn [bind]; [|reflexivity].
      destruct (figureText fig); cbn [bind].
      + destruct (breakLineIntoWords _ _ _ _ _ _ _); cbn [bind]; [|reflexivity].
        now rewrite app_assoc.
      + now rewrite app_nil_r.
    - destruct (figureText fig); cbn [bind app].
      + destruct (breakLineIntoWords _ _ _ _ _ _ _); reflexivity.
      + now rewrite app_nil_r. }
  destruct (textbox pageObj) as [boxes|].
  - rewrite Hboxes.
    destruct (mapM _ boxes) as [found|e]; cbn [bind app]; [|reflexivity].
    destruct (figure pageObj) as [figs|].
    + rewrite Hfigures. destruct (mapM _ figs); reflexivity.
    + cbn. now rewrite app_nil_r.
  - cbn [mapM bind concat app].
    destruct (figure pageObj) as [figs|].
    + rewrite Hfigures. destruct (mapM _ figs); reflexivity.
    + reflexivity.
Qed.

(** The boxes of the images of a figure cannot be built exactly when there
    is an image and no [bbox]. *)
Lemma imageBoxes_throw (attr : FigureAttr) (figureFilename : option string)
    (pageHeight scalingFactor : number) (imgs : list PdfminerImage) (e : Error) :
  mapM (fun _img : PdfminerImage =>
          do bbox <- read (figureBbox attr);
          Ok (mkImage (getBoundingBox bbox "," pageHeight scalingFactor) figureFilename))
    imgs = Throw e
  <-> e = TypeError /\ imgs <> [] /\ figureBbox attr = None.
Proof.
  destruct (figureBbox attr) as [bbox|]; cbn [read bind].
  - assert (Hbuilt : exists ims,
              mapM (fun _img : PdfminerImage =>
                      Ok (mkImage (getBoundingBox bbox "," pageHeight scalingFactor)
                            figureFilename)) imgs = Ok ims).
    { induction imgs as [|i imgs [ims IH]]; cbn [mapM bind]; [eauto|].
      rewrite IH. cbn [bind]. eauto. }
    destruct Hbuilt as [ims ->].
    split; [discriminate|]. intros (_ & _ & H). discriminate.
  - destruct imgs as [|i imgs]; cbn [mapM bind].
    + split; [discriminate|]. intros (_ & H & _). congruence.
    + split; [intros [= <-]; repeat split; discriminate|]. now intros (-> & _).
Qed.

Lemma interpretImages_throws (fig : PdfminerFigure) (imgsRefTable : RefTable)
    (idFilenameMap : string -> option string) (pageHeight scalingFactor : number)
    (e : Error) :
  image fig <> None ->
  interpretImages fig imgsRefTable idFilenameMap pageHeight scalingFactor = Throw e
  <-> e = TypeError /\ (unnamedFigure imgsRefTable fig \/ unplacedFigure fig).
Proof.
  intros Himage. unfold interpretImages, unnamedFigure, unplacedFigure. cbv zeta.
  destruct (image fig) as [imgs|]; [clear Himage|congruence].
  destruct (figureAttr fig) as [attr|]; cbn [read bind].
  2:{ split; [intros [= <-]; split; [reflexivity|right; eauto]|now intros (-> & _)]. }
  assert (Hplaced : forall (name : option string),
    mapM (fun _img : PdfminerImage =>
            do bbox <- read (figureBbox attr);
            Ok (mkImage (getBoundingBox bbox "," pageHeight scalingFactor) name))
      imgs = Throw e
    <-> e = TypeError
        /\ exists imgs', Some imgs = Some imgs' /\ imgs' <> [] /\ figureBbox attr = None).
  { intros name. rewrite imageBoxes_throw. split.
    - intros (He & Hne & Hbox). split; [exact He|]. exists imgs. auto.
    - intros (He & imgs' & [= <-] & Hne & Hbox). auto. }
  assert (Hnamed : forall (name : option string) (P : Prop),
    ~ P ->
    mapM (fun _img : PdfminerImage =>
            do bbox <- read (figureBbox attr);
            Ok (mkImage (getBoundingBox bbox "," pageHeight scalingFactor) name))
      imgs = Throw e
    <-> e = TypeError
        /\ ((Some imgs <> None /\ P)
            \/ exists imgs', Some imgs = Some imgs' /\ imgs' <> [] /\ figureBbox attr = None)).
  { intros name P HP. rewrite Hplaced. split.
    - intros (He & H). auto.
    - intros (He & [(_ & H)|H]); [contradiction|auto]. }
  destruct (figureName attr) as [n|] eqn:Hname.
  - destruct (String.eqb n EmptyString) eqn:Hn; cbn [negb andb bind].
    + apply String.eqb_eq in Hn. apply Hnamed.
      intros (_ & a & n' & Ha & Hn' & Hne & _).
      injection Ha as <-. rewrite Hname in Hn'. injection Hn' as <-. congruence.
    + apply String.eqb_neq in Hn.
      destruct (mode imgsRefTable); cbn [isMode0 isMode1 negb bind].
      * apply Hnamed. intros (H & _). discriminate.
      * destruct (firstDigits n) eqn:Hdigits; cbn [bind].
        -- apply Hnamed. intros (_ & a & n' & Ha & Hn' & _ & H).
           injection Ha as <-. rewrite Hname in Hn'. injection Hn' as <-. congruence.
        -- split.
           ++ intros [= <-]. split; [reflexivity|]. left.
              split; [discriminate|]. split; [reflexivity|].
              exists attr, n. auto.
           ++ now intros (-> & _).
      * apply Hnamed. intros (H & _). discriminate.
  - cbn [String.eqb negb andb bind]. apply Hnamed.
    intros (_ & a & n' & Ha & Hn' & _).
    injection Ha as <-. rewrite Hname in Hn'. discriminate.
Qed.

(** A line of text cannot be cut into words exactly when it is
    unreadable. *)
Lemma lineElements_throws (h : number) (texts : list PdfminerText) (e : Error) :
  lineElements h texts = Throw e <-> e = TypeError /\ unreadableLine texts.
Proof.
  unfold lineElements, breakLine.
  rewrite LineFacts.breakLineIntoWords_halves.
  rewrite <- (LineFacts.characters_throw ncolourToHex texts h (Some 1%Q)).
  destruct (mapM (toCharacter ncolourToHex h (Some 1%Q)) (keptTexts texts))
    as [chars0|e''] eqn:Hchars; cbn [bind].
  - destruct (LineFacts.wordsOfCharacters_runs isEqual undefinedFont
                (trimSeparators "," chars0)) as (ws & -> & _).
    cbn [bind]. split; discriminate.
  - split; intros [= <-]; reflexivity.
Qed.

Lemma textlineElements_throws (h : number) (line : PdfminerTextline) (e : Error) :
  textlineElements h line = Throw e <-> e = TypeError /\ brokenLine line.
Proof.
  unfold textlineElements, brokenLine.
  destruct (lineText line) as [texts|]; cbn [read bind].
  - apply lineElements_throws.
  - split; [intros [= <-]; auto|]. now intros (-> & _).
Qed.

Lemma textboxElements_throws (h : number) (para : PdfminerTextbox) (e : Error) :
  textboxElements h para = Throw e <-> e = TypeError /\ brokenTextbox para.
Proof.
  unfold textboxElements, brokenTextbox, textlinesOf.
  destruct (textline para) as [lines|]; cbn [read bind].
  - rewrite bind_throws.
    rewrite (mapM_throws _ brokenLine lines (textlineElements_throws h)). split.
    + intros [(He & Hbad)|(found & _ & H)]; [|discriminate]. auto.
    + intros (He & [H|Hbad]); [discriminate|]. left. auto.
  - split; [intros [= <-]; auto|]. now intros (-> & _).
Qed.

Lemma figureElements_throws (imgsRefTable : RefTable)
    (idFilenameMap : string -> option string) (h : number) (fig : PdfminerFigure)
    (e : Error) :
  figureElements imgsRefTable idFilenameMap h fig = Throw e
  <-> e = TypeError /\ brokenFigure imgsRefTable fig.
Proof.
  unfold figureElements, imageElements, brokenFigure.
  destruct (image fig) as [imgs|] eqn:Himage.
  - destruct (interpretImages fig imgsRefTable idFilenameMap h (Some 1%Q)) as [ims|e'']
      eqn:Himages; cbn [bind].
    + assert (Hfine : ~ (unnamedFigure imgsRefTable fig \/ unplacedFigure fig)).
      { intros Hbad.
        assert (Ok ims = Throw TypeError :> result (list Image)) as Habs; [|discriminate].
        rewrite <- Himages. apply interpretImages_throws; [congruence|now split]. }
      destruct (figureText fig) as [texts|]; cbn [bind].
      * rewrite bind_throws, lineElements_throws. split.
        -- intros [(He & Hbad)|(ws & _ & H)]; [|discriminate].
           split; [exact He|]. right. right. eauto.
        -- intros (He & [Hun|[Hun|(texts' & [= <-] & Hbad)]]); [tauto|tauto|now left].
      * split; [discriminate|].
        intros (_ & [Hun|[Hun|(texts' & H & _)]]); [tauto|tauto|discriminate].
    + apply interpretImages_throws in Himages as (-> & Hbad); [|congruence].
      split; [intros [= <-]; split; [reflexivity|tauto]|].
      intros (-> & _). reflexivity.
  - assert (Hnamed : ~ unnamedFigure imgsRefTable fig)
      by (intros (H & _); congruence).
    assert (Hplaced : ~ unplacedFigure fig)
      by (intros (imgs & H & _); congruence).
    cbn [bind app]. destruct (figureText fig) as [texts|]; cbn [bind].
    + rewrite bind_throws, lineElements_throws. split.
      * intros [(He & Hbad)|(ws & _ & H)]; [|discriminate].
        split; [exact He|]. right. right. eauto.
      * intros (He & [Hun|[Hun|(texts' & [= <-] & Hbad)]]); [tauto|tauto|now left].
    + split; [discriminate|].
      intros (_ & [Hun|[Hun|(texts' & H & _)]]); [tauto|tauto|discriminate].
Qed.

(** [getPage] throws exactly when the page has no [bbox] to read, when a
    text box has no line, when a line has no text record or has a record
    with text but without attributes, or when a figure is broken: it has
    images and is to be found by the digits of its name, of which the name
    has none; it has images and no attributes, or an image and no [bbox];
    or its text is unreadable.  What it throws is then a [TypeError], and
    the page is lost as a whole. *)
Theorem getPage_throws (pageObj : PdfminerPage) (imgsRefTable : RefTable)
    (idFilenameMap : string -> option string) (e : Error) :
  getPage isEqual undefinedFont ncolourToHex pageObj imgsRefTable idFilenameMap = Throw e
  <-> e = TypeError
      /\ (lacksBox pageObj
          \/ (exists para, In para (textboxesOf pageObj) /\ brokenTextbox para)
          \/ (exists fig, In fig (figuresOf pageObj) /\ brokenFigure imgsRefTable fig)).
Proof.
  rewrite getPage_maps. unfold lacksBox.
  destruct (pageAttr pageObj) as [attr|]; cbn [read bind].
  2:{ split; [intros [= <-]; auto|]. now intros (-> & _). }
  destruct (pageBbox attr) as [bbox|]; cbn [read bind].
  2:{ split; [intros [= <-]; auto|]. now intros (-> & _). }
  set (h := height (boxOf bbox)).
  rewrite bind_throws.
  rewrite (mapM_throws _ brokenTextbox _ (textboxElements_throws h)).
  assert (Hrest : forall boxes,
    (do figures <- mapM (figureElements imgsRefTable idFilenameMap h) (figuresOf pageObj);
     Ok (mkPage (parseFloatOf (pageId attr))
           (concat boxes ++ concat figures) (boxOf bbox))) = Throw e
    <-> e = TypeError
        /\ exists fig, In fig (figuresOf pageObj) /\ brokenFigure imgsRefTable fig).
  { intros boxes. rewrite bind_throws.
    rewrite (mapM_throws _ _ _ (figureElements_throws imgsRefTable idFilenameMap h)).
    split.
    - intros [H|(fs & _ & H)]; [exact H|discriminate].
    - now left. }
  split.
  - intros [(He & Hbad)|(boxes & _ & H)].
    + split; [exact He|]. right. now left.
    + apply Hrest in H as (He & Hbad). split; [exact He|]. right. now right.
  - intros (He & [Hbox|[Hbad|Hbad]]).
    + discriminate.
    + left. now split.
    + destruct (mapM (textboxElements h) (textboxesOf pageObj)) as [boxes|e'] eqn:Hboxes.
      * right. exists boxes. split; [reflexivity|]. apply Hrest. now split.
      * left.
        apply (mapM_throws _ brokenTextbox _ (textboxElements_throws h)) in Hboxes
          as (-> & Hbad').
        now split.
Qed.

(** Every word on a page that [getPage] returns has at least one
    character. *)
Theorem getPage_words_nonempty (pageObj : PdfminerPage) (imgsRefTable : RefTable)
    (idFilenameMap : string -> option string) (page : Page) (w : Word) :
  getPage isEqual undefinedFont ncolourToHex pageObj imgsRefTable idFilenameMap = Ok page ->
  In (WordElement w) (elements page) ->
  nonEmptyWord w.
Proof.
  rewrite getPage_maps.
  intros Hpage Hin.
  apply bind_ok in Hpage as (attr & _ & Hpage).
  apply bind_ok in Hpage as (bbox & _ & Hpage).
  set (h := height (boxOf bbox)) in *.
  assert (Hline : forall texts es,
             lineElements h texts = Ok es -> In (WordElement w) es -> nonEmptyWord w).
  { intros texts es Hes Hin'. unfold lineElements in Hes.
    apply bind_ok in Hes as (ws & Hws & [= <-]).
    apply in_map_iff in Hin' as (w' & Heq & Hin'). injection Heq as ->.
    unfold breakLine in Hws. rewrite LineFacts.breakLineIntoWords_halves in Hws.
    apply bind_ok in Hws as (chars0 & _ & Hws).
    apply LineFacts.wordsOfCharacters_nonEmpty in Hws.
    rewrite Forall_forall in Hws. now apply Hws. }
  apply bind_ok in Hpage as (boxes & Hboxes & Hpage).
  apply bind_ok in Hpage as (figures & Hfigures & [= <-]).
  cbn [elements] in Hin. apply in_app_or in Hin as [Hin|Hin];
    apply in_concat in Hin as (es & Hes & Hin).
  - apply mapM_ok in Hboxes.
    destruct (Forall2_result _ _ _ es Hboxes Hes) as (para & _ & Hpara).
    unfold textboxElements in Hpara.
    apply bind_ok in Hpara as (lines & _ & Hpara).
    apply bind_ok in Hpara as (found & Hfound & [= <-]).
    apply in_concat in Hin as (es' & Hes' & Hin).
    apply mapM_ok in Hfound.
    destruct (Forall2_result _ _ _ es' Hfound Hes') as (line & _ & Hline').
    unfold textlineElements in Hline'.
    apply bind_ok in Hline' as (texts & _ & Hline').
    exact (Hline _ _ Hline' Hin).
  - apply mapM_ok in Hfigures.
    destruct (Forall2_result _ _ _ es Hfigures Hes) as (fig & _ & Hfig).
    unfold figureElements, imageElements in Hfig.
    apply bind_ok in Hfig as (ims & His & Hfig).
    apply bind_ok in Hfig as (ws & Hws & [= <-]).
    apply in_app_or in Hin as [Hin|Hin].
    + destruct (image fig).
      * apply bind_ok in His as (imgs & _ & [= <-]).
        apply in_map_iff in Hin as (i & Hi & _). discriminate.
      * injection His as <-. destruct Hin.
    + destruct (figureText fig) as [texts|].
      * exact (Hline _ _ Hws Hin).
      * injection Hws as <-. destruct Hin.
Qed.

End Pages.

Import Samples MoreSamples.

Lemma getPage_throws_witness :
  getPage sameName (namedFont EmptyString) (fun s => s) unplacedFigurePage
    sampleRefTable sampleIdFilenameMap = Throw TypeError.
Proof.
  apply (getPage_throws sameName (namedFont EmptyString) (fun s => s)
           unplacedFigurePage sampleRefTable sampleIdFilenameMap TypeError).
  split; [reflexivity|]. right. right.
  eexists. split; [left; reflexivity|]. right. left.
  exists [pdfminerImage]. split; [reflexivity|]. split; [discriminate|reflexivity].
Defined.

Lemma getPage_words_nonempty_witness :
  exists page,
    getPage sameName (namedFont EmptyString) (fun s => s) samplePdfminerPage
      sampleRefTable sampleIdFilenameMap = Ok page
    /\ length (elements page) = 3
    /\ In (ImageElement
             (mkImage (mkBoundingBox (Some 10%Q) (Some 772%Q) (Some 100%Q) (Some 50%Q))
                (Some "/tmp/img-012.png")))
         (elements page)
    /\ forall w, In (WordElement w) (elements page) -> nonEmptyWord w.
Proof.
  eexists. split; [vm_compute; reflexivity|].
  split; [reflexivity|]. split; [cbn; auto|].
  intros w.
  apply (getPage_words_nonempty sameName (namedFont EmptyString) (fun s => s)
           samplePdfminerPage sampleRefTable sampleIdFilenameMap).
  vm_compute. reflexivity.
Defined.

End PageFacts.

(** ** The renamed font files *)

Module RenameFacts.
Import ExtractImagesFonts FontFiles.

Local Open Scope string_scope.

Lemma append_assoc (a b c : string) : (a ++ b) ++ c = a ++ (b ++ c).
Proof. induction a as [|x a IH]; cbn; [reflexivity|now rewrite IH]. Qed.

Lemma append_nil_r (a : string) : a ++ EmptyString = a.
Proof. induction a as [|x a IH]; cbn; [reflexivity|now rewrite IH]. Qed.

Lemma revOnto_append (s : string) : forall acc, revOnto s acc = revOnto s EmptyString ++ acc.
Proof.
  induction s as [|c s IH]; intros acc; cbn [revOnto]; [reflexivity|].
  rewrite IH, (IH (String c EmptyString)), append_assoc. reflexivity.
Qed.

Lemma revOnto_of_append (a b : string) :
  forall acc, revOnto (a ++ b) acc = revOnto b (revOnto a acc).
Proof.
  induction a as [|c a IH]; intros acc; cbn [revOnto append]; [reflexivity|].
  apply IH.
Qed.

Lemma revOnto_revOnto (s : string) :
  forall acc acc', revOnto (revOnto s acc) acc' = revOnto acc (s ++ acc').
Proof.
  induction s as [|c s IH]; intros acc acc'; cbn [revOnto append]; [reflexivity|].
  rewrite IH. reflexivity.
Qed.

Lemma rev_involutive (s : string) : revOnto (revOnto s EmptyString) EmptyString = s.
Proof. rewrite revOnto_revOnto. cbn. apply append_nil_r. Qed.

Lemma dropPrefix_append (p s : string) : dropPrefix p (p ++ s) = Some s.
Proof.
  induction p as [|c p IH]; cbn; [reflexivity|]. now rewrite Ascii.eqb_refl.
Qed.

Lemma dropPrefix_some (p : string) :
  forall s r, dropPrefix p s = Some r -> s = p ++ r.
Proof.
  induction p as [|c p IH]; intros s r; cbn [dropPrefix].
  - destruct s; intros [= <-]; reflexivity.
  - destruct s as [|c' s]; [discriminate|].
    destruct (Ascii.eqb_spec c c') as [<-|]; [|discriminate].
    intros H. cbn. f_equal. now apply IH.
Qed.

Lemma dropUpper_append (capitals s : string) :
  allUpper capitals = true ->
  dropUpper (String.length capitals) (capitals ++ s) = Some s.
Proof.
  induction capitals as [|c capitals IH]; cbn [allUpper String.length dropUpper append].
  - destruct s; reflexivity.
  - intros H. apply andb_true_iff in H as (-> & H). now apply IH.
Qed.

Lemma dropUpper_some (k : nat) :
  forall s r,
    dropUpper k s = Some r ->
    exists capitals, s = capitals ++ r /\ String.length capitals = k
                     /\ allUpper capitals = true.
Proof.
  induction k as [|k IH]; intros s r; cbn [dropUpper].
  - intros H. exists EmptyString. destruct s; injection H as <-; auto.
  - destruct s as [|c s]; [discriminate|].
    destruct (isUpper c) eqn:Hc; [|discriminate].
    intros H. destruct (IH s r H) as (capitals & -> & Hlen & Hall).
    exists (String c capitals). cbn. rewrite Hc, Hall, Hlen. auto.
Qed.

Lemma readDigits_append (digits rest : string) :
  allDigits digits = true ->
  match rest with
  | EmptyString => True
  | String c _ => digit_of c = None
  end ->
  forall acc cnt,
    exists v, readDigits (digits ++ rest) acc cnt = (v, cnt + String.length digits, rest).
Proof.
  intros Hdigits Hrest.
  induction digits as [|c digits IH]; intros acc cnt; cbn [append String.length].
  - rewrite Nat.add_0_r. destruct rest as [|c r]; cbn [readDigits]; [eauto|].
    rewrite Hrest. eauto.
  - cbn [allDigits] in Hdigits. apply andb_true_iff in Hdigits as (Hc & Hdigits).
    cbn [readDigits]. destruct (digit_of c) as [d|]; [|discriminate].
    destruct (IH Hdigits (10 * acc + d)%Z (S cnt)) as (v & ->).
    exists v. do 2 f_equal. lia.
Qed.

Lemma readDigits_some (s : string) :
  forall acc cnt v cnt' rest,
    readDigits s acc cnt = (v, cnt', rest) ->
    exists digits,
      s = digits ++ rest /\ allDigits digits = true
      /\ cnt' = cnt + String.length digits.
Proof.
  induction s as [|c s IH]; intros acc cnt v cnt' rest; cbn [readDigits].
  - intros [= <- <- <-]. exists EmptyString. cbn. auto.
  - destruct (digit_of c) as [d|] eqn:Hc.
    + intros H. destruct (IH _ _ _ _ _ H) as (digits & -> & Hall & ->).
      exists (String c digits). cbn. rewrite Hc, Hall. repeat split. lia.
    + intros [= <- <- <-]. exists EmptyString. cbn. auto.
Qed.

Lemma hasLineBreak_revOnto (s : string) :
  forall acc, hasLineBreak (revOnto s acc) = hasLineBreak s || hasLineBreak acc.
Proof.
  induction s as [|c s IH]; intros acc; cbn [revOnto hasLineBreak]; [reflexivity|].
  rewrite IH. cbn [hasLineBreak].
  destruct (nat_of_ascii c =? 10)%nat, (nat_of_ascii c =? 13)%nat,
    (hasLineBreak s), (hasLineBreak acc); reflexivity.
Qed.

Lemma allDigits_revOnto (s : string) :
  forall acc, allDigits (revOnto s acc) = allDigits s && allDigits acc.
Proof.
  induction s as [|c s IH]; intros acc; cbn [revOnto allDigits]; [reflexivity|].
  rewrite IH. cbn [allDigits].
  destruct (negb (isNone (digit_of c))), (allDigits s), (allDigits acc); reflexivity.
Qed.

Lemma length_revOnto (s : string) :
  forall acc, String.length (revOnto s acc) = String.length s + String.length acc.
Proof.
  induction s as [|c s IH]; intros acc; cbn [revOnto String.length]; [reflexivity|].
  rewrite IH. cbn [String.length]. lia.
Qed.

(** The matcher accepts the names of the pattern: six capitals, a plus
    sign, the font name, a dash, digits, [.ttf]. *)
Lemma ttfMatch_of_name (file name : string) : ttfName file name -> ttfMatch file = Some name.
Proof.
  intros (capitals & digits & -> & Hlen & Hupper & Hsome & Hdigits & Hbreak).
  unfold ttfMatch. rewrite <- Hlen, (dropUpper_append _ _ Hupper).
  cbn [append].
  rewrite revOnto_of_append. cbn [revOnto].
  rewrite revOnto_of_append.
  change (revOnto ".ttf" (revOnto digits (String "-" (revOnto name EmptyString))))
    with ("ftt." ++ revOnto digits (String "-" (revOnto name EmptyString))).
  rewrite dropPrefix_append.
  rewrite (revOnto_append digits).
  destruct (readDigits_append (revOnto digits EmptyString)
              (String "-" (revOnto name EmptyString))) with (acc := 0%Z) (cnt := 0)
    as (v & ->).
  - rewrite allDigits_revOnto, Hdigits. reflexivity.
  - reflexivity.
  - rewrite length_revOnto. cbn [String.length Nat.add].
    destruct digits as [|c digits]; [congruence|]. cbn [String.length Nat.add].
    rewrite hasLineBreak_revOnto, Hbreak. cbn [hasLineBreak orb].
    now rewrite rev_involutive.
Qed.

Lemma rev_eq (s t : string) : revOnto s EmptyString = t -> s = revOnto t EmptyString.
Proof. intros <-. now rewrite rev_involutive. Qed.

(** Conversely the matcher accepts nothing else, and what it returns is the
    font name. *)
Lemma ttfMatch_name (file name : string) : ttfMatch file = Some name -> ttfName file name.
Proof.
  unfold ttfMatch. intros H.
  destruct (dropUpper 6 file) as [[|plus r]|] eqn:Hupper; try discriminate.
  destruct (Ascii.eqb_spec plus "+") as [->|Hplus];
    [|destruct plus as [[] [] [] [] [] [] [] []]; try discriminate; congruence].
  apply dropUpper_some in Hupper as (capitals & -> & Hlen & Hall).
  destruct (dropPrefix "ftt." (revOnto r EmptyString)) as [r1|] eqn:Hext; [|discriminate].
  apply dropPrefix_some in Hext. apply rev_eq in Hext.
  destruct (readDigits r1 0%Z 0) as [[v cnt] rest] eqn:Hread.
  destruct cnt as [|cnt]; [discriminate|].
  destruct rest as [|dash x]; [discriminate|].
  destruct (Ascii.eqb_spec dash "-") as [->|Hdash];
    [|destruct dash as [[] [] [] [] [] [] [] []]; try discriminate; congruence].
  destruct (hasLineBreak x) eqn:Hbreak; [discriminate|]. injection H as <-.
  apply readDigits_some in Hread as (digits & -> & Hdigits & Hcnt).
  exists capitals, (revOnto digits EmptyString).
  split.
  - f_equal. cbn [append]. f_equal. rewrite Hext.
    rewrite revOnto_of_append. cbn [revOnto].
    rewrite revOnto_of_append. cbn [revOnto].
    rewrite (revOnto_append x (String "-" _)), (revOnto_append digits ".ttf").
    reflexivity.
  - split; [exact Hlen|]. split; [exact Hall|]. split; [|split].
    + destruct digits; [cbn in Hcnt; lia|]. intros Hnil.
      apply (f_equal String.length) in Hnil. rewrite length_revOnto in Hnil.
      cbn in Hnil. lia.
    + rewrite allDigits_revOnto, Hdigits. reflexivity.
    + rewrite hasLineBreak_revOnto, Hbreak. reflexivity.
Qed.

(** What the loop over the extraction folder renames. *)
Lemma renames_In (extractLocation : string) (files : list string) (from to : string) :
  In (from, to) (renames extractLocation files)
  <-> exists file name,
        In file files /\ ttfName file name
        /\ from = extractLocation ++ "/" ++ file
        /\ to = extractLocation ++ "/" ++ name ++ ".ttf".
Proof.
  unfold renames. rewrite in_flat_map. split.
  - intros (file & Hfile & Hin).
    destruct (ttfMatch file) as [name|] eqn:Hmatch; [|destruct Hin].
    destruct Hin as [[= <- <-]|[]].
    exists file, name. split; [exact Hfile|]. split; [|split; reflexivity].
    now apply ttfMatch_name.
  - intros (file & name & Hfile & Hname & -> & ->).
    exists file. split; [exact Hfile|].
    rewrite (ttfMatch_of_name _ _ Hname). now left.
Qed.

(** The files that [extractImagesAndFonts] renames are the files of the
    extraction folder named by six capitals, a plus sign, a font name free of
    line breaks, a dash, digits and [.ttf]; each is renamed to the font name
    with the extension [.ttf], in the same folder.  They are renamed when
    [mutool] is found and its run either ended with status 0 or left a
    [stderr] to read: also after a failed run, for which the promise is
    rejected, but not when the process could not be started, where reading
    [stderr] throws before the folder is read. *)
Theorem extractImagesAndFonts_renames (sys : System) (pdfInputFile from to : string) :
  let ret := spawnSync sys "mutool" ["extract"; pdfInputFile]
               (getMutoolExtractionFolder sys) in
  In (from, to) (snd (extractImagesAndFonts sys pdfInputFile))
  <-> notFound (getCommandLocationOnSystem sys "mutool") = false
      /\ (status ret = Some 0%Z \/ stderr ret <> None)
      /\ exists file name,
           In file (readdirSync sys (getMutoolExtractionFolder sys))
           /\ ttfName file name
           /\ from = getMutoolExtractionFolder sys ++ "/" ++ file
           /\ to = getMutoolExtractionFolder sys ++ "/" ++ name ++ ".ttf".
Proof.
  cbv zeta. unfold extractImagesAndFonts, rejectOnFailure, failed. cbv zeta.
  destruct (notFound (getCommandLocationOnSystem sys "mutool")).
  - cbn. split; [intros []|intros (H & _); discriminate].
  - destruct (status (spawnSync sys "mutool" ["extract"; pdfInputFile]
                        (getMutoolExtractionFolder sys))) as [[|z|z]|] eqn:Hstatus;
      destruct (stderr (spawnSync sys "mutool" ["extract"; pdfInputFile]
                          (getMutoolExtractionFolder sys))) as [text|] eqn:Herr;
      cbn [snd];
      first
        [ rewrite renames_In; split;
          [ intros H; split; [reflexivity|];
            split; [first [now left|right; discriminate]|exact H]
          | intros (_ & _ & H); exact H ]
        | split;
          [ intros []
          | intros (_ & [Hrun|Hrun] & _); [discriminate|now contradiction Hrun] ] ].
Qed.

Import Samples.

Lemma extractImagesAndFonts_renames_witness :
  In ("/tmp/extract/ABCDEF+Arial-12.ttf", "/tmp/extract/Arial.ttf")
    (snd (extractImagesAndFonts failingMutool "in.pdf"))
  /\ ~ In ("/tmp/extract/ABCDEF+Arial-12.ttf", "/tmp/extract/Arial.ttf")
        (snd (extractImagesAndFonts brokenMutool "in.pdf")).
Proof.
  split.
  - apply (extractImagesAndFonts_renames failingMutool "in.pdf").
    split; [reflexivity|]. split; [right; discriminate|].
    exists "ABCDEF+Arial-12.ttf", "Arial".
    split; [left; reflexivity|]. split; [|split; reflexivity].
    apply ttfMatch_name. reflexivity.
  - intros Hin.
    apply (extractImagesAndFonts_renames brokenMutool "in.pdf") in Hin.
    destruct Hin as (_ & [Hrun|Hrun] & _); [discriminate|now apply Hrun].
Defined.

End RenameFacts.

(** ** Colours *)

Module ColourFacts.
Import Colours.

Lemma hexValue_hexDigit (d : Z) : (0 <= d < 16)%Z -> hexValue (hexDigit d) = Some d.
Proof.
  intros Hd.
  assert (d = 0 \/ d = 1 \/ d = 2 \/ d = 3 \/ d = 4 \/ d = 5 \/ d = 6 \/ d = 7
          \/ d = 8 \/ d = 9 \/ d = 10 \/ d = 11 \/ d = 12 \/ d = 13 \/ d = 14
          \/ d = 15)%Z as Hcases by lia.
  repeat (destruct Hcases as [->|Hcases]; [reflexivity|]). subst d. reflexivity.
Qed.

(** A byte is written with two digits. *)
Lemma padded_byte (n : Z) :
  (0 <= n <= 255)%Z ->
  padded (toString16 (Some n))
  = String (hexDigit (n / 16)) (String (hexDigit (n mod 16)) EmptyString).
Proof.
  intros Hn. unfold toString16.
  destruct (n <? 0)%Z eqn:Hneg; [apply Z.ltb_lt in Hneg; lia|].
  cbn [toHex]. destruct (n / 16 =? 0)%Z eqn:Hsmall.
  - apply Z.eqb_eq in Hsmall. rewrite Hsmall. reflexivity.
  - apply Z.eqb_neq in Hsmall.
    assert (16 <= n)%Z as Hbig.
    { destruct (Z.lt_ge_cases n 16) as [Hlt|Hge]; [|exact Hge].
      rewrite Z.div_small in Hsmall by lia. congruence. }
    assert (4 <= Z.log2 n)%Z as Hlog
      by (change 4%Z with (Z.log2 16); apply Z.log2_le_mono; lia).
    destruct (Z.to_nat (Z.log2 n)) as [|fuel] eqn:Hfuel; [lia|].
    cbn [toHex].
    assert (n / 16 / 16 = 0)%Z as ->
        by (apply Z.div_small; split;
            [apply Z.div_pos; lia|apply Z.div_lt_upper_bound; lia]).
    cbn [Z.eqb]. rewrite (Z.mod_small (n / 16) 16)
      by (split; [apply Z.div_pos; lia|apply Z.div_lt_upper_bound; lia]).
    reflexivity.
Qed.

Lemma byteOf_byte (n : Z) :
  (0 <= n <= 255)%Z -> byteOf (hexDigit (n / 16)) (hexDigit (n mod 16)) = Some n.
Proof.
  intros Hn. unfold byteOf.
  rewrite !hexValue_hexDigit.
  - f_equal. symmetry. rewrite Z.add_comm, Z.mul_comm.
    rewrite (Z.div_mod n 16) at 1 by lia. lia.
  - apply Z.mod_pos_bound. lia.
  - split; [apply Z.div_pos; lia|apply Z.div_lt_upper_bound; lia].
Qed.

Lemma readColour_bytes (r g b : Z) :
  (0 <= r <= 255)%Z -> (0 <= g <= 255)%Z -> (0 <= b <= 255)%Z ->
  readColour
    (String "#"
       (String.concat EmptyString
          [padded (toString16 (Some r)); padded (toString16 (Some g));
           padded (toString16 (Some b))]))
  = Some (r, g, b).
Proof.
  intros Hr Hg Hb. rewrite !padded_byte by assumption.
  cbn [String.concat append readColour]. rewrite Ascii.eqb_refl.
  rewrite !byteOf_byte by assumption. reflexivity.
Qed.

Lemma ceil_byte (x : Q) :
  (0 <= x)%Q -> (x <= 1)%Q -> (0 <= Qceiling (x * 255) <= 255)%Z.
Proof.
  intros H0 H1.
  assert (Hlow : (0 <= x * 255)%Q) by lra.
  assert (Hhigh : (x * 255 <= 255)%Q) by lra.
  apply Qceiling_resp_le in Hlow, Hhigh.
  change (Qceiling 0) with 0%Z in Hlow. change (Qceiling 255) with 255%Z in Hhigh.
  split; assumption.
Qed.

Section Pdfminer.

Variable toNumber : string -> number.

(** For three components from 0 to 1, or one that stands for all three,
    [ncolourToHex] returns a colour of the form [#rrggbb] whose bytes are
    the components times 255, rounded up. *)
Theorem ncolourToHex_bytes (color : string) (r g b : Q) :
  components toNumber color = [Some r; Some g; Some b] ->
  (0 <= r)%Q /\ (r <= 1)%Q ->
  (0 <= g)%Q /\ (g <= 1)%Q ->
  (0 <= b)%Q /\ (b <= 1)%Q ->
  readColour (ncolourToHex toNumber color)
  = Some (Qceiling (r * 255), Qceiling (g * 255), Qceiling (b * 255))
  /\ String.length (ncolourToHex toNumber color) = 7.
Proof.
  intros Hcomponents (Hr0 & Hr1) (Hg0 & Hg1) (Hb0 & Hb1).
  unfold components in Hcomponents. unfold ncolourToHex, rgbToHex, times255.
  cbv zeta in *.
  set (rgbColor := split "," (removeFirst "]" (removeFirst "[" color))) in *.
  set (c0 := nth_error rgbColor 0) in *.
  set (c1 := orElse (nth_error rgbColor 1) c0) in *.
  set (c2 := orElse (nth_error rgbColor 2) c0) in *.
  cbn [map] in *. injection Hcomponents as Hr Hg Hb.
  rewrite Hr, Hg, Hb. unfold nmul, lift2, ceil, option_map.
  pose proof (ceil_byte r Hr0 Hr1) as Hrb.
  pose proof (ceil_byte g Hg0 Hg1) as Hgb.
  pose proof (ceil_byte b Hb0 Hb1) as Hbb.
  split; [now apply readColour_bytes|].
  rewrite !padded_byte by assumption. reflexivity.
Qed.

End Pdfminer.

(** The [rgbToHex] of the pdf.js extractor writes three bytes as a colour
    of the form [#rrggbb] from which they are read back. *)
Theorem rgbToHex_bytes (r g b : Z) :
  (0 <= r <= 255)%Z -> (0 <= g <= 255)%Z -> (0 <= b <= 255)%Z ->
  readColour (Pdfjs.rgbToHex (Some r) (Some g) (Some b)) = Some (r, g, b)
  /\ String.length (Pdfjs.rgbToHex (Some r) (Some g) (Some b)) = 7.
Proof.
  intros Hr Hg Hb. unfold Pdfjs.rgbToHex. cbn [map].
  split; [now apply readColour_bytes|].
  rewrite !padded_byte by assumption. reflexivity.
Qed.

Lemma ncolourToHex_bytes_witness :
  ncolourToHex parseFloat "[0.5]" = "#808080"
  /\ readColour (ncolourToHex parseFloat "[0.5]") = Some (128, 128, 128)%Z.
Proof.
  split; [reflexivity|].
  apply (ncolourToHex_bytes parseFloat "[0.5]" (5 # 10) (5 # 10) (5 # 10)).
  - vm_compute. reflexivity.
  - split; [vm_compute; discriminate|vm_compute; discriminate].
  - split; [vm_compute; discriminate|vm_compute; discriminate].
  - split; [vm_compute; discriminate|vm_compute; discriminate].
Defined.

Lemma rgbToHex_bytes_witness :
  Pdfjs.rgbToHex (Some 255%Z) (Some 10%Z) (Some 0%Z) = "#ff0a00"
  /\ readColour (Pdfjs.rgbToHex (Some 255%Z) (Some 10%Z) (Some 0%Z))
     = Some (255, 10, 0)%Z.
Proof.
  split; [reflexivity|].
  apply (rgbToHex_bytes 255 10 0); lia.
Defined.

End ColourFacts.

(** ** The files of the images *)

Module ImageFileFacts.
Import PdfminerPages ImageFiles.

Lemma split_nonempty (sep : ascii) (s : string) : split sep s <> [].
Proof.
  destruct s as [|c s]; cbn [split]; [discriminate|].
  destruct (Ascii.eqb c sep); [discriminate|]. destruct (split sep s); discriminate.
Qed.

Lemma split_no_dot (s : string) : hasDot s = false -> split "." s = [s].
Proof.
  induction s as [|c s IH]; cbn [hasDot split]; [reflexivity|].
  intros H. apply orb_false_iff in H as (Hc & Hs). rewrite Hc, (IH Hs). reflexivity.
Qed.

Lemma split_before_dot (base rest : string) :
  split "." (base ++ String "." rest) = split "." base ++ split "." rest.
Proof.
  induction base as [|c base IH]; cbn [append split].
  - rewrite Ascii.eqb_refl. reflexivity.
  - rewrite IH. destruct (Ascii.eqb c "."); [reflexivity|].
    pose proof (split_nonempty "." base) as Hne.
    destruct (split "." base) as [|w ws]; [congruence|]. reflexivity.
Qed.

(** A name is its pieces with dots between them: the last piece has no dot,
    and what comes before it ends with a dot when there is more than one
    piece. *)
Lemma split_last (s : string) :
  forall ext before,
    rev (split "." s) = ext :: before ->
    hasDot ext = false
    /\ (before = [] -> s = ext)
    /\ (before <> [] -> exists base, s = (base ++ String "." ext)%string).
Proof.
  induction s as [|c s IH]; intros ext before; cbn [split].
  - cbn. intros [= <- <-]. repeat split; congruence.
  - destruct (Ascii.eqb_spec c ".") as [->|Hc].
    + cbn [rev]. intros Hrev.
      pose proof (split_nonempty "." s) as Hne.
      destruct (rev (split "." s)) as [|ext' before'] eqn:Hs.
      { apply (f_equal (@rev string)) in Hs. rewrite rev_involutive in Hs.
        cbn in Hs. congruence. }
      cbn [app] in Hrev. injection Hrev as <- <-.
      destruct (IH ext' before' eq_refl) as (Hdot & Hone & Hmore).
      split; [exact Hdot|]. split.
      * intros Habs. destruct before'; discriminate.
      * intros _. destruct before' as [|b before'].
        -- exists EmptyString. cbn. now rewrite (Hone eq_refl).
        -- destruct (Hmore ltac:(discriminate)) as (base & ->).
           exists (String "." base). reflexivity.
    + pose proof (split_nonempty "." s) as Hne.
      destruct (split "." s) as [|w ws] eqn:Hs; [congruence|].
      cbn [rev]. intros Hrev.
      destruct (rev ws) as [|ext' before'] eqn:Hws.
      * cbn in Hrev. injection Hrev as <- <-.
        assert (ws = []) as ->.
        { apply (f_equal (@rev string)) in Hws. now rewrite rev_involutive in Hws. }
        destruct (IH w [] eq_refl) as (Hdot & Hone & _).
        split; [|split; [|congruence]].
        -- cbn [hasDot]. apply Ascii.eqb_neq in Hc. now rewrite Hc, Hdot.
        -- intros _. now rewrite (Hone eq_refl).
      * cbn [app] in Hrev. injection Hrev as <- <-.
        destruct (IH ext' (before' ++ [w])) as (Hdot & _ & Hmore).
        { cbn [rev]. now rewrite Hws. }
        split; [exact Hdot|]. split.
        -- intros Habs. destruct before'; discriminate.
        -- intros _. destruct Hmore as (base & ->); [destruct before'; discriminate|].
           exists (String c base). reflexivity.
Qed.

(** The extension of a file name is what follows its last dot. *)
Lemma extensionOf_iff (fileName ext : string) :
  extensionOf fileName = Some ext <-> hasExtension fileName ext.
Proof.
  unfold extensionOf, hasExtension. split.
  - destruct (rev (split "." fileName)) as [|e [|b before]] eqn:Hrev; try discriminate.
    destruct (String.eqb_spec e EmptyString) as [->|Hne]; [discriminate|].
    intros [= <-].
    destruct (split_last _ _ _ Hrev) as (Hdot & _ & Hmore).
    destruct (Hmore ltac:(discriminate)) as (base & ->).
    exists base. repeat split; assumption.
  - intros (base & -> & Hne & Hdot).
    change (base ++ "." ++ ext)%string with (base ++ String "." ext)%string.
    rewrite split_before_dot, (split_no_dot _ Hdot), rev_app_distr. cbn [rev app].
    pose proof (split_nonempty "." base) as Hbase.
    destruct (rev (split "." base)) as [|b before] eqn:Hrev.
    { apply (f_equal (@rev string)) in Hrev. rewrite rev_involutive in Hrev.
      cbn in Hrev. congruence. }
    apply String.eqb_neq in Hne. now rewrite Hne.
Qed.

Section Map.

Variable numberToString : number -> string.
Variable join : string -> string -> string.

Let getMap := getImgsIdFilenameMap numberToString join.

Lemma idOf_throws (fileName : string) (e : Error) :
  idOf numberToString fileName = Throw e <-> e = TypeError /\ firstDigits fileName = None.
Proof.
  unfold idOf. destruct (firstDigits fileName).
  - split; [discriminate|]. intros (_ & H). discriminate.
  - split; [intros [= <-]; now split|]. intros (-> & _). reflexivity.
Qed.

Lemma foldM_assign_throws (imgsPhysicalLocation : string) (imgFiles : list string) :
  forall map e,
    foldM (fun idFilenameMap fileName =>
             do id <- idOf numberToString fileName;
             Ok (assign id (join imgsPhysicalLocation fileName) idFilenameMap))
      imgFiles map = Throw e
    <-> e = TypeError /\ exists fileName, In fileName imgFiles /\ firstDigits fileName = None.
Proof.
  induction imgFiles as [|f imgFiles IH]; intros map e; cbn [foldM].
  - split; [discriminate|]. intros (_ & f & [] & _).
  - destruct (idOf numberToString f) as [id|e'] eqn:Hf; cbn [bind].
    + rewrite IH. split.
      * intros (He & g & Hg & Hnone). split; [exact He|].
        exists g. split; [now right|exact Hnone].
      * intros (He & g & [<-|Hg] & Hnone); [|split; [exact He|]; eauto].
        assert (idOf numberToString f = Throw TypeError) as Habs by (now apply idOf_throws).
        congruence.
    + apply idOf_throws in Hf as (-> & Hnone). split.
      * intros [= <-]. split; [reflexivity|]. exists f. split; [now left|exact Hnone].
      * intros (-> & _). reflexivity.
Qed.

Lemma foldM_assign_last (imgsPhysicalLocation : string) (post : list string) (id : string) :
  (forall g, In g post -> idOf numberToString g <> Ok id) ->
  forall map map',
    foldM (fun idFilenameMap fileName =>
             do id <- idOf numberToString fileName;
             Ok (assign id (join imgsPhysicalLocation fileName) idFilenameMap))
      post map = Ok map' ->
    map' id = map id.
Proof.
  induction post as [|g post IH]; intros Hother map map'; cbn [foldM].
  - intros [= <-]. reflexivity.
  - destruct (idOf numberToString g) as [id'|e] eqn:Hg; cbn [bind]; [|discriminate].
    intros Hrest. rewrite (IH (fun g' Hg' => Hother g' (or_intror Hg')) _ _ Hrest).
    unfold assign. destruct (String.eqb_spec id id') as [->|Hne]; [|reflexivity].
    exfalso. apply (Hother g (or_introl eq_refl)). exact Hg.
Qed.

Lemma foldM_app {A B} (f : B -> A -> result B) (l1 l2 : list A) :
  forall acc, foldM f (l1 ++ l2) acc = do acc' <- foldM f l1 acc; foldM f l2 acc'.
Proof.
  induction l1 as [|x l1 IH]; intros acc; cbn [app foldM bind]; [reflexivity|].
  destruct (f acc x) as [acc'|e]; cbn [bind]; [apply IH|reflexivity].
Qed.

(** [getImgsIdFilenameMap] throws exactly when the folder holds a file
    whose name ends with a dot and one of the extensions but has no digit
    in it; what it throws is then a [TypeError]. *)
Theorem getImgsIdFilenameMap_throws (files : list string) (imgsPhysicalLocation : string)
    (imgFileExtensions : list string) (e : Error) :
  getMap files imgsPhysicalLocation imgFileExtensions = Throw e
  <-> e = TypeError
      /\ exists fileName ext,
           In fileName files /\ hasExtension fileName ext /\ In ext imgFileExtensions
           /\ firstDigits fileName = None.
Proof.
  unfold getMap, getImgsIdFilenameMap. cbv zeta.
  rewrite (foldM_assign_throws imgsPhysicalLocation). apply and_iff_compat_l. split.
  - intros (f & Hin & Hnone). apply filter_In in Hin as (Hin & Hext).
    unfold includesExtension in Hext.
    destruct (extensionOf f) as [ext|] eqn:Hf; [|discriminate].
    apply existsb_exists in Hext as (ext' & Hext' & Heq).
    apply String.eqb_eq in Heq. subst ext'.
    exists f, ext. repeat split; try assumption. now apply extensionOf_iff.
  - intros (f & ext & Hin & Hext & Hexts & Hnone). exists f. split; [|exact Hnone].
    apply filter_In. split; [exact Hin|]. unfold includesExtension.
    apply extensionOf_iff in Hext. rewrite Hext.
    apply existsb_exists. exists ext. split; [exact Hexts|apply String.eqb_refl].
Qed.

(** Of the files with the same number in their names the last one of the
    folder is the one that the map gives for that number. *)
Theorem getImgsIdFilenameMap_last_wins (files : list string) (imgsPhysicalLocation : string)
    (imgFileExtensions : list string) (map : string -> option string)
    (pre post : list string) (fileName id : string) :
  getMap files imgsPhysicalLocation imgFileExtensions = Ok map ->
  filter (includesExtension imgFileExtensions) files = pre ++ fileName :: post ->
  idOf numberToString fileName = Ok id ->
  (forall g, In g post -> idOf numberToString g <> Ok id) ->
  map id = Some (join imgsPhysicalLocation fileName).
Proof.
  unfold getMap, getImgsIdFilenameMap. cbv zeta. intros Hmap Hfiles Hid Hlast.
  rewrite Hfiles, foldM_app in Hmap.
  destruct (foldM _ pre _) as [map0|e0]; cbn [bind foldM] in Hmap; [|discriminate].
  rewrite Hid in Hmap. cbn [bind] in Hmap.
  rewrite (foldM_assign_last imgsPhysicalLocation post id Hlast _ _ Hmap).
  unfold assign. now rewrite String.eqb_refl.
Qed.

End Map.

Import MoreSamples.

Lemma getImgsIdFilenameMap_last_wins_witness :
  exists map,
    getImgsIdFilenameMap sampleNumberToString sampleJoin sampleImageFolder "imgs"
      ["png"; "bmp"; "jpg"] = Ok map
    /\ map "12" = Some "imgs/img-012.png".
Proof.
  eexists. split; [reflexivity|].
  apply (getImgsIdFilenameMap_last_wins sampleNumberToString sampleJoin sampleImageFolder
           "imgs" ["png"; "bmp"; "jpg"] _ ["img-12.jpg"] ["p3.bmp"] "img-012.png" "12").
  - reflexivity.
  - reflexivity.
  - reflexivity.
  - intros g [<-|[]]. vm_compute. discriminate.
Defined.

End ImageFileFacts.

(** ** Boxes *)

Module BoxFacts.
Import Pdfminer.

Local Open Scope Q_scope.

(** For a box that lies inside the page, with its corners in pdfminer's
    order, [getBoundingBox] mirrors the box: its top is as far from the top
    of the page as the upper edge was, its bottom as far as the lower edge
    was, and its right edge is the right edge. *)
Theorem getBoundingBox_mirrors (bbox : string) (splitter : ascii)
    (x0 y0 x1 y1 H s : Q) (rest : list number) :
  map parseFloat (split splitter bbox)
    = Some x0 :: Some y0 :: Some x1 :: Some y1 :: rest ->
  x0 * s <= x1 * s ->
  y0 * s <= y1 * s ->
  y1 * s <= H ->
  exists l t w h,
    getBoundingBox bbox splitter (Some H) (Some s) = mkBoundingBox (Some l) (Some t) (Some w) (Some h)
    /\ t == H - y1 * s
    /\ t + h == H - y0 * s
    /\ l + w == x1 * s
    /\ 0 <= t /\ 0 <= w /\ 0 <= h.
Proof.
  intros Hparse Hx Hy Hpage. unfold getBoundingBox.
  rewrite <- (map_map parseFloat (fun n => nmul n (Some s))), Hparse.
  cbn [map at_index nth nmul nsub nabs lift2 option_map].
  do 4 eexists. split; [reflexivity|].
  assert (Hw : Qabs (x1 * s - x0 * s) == x1 * s - x0 * s) by (apply Qabs_pos; lra).
  assert (Hh : Qabs (y0 * s - y1 * s) == y1 * s - y0 * s).
  { rewrite Qabs_neg by lra. lra. }
  assert (Ht : Qabs (H - y0 * s) == H - y0 * s) by (apply Qabs_pos; lra).
  rewrite Hw, Hh, Ht. repeat split; lra.
Qed.

Lemma getBoundingBox_mirrors_witness :
  exists l t w h,
    getBoundingBox "72.000,244.190,373.280,506.640" "," (Some 800) (Some 1)
    = mkBoundingBox (Some l) (Some t) (Some w) (Some h)
    /\ t == 800 - 506.640 * 1
    /\ t + h == 800 - 244.190 * 1
    /\ l + w == 373.280 * 1
    /\ 0 <= t /\ 0 <= w /\ 0 <= h.
Proof.
  apply (getBoundingBox_mirrors "72.000,244.190,373.280,506.640" ","
           72.000 244.190 373.280 506.640 800 1 []).
  - reflexivity.
  - vm_compute. discriminate.
  - vm_compute. discriminate.
  - vm_compute. discriminate.
Defined.

End BoxFacts.
